(** * MVKRenderPass and SPIRVReflection: render subpasses, attachments,
    multiview partitioning and shader reflection

    A shallow embedding of MVKRenderPass.mm and of SPIRVReflection.h.
    Unsigned 32-bit quantities are integers of [Z] kept in the range
    [0, 2^32) with the wrap-around written out; vectors are lists; a function
    that can read past the end of a vector, trip an [assert] or spin in a
    loop returns in the [Res] monad. *)

From Stdlib Require Import ZArith List Bool Lia.
From Stdlib Require Import Sorted Permutation.
From Stdlib Require String.
Import ListNotations.
Import String.StringSyntax.
Local Open Scope Z_scope.

(** ** Outcomes of a call *)

Inductive Fault : Type :=
| AssertionFailed   (* an [assert] of a debug build did not hold *)
| OutOfRange        (* [operator[]] past the end of a vector *)
| NoFuel.           (* a loop did not leave within the iterations granted *)

Inductive Res (A : Type) : Type :=
| Ok (a : A)
| Fail (f : Fault).
Arguments Ok {A} a.
Arguments Fail {A} f.

Definition bind {A B : Type} (m : Res A) (k : A -> Res B) : Res B :=
  match m with
  | Ok a => k a
  | Fail f => Fail f
  end.

Notation "x <- m ;; k" := (bind m (fun x => k))
  (at level 61, m at next level, right associativity).

(** [v[i]] on a [std::vector]: the index is an unsigned integer. *)
Definition at_ {A : Type} (v : list A) (i : Z) : Res A :=
  match nth_error v (Z.to_nat i) with
  | Some a => Ok a
  | None => Fail OutOfRange
  end.

(** ** 32-bit arithmetic *)

Module UInt32.

Definition modulus : Z := 4294967296.

(** Conversion to [uint32_t]. *)
Definition u32 (x : Z) : Z := x mod modulus.

(** [1 << e] read as an unsigned 32-bit value.  C++ leaves the shift
    undefined for [e] outside [0, 31]; the embedding takes the value that has
    no bit in the low 32 there, which is also what the loop of
    [getNextViewMaskGroup] observes on hardware that reduces the shift count
    modulo 32 (the bit tested there was cleared before). *)
Definition shl1 (e : Z) : Z :=
  if (0 <=? e) && (e <? 32) then Z.shiftl 1 e else 0.

(** [~x] on 32 bits. *)
Definition not32 (x : Z) : Z := u32 (Z.lnot x).

Fixpoint ffs_from (n : nat) (i : Z) (x : Z) : Z :=
  match n with
  | O => 0
  | S n' => if Z.testbit x i then i + 1 else ffs_from n' (i + 1) x
  end.

(** [ffs(3)]: the 1-based index of the lowest set bit, 0 when there is none. *)
Definition ffs (x : Z) : Z := ffs_from 32 0 x.

Definition b2z (b : bool) : Z := if b then 1 else 0.

Fixpoint popcount_below (n : nat) (x : Z) : Z :=
  match n with
  | O => 0
  | S k => b2z (Z.testbit x (Z.of_nat k)) + popcount_below k x
  end.

(** [__builtin_popcount] on an [unsigned int]. *)
Definition __builtin_popcount (x : Z) : Z := popcount_below 32 x.

End UInt32.
Import UInt32.

(** ** Vulkan and Metal enumerations *)

Inductive VkAttachmentLoadOp : Type :=
| VK_ATTACHMENT_LOAD_OP_LOAD
| VK_ATTACHMENT_LOAD_OP_CLEAR
| VK_ATTACHMENT_LOAD_OP_DONT_CARE.

Inductive VkAttachmentStoreOp : Type :=
| VK_ATTACHMENT_STORE_OP_STORE
| VK_ATTACHMENT_STORE_OP_DONT_CARE.

Inductive MTLLoadAction : Type :=
| MTLLoadActionDontCare
| MTLLoadActionLoad
| MTLLoadActionClear.

Inductive MTLStoreAction : Type :=
| MTLStoreActionDontCare
| MTLStoreActionStore
| MTLStoreActionMultisampleResolve
| MTLStoreActionStoreAndMultisampleResolve
| MTLStoreActionUnknown.

Definition VkAttachmentLoadOp_eqb (a b : VkAttachmentLoadOp) : bool :=
  match a, b with
  | VK_ATTACHMENT_LOAD_OP_LOAD, VK_ATTACHMENT_LOAD_OP_LOAD
  | VK_ATTACHMENT_LOAD_OP_CLEAR, VK_ATTACHMENT_LOAD_OP_CLEAR
  | VK_ATTACHMENT_LOAD_OP_DONT_CARE, VK_ATTACHMENT_LOAD_OP_DONT_CARE => true
  | _, _ => false
  end.

Definition MTLLoadAction_eqb (a b : MTLLoadAction) : bool :=
  match a, b with
  | MTLLoadActionDontCare, MTLLoadActionDontCare
  | MTLLoadActionLoad, MTLLoadActionLoad
  | MTLLoadActionClear, MTLLoadActionClear => true
  | _, _ => false
  end.

(** [VK_ATTACHMENT_UNUSED] is [(~0U)] and [VK_FORMAT_UNDEFINED] is 0 in the
    Vulkan headers. *)
Definition VK_ATTACHMENT_UNUSED : Z := 4294967295.
Definition VK_FORMAT_UNDEFINED : Z := 0.

(** ** Data model *)

Record VkAttachmentReference2 : Type := {
  attachment : Z;
  layout : Z;
  aspectMask : Z
}.

Record VkAttachmentDescription2 : Type := {
  format : Z;
  samples : Z;
  loadOp : VkAttachmentLoadOp;
  storeOp : VkAttachmentStoreOp;
  stencilLoadOp : VkAttachmentLoadOp;
  stencilStoreOp : VkAttachmentStoreOp;
  initialLayout : Z;
  finalLayout : Z
}.

Record MVKRenderSubpass : Type := {
  _subpassIndex : Z;
  _viewMask : Z;
  _inputAttachments : list VkAttachmentReference2;
  _colorAttachments : list VkAttachmentReference2;
  _resolveAttachments : list VkAttachmentReference2;
  _depthStencilAttachment : VkAttachmentReference2;
  _depthStencilResolveAttachment : VkAttachmentReference2;
  _preserveAttachments : list Z
}.

Record MVKRenderPassAttachment : Type := {
  _info : VkAttachmentDescription2;
  _attachmentIndex : Z;
  _firstUseSubpassIdx : Z;
  _lastUseSubpassIdx : Z;
  _firstUseViewMasks : list Z;
  _lastUseViewMasks : list Z
}.

(** What the code reads of the device and of its Metal features. *)
Record MVKDevice : Type := {
  canUseInstancingForMultiview : bool;
  combinedStoreResolveAction : bool;
  deferredStoreActions : bool
}.

(** [VkResult] values the render pass records. *)
Definition VK_SUCCESS : Z := 0.
Definition VK_ERROR_FORMAT_NOT_SUPPORTED : Z := -11.

Record MVKRenderPass : Type := {
  _device : MVKDevice;
  _subpasses : list MVKRenderSubpass;
  _attachments : list MVKRenderPassAttachment;
  _configurationResult : Z
}.

(** The extensible creation structures, with what the constructors read of
    them; a null pointer is [None]. *)
Record VkSubpassDescription2 : Type := {
  viewMask : Z;
  pInputAttachments : list VkAttachmentReference2;
  pColorAttachments : list VkAttachmentReference2;
  pResolveAttachments : option (list VkAttachmentReference2);
  pDepthStencilAttachment : option VkAttachmentReference2;
  pDepthStencilResolveAttachment : option VkAttachmentReference2;
  pPreserveAttachments : list Z
}.

Record VkRenderPassCreateInfo2 : Type := {
  pAttachments : list VkAttachmentDescription2;
  pSubpasses : list VkSubpassDescription2
}.

(** ** The view-mask partitioner *)

(** What [getNextViewMaskGroup] hands back: its return value and the three
    out-parameters.  A caller that passes [nullptr] for one of them ignores the
    field; the values computed do not depend on which pointers are given. *)
Record ViewMaskGroup : Type := {
  restMask : Z;
  startView : Z;
  viewCount : Z;
  groupMask : Z
}.

(** The [while (viewMask & (1 << end))] loop, on [(viewMask, end, groupMask)]. *)
Fixpoint clumpLoop (fuel : nat) (viewMask end_ groupMask : Z) : Res (Z * Z * Z) :=
  match fuel with
  | O => Fail NoFuel
  | S fuel' =>
      if Z.land viewMask (shl1 end_) =? 0 then Ok (viewMask, end_, groupMask)
      else clumpLoop fuel'
             (Z.land viewMask (not32 (shl1 end_)))
             (end_ + 1)
             (Z.lor groupMask (Z.land viewMask (shl1 end_)))
  end.

Definition getNextViewMaskGroup (viewMask : Z) : Res ViewMaskGroup :=
  let pos := ffs viewMask - 1 in
  r <- clumpLoop 33 viewMask pos 0 ;;
  let '(viewMask', end_, groupMask') := r in
  Ok {| restMask := viewMask';
        startView := u32 pos;
        viewCount := u32 (end_ - pos);
        groupMask := groupMask' |}.

(** A [for (uint32_t i = 0; i <= passIdx; ++i)] loop runs its body
    [passIdx + 1] times; with [passIdx] at the top of the range the test never
    fails and the loop does not end. *)
Definition passIterations (passIdx : Z) : Res nat :=
  if passIdx =? 4294967295 then Fail NoFuel
  else Ok (S (Z.to_nat passIdx)).

Fixpoint iterate {St : Type} (n : nat) (body : St -> Res St) (s : St) : Res St :=
  match n with
  | O => Ok s
  | S n' => s' <- body s ;; iterate n' body s'
  end.

(** The [for (count = 0; mask != 0; ++count)] loop of
    [getMultiviewMetalPassCount]. *)
Fixpoint countClumps (fuel : nat) (mask count : Z) : Res Z :=
  match fuel with
  | O => Fail NoFuel
  | S fuel' =>
      if mask =? 0 then Ok count
      else g <- getNextViewMaskGroup mask ;;
           countClumps fuel' (restMask g) (u32 (count + 1))
  end.

(** [while (passIdx-- > 0 && viewCount-- > 0) { startView++; }] on
    [(passIdx, viewCount, startView)].  Both decrements are post-decrements on
    [uint32_t]: the one of [passIdx] happens on every test, also on the failing
    one, and the one of [viewCount] only when the first test held. *)
Fixpoint skipViews (fuel : nat) (passIdx viewCount_ startView_ : Z)
  : Res (Z * Z * Z) :=
  match fuel with
  | O => Fail NoFuel
  | S fuel' =>
      if 0 <? passIdx then
        if 0 <? viewCount_ then
          skipViews fuel' (u32 (passIdx - 1)) (u32 (viewCount_ - 1))
                    (u32 (startView_ + 1))
        else Ok (u32 (passIdx - 1), u32 (viewCount_ - 1), startView_)
      else Ok (u32 (passIdx - 1), viewCount_, startView_)
  end.

(** The [for (uint32_t i = 0; mask != 0; ++i)] loop of the branch of
    [getFirstViewIndexInMetalPass] without instancing, on
    [(mask, passIdx, startView, viewCount)]; it yields [startView]. *)
Fixpoint unrolledScan (fuel : nat) (mask passIdx startView_ viewCount_ : Z)
  : Res Z :=
  match fuel with
  | O => Fail NoFuel
  | S fuel' =>
      if mask =? 0 then Ok startView_
      else g <- getNextViewMaskGroup mask ;;
           r <- skipViews (S (Z.to_nat (viewCount g))) passIdx
                          (viewCount g) (startView g) ;;
           let '(passIdx', viewCount', startView') := r in
           unrolledScan fuel' (restMask g) passIdx' startView' viewCount'
  end.

(** Format capabilities a subpass needs of an attachment.  The code keeps them
    as bit flags of [MVKMTLFmtCaps], whose constants are declared in
    MVKPixelFormats.h; the embedding keeps one boolean per flag the code sets,
    so that "no flag set" is the [kMVKMTLFmtCapsNone] the code tests for. *)
Record MVKMTLFmtCaps : Type := {
  capsRead : bool;
  capsColorAtt : bool;
  capsResolve : bool;
  capsDSAtt : bool
}.

Definition kMVKMTLFmtCapsNone : MVKMTLFmtCaps :=
  {| capsRead := false; capsColorAtt := false;
     capsResolve := false; capsDSAtt := false |}.

(** [(bool)caps]: some flag is set. *)
Definition anyCaps (c : MVKMTLFmtCaps) : bool :=
  capsRead c || capsColorAtt c || capsResolve c || capsDSAtt c.

(** [mvkAreAllFlagsEnabled(avail, req)]. *)
Definition mvkAreAllFlagsEnabled (avail req : MVKMTLFmtCaps) : bool :=
  implb (capsRead req) (capsRead avail)
  && implb (capsColorAtt req) (capsColorAtt avail)
  && implb (capsResolve req) (capsResolve avail)
  && implb (capsDSAtt req) (capsDSAtt avail).

(** What the code asks of the image view bound to an attachment and of the
    pixel-format service about that view's Metal format. *)
Record MVKImageView : Type := {
  storageModeMemoryless : bool;
  isDepthFormat : bool;
  isStencilFormat : bool
}.

(** The two fields of [MTLRenderPassAttachmentDescriptor] this file decides. *)
Record MTLRenderPassAttachmentDescriptor : Type := {
  loadAction : MTLLoadAction;
  storeAction : MTLStoreAction
}.

Section RenderPass.

(** Build configuration: [NDEBUG] removes the [assert]s, and only a build
    for Apple Silicon looks at the texture's storage mode. *)
Variable NDEBUG : bool.
Variable MVK_APPLE_SILICON : bool.

(** Declared elsewhere in the repository (MVKFoundation.h, mvk_datatypes.h,
    MVKPixelFormats.h) and taken as given here. *)
Variable kMVKUndefinedLargeUInt32 : Z.
Variable mvkMTLLoadActionFromVkAttachmentLoadOp :
  VkAttachmentLoadOp -> MTLLoadAction.
Variable mvkMTLStoreActionFromVkAttachmentStoreOp :
  VkAttachmentStoreOp -> bool -> bool -> MTLStoreAction.
Variable isSupportedOrSubstitutable : Z -> bool.
Variable getMTLPixelFormat : Z -> Z.
Variable getCapabilities : Z -> MVKMTLFmtCaps.

Definition assert_ (cond : Res bool) : Res unit :=
  if NDEBUG then Ok tt
  else b <- cond ;; if b then Ok tt else Fail AssertionFailed.

(** *** MVKRenderSubpass *)

(** Modelled from the spec: [MVKRenderSubpass::isMultiview] is declared in
    MVKRenderPass.h; a view mask of 0 means the subpass is not multiview. *)
Definition isMultiview (sp : MVKRenderSubpass) : bool :=
  negb (_viewMask sp =? 0).

Definition isUsed (ref : VkAttachmentReference2) : bool :=
  negb (attachment ref =? VK_ATTACHMENT_UNUSED).

Definition hasColorAttachments (sp : MVKRenderSubpass) : bool :=
  existsb isUsed (_colorAttachments sp).

Definition getFormat (att : MVKRenderPassAttachment) : Z := format (_info att).

Definition getSampleCount_att (att : MVKRenderPassAttachment) : Z :=
  samples (_info att).

Definition getColorAttachmentFormat (rp : MVKRenderPass) (sp : MVKRenderSubpass)
           (colorAttIdx : Z) : Res Z :=
  if colorAttIdx <? Z.of_nat (length (_colorAttachments sp)) then
    ca <- at_ (_colorAttachments sp) colorAttIdx ;;
    let rpAttIdx := attachment ca in
    if rpAttIdx =? VK_ATTACHMENT_UNUSED then Ok VK_FORMAT_UNDEFINED
    else att <- at_ (_attachments rp) rpAttIdx ;; Ok (getFormat att)
  else Ok VK_FORMAT_UNDEFINED.

Definition isColorAttachmentUsed (sp : MVKRenderSubpass) (colorAttIdx : Z)
  : Res bool :=
  if Z.of_nat (length (_colorAttachments sp)) <=? colorAttIdx then Ok false
  else ca <- at_ (_colorAttachments sp) colorAttIdx ;;
       Ok (negb (attachment ca =? VK_ATTACHMENT_UNUSED)).

Definition isColorAttachmentAlsoInputAttachment (sp : MVKRenderSubpass)
           (colorAttIdx : Z) : Res bool :=
  if Z.of_nat (length (_colorAttachments sp)) <=? colorAttIdx then Ok false
  else ca <- at_ (_colorAttachments sp) colorAttIdx ;;
       let rspAttIdx := attachment ca in
       if rspAttIdx =? VK_ATTACHMENT_UNUSED then Ok false
       else Ok (existsb (fun inAtt => attachment inAtt =? rspAttIdx)
                        (_inputAttachments sp)).

Definition getDepthStencilFormat (rp : MVKRenderPass) (sp : MVKRenderSubpass)
  : Res Z :=
  let rpAttIdx := attachment (_depthStencilAttachment sp) in
  if rpAttIdx =? VK_ATTACHMENT_UNUSED then Ok VK_FORMAT_UNDEFINED
  else att <- at_ (_attachments rp) rpAttIdx ;; Ok (getFormat att).

(** [VK_SAMPLE_COUNT_1_BIT] of the Vulkan headers. *)
Definition VK_SAMPLE_COUNT_1_BIT : Z := 1.

Definition getSampleCount (rp : MVKRenderPass) (sp : MVKRenderSubpass) : Res Z :=
  match find isUsed (_colorAttachments sp) with
  | Some ca => att <- at_ (_attachments rp) (attachment ca) ;;
               Ok (getSampleCount_att att)
  | None =>
      let rpAttIdx := attachment (_depthStencilAttachment sp) in
      if negb (rpAttIdx =? VK_ATTACHMENT_UNUSED) then
        att <- at_ (_attachments rp) rpAttIdx ;; Ok (getSampleCount_att att)
      else Ok VK_SAMPLE_COUNT_1_BIT
  end.

Definition getMultiviewMetalPassCount (rp : MVKRenderPass)
           (sp : MVKRenderSubpass) : Res Z :=
  if _viewMask sp =? 0 then Ok 0
  else if negb (canUseInstancingForMultiview (_device rp))
  then Ok (__builtin_popcount (_viewMask sp))
  else countClumps 33 (_viewMask sp) 0.

Definition passIdxInRange (rp : MVKRenderPass) (sp : MVKRenderSubpass)
           (passIdx : Z) : Res bool :=
  n <- getMultiviewMetalPassCount rp sp ;; Ok (passIdx <? n).

Definition getFirstViewIndexInMetalPass (rp : MVKRenderPass)
           (sp : MVKRenderSubpass) (passIdx : Z) : Res Z :=
  if _viewMask sp =? 0 then Ok 0
  else
    _ <- assert_ (passIdxInRange rp sp passIdx) ;;
    if negb (canUseInstancingForMultiview (_device rp)) then
      unrolledScan 33 (_viewMask sp) passIdx 0 0
    else
      n <- passIterations passIdx ;;
      r <- iterate n
             (fun '(mask, _) =>
                g <- getNextViewMaskGroup mask ;;
                Ok (restMask g, startView g))
             (_viewMask sp, 0) ;;
      Ok (snd r).

Definition getViewMaskGroupForMetalPass (rp : MVKRenderPass)
           (sp : MVKRenderSubpass) (passIdx : Z) : Res Z :=
  if _viewMask sp =? 0 then Ok 0
  else
    _ <- assert_ (passIdxInRange rp sp passIdx) ;;
    if negb (canUseInstancingForMultiview (_device rp)) then
      v <- getFirstViewIndexInMetalPass rp sp passIdx ;; Ok (shl1 v)
    else
      n <- passIterations passIdx ;;
      r <- iterate n
             (fun '(mask, _) =>
                g <- getNextViewMaskGroup mask ;;
                Ok (restMask g, groupMask g))
             (_viewMask sp, 0) ;;
      Ok (snd r).

Definition getViewCountInMetalPass (rp : MVKRenderPass)
           (sp : MVKRenderSubpass) (passIdx : Z) : Res Z :=
  if _viewMask sp =? 0 then Ok 0
  else
    _ <- assert_ (passIdxInRange rp sp passIdx) ;;
    if negb (canUseInstancingForMultiview (_device rp)) then Ok 1
    else
      n <- passIterations passIdx ;;
      r <- iterate n
             (fun '(mask, _) =>
                g <- getNextViewMaskGroup mask ;;
                Ok (restMask g, viewCount g))
             (_viewMask sp, 0) ;;
      Ok (snd r).

Definition getViewCountUpToMetalPass (rp : MVKRenderPass)
           (sp : MVKRenderSubpass) (passIdx : Z) : Res Z :=
  if _viewMask sp =? 0 then Ok 0
  else if negb (canUseInstancingForMultiview (_device rp))
  then Ok (u32 (passIdx + 1))
  else
    n <- passIterations passIdx ;;
    r <- iterate n
           (fun '(mask, totalViewCount) =>
              g <- getNextViewMaskGroup mask ;;
              Ok (restMask g, u32 (totalViewCount + viewCount g)))
           (_viewMask sp, 0) ;;
    Ok (snd r).

Definition refersTo (rpAttIdx : Z) (att : VkAttachmentReference2) : bool :=
  attachment att =? rpAttIdx.

Definition getRequiredFormatCapabilitiesForAttachmentAt
           (sp : MVKRenderSubpass) (rpAttIdx : Z) : MVKMTLFmtCaps :=
  {| capsRead := existsb (refersTo rpAttIdx) (_inputAttachments sp);
     capsColorAtt := existsb (refersTo rpAttIdx) (_colorAttachments sp);
     capsResolve :=
       existsb (refersTo rpAttIdx) (_resolveAttachments sp)
       || refersTo rpAttIdx (_depthStencilResolveAttachment sp);
     capsDSAtt := refersTo rpAttIdx (_depthStencilAttachment sp) |}.

Definition unusedReference : VkAttachmentReference2 :=
  {| attachment := VK_ATTACHMENT_UNUSED; layout := 0; aspectMask := 0 |}.

(** The constructor from [VkSubpassDescription2]; [index] is
    [_renderPass->_subpasses.size()] at the time of the call. *)
Definition MVKRenderSubpass_new (index : Z) (pCreateInfo : VkSubpassDescription2)
  : MVKRenderSubpass :=
  {| _subpassIndex := index;
     _viewMask := viewMask pCreateInfo;
     _inputAttachments := pInputAttachments pCreateInfo;
     _colorAttachments := pColorAttachments pCreateInfo;
     _resolveAttachments :=
       match pResolveAttachments pCreateInfo with
       | Some l => l
       | None => []
       end;
     _depthStencilAttachment :=
       match pDepthStencilAttachment pCreateInfo with
       | Some r => r
       | None => unusedReference
       end;
     _depthStencilResolveAttachment :=
       match pDepthStencilResolveAttachment pCreateInfo with
       | Some r => r
       | None => unusedReference
       end;
     _preserveAttachments := pPreserveAttachments pCreateInfo |}.

(** *** MVKRenderPassAttachment *)

Definition isFirstUseOfAttachment (att : MVKRenderPassAttachment)
           (subpass : MVKRenderSubpass) : Res bool :=
  if isMultiview subpass then
    m <- at_ (_firstUseViewMasks att) (_subpassIndex subpass) ;;
    Ok (m =? _viewMask subpass)
  else Ok (_firstUseSubpassIdx att =? _subpassIndex subpass).

Definition isLastUseOfAttachment (att : MVKRenderPassAttachment)
           (subpass : MVKRenderSubpass) : Res bool :=
  if isMultiview subpass then
    m <- at_ (_lastUseViewMasks att) (_subpassIndex subpass) ;;
    Ok (m =? _viewMask subpass)
  else Ok (_lastUseSubpassIdx att =? _subpassIndex subpass).

Definition getMTLStoreAction (rp : MVKRenderPass) (att : MVKRenderPassAttachment)
           (subpass : MVKRenderSubpass)
           (isRenderingEntireAttachment isMemorylessAttachment
            hasResolveAttachment canResolveFormat isStencil storeOverride : bool)
  : Res MTLStoreAction :=
  if hasResolveAttachment && canResolveFormat
     && negb (combinedStoreResolveAction (_device rp))
  then Ok MTLStoreActionMultisampleResolve
  else if isMemorylessAttachment then
    Ok (if hasResolveAttachment then MTLStoreActionMultisampleResolve
        else MTLStoreActionDontCare)
  else
    keep <- (if storeOverride || negb isRenderingEntireAttachment then Ok true
             else last <- isLastUseOfAttachment att subpass ;; Ok (negb last)) ;;
    if keep then
      Ok (if hasResolveAttachment && canResolveFormat
          then MTLStoreActionStoreAndMultisampleResolve
          else MTLStoreActionStore)
    else
      let storeOp_ := if isStencil then stencilStoreOp (_info att)
                      else storeOp (_info att) in
      Ok (mvkMTLStoreActionFromVkAttachmentStoreOp
            storeOp_ hasResolveAttachment canResolveFormat).

Definition shouldClearAttachment (att : MVKRenderPassAttachment)
           (subpass : MVKRenderSubpass) (isStencil : bool) : Res bool :=
  let loadOp_ := if isStencil then stencilLoadOp (_info att)
                 else loadOp (_info att) in
  if isMultiview subpass then
    m <- at_ (_firstUseViewMasks att) (_subpassIndex subpass) ;;
    if m =? 0 then Ok false
    else Ok (VkAttachmentLoadOp_eqb loadOp_ VK_ATTACHMENT_LOAD_OP_CLEAR)
  else
    if negb (_subpassIndex subpass =? _firstUseSubpassIdx att) then Ok false
    else Ok (VkAttachmentLoadOp_eqb loadOp_ VK_ATTACHMENT_LOAD_OP_CLEAR).

(** The descriptor's texture, level and slice come from the image view and
    are left out; the result pairs the load and store action written to the
    descriptor with the value returned. *)
Definition populateMTLRenderPassAttachmentDescriptor
           (rp : MVKRenderPass) (att : MVKRenderPassAttachment)
           (subpass : MVKRenderSubpass) (attachment_ : MVKImageView)
           (isRenderingEntireAttachment hasResolveAttachment canResolveFormat
            isStencil loadOverride : bool)
  : Res (MTLRenderPassAttachmentDescriptor * bool) :=
  let isMemorylessAttachment :=
    MVK_APPLE_SILICON && storageModeMemoryless attachment_ in
  mtlLA <- (if loadOverride || negb isRenderingEntireAttachment
            then Ok MTLLoadActionLoad
            else first <- isFirstUseOfAttachment att subpass ;;
                 if negb first then Ok MTLLoadActionLoad
                 else
                   let loadOp_ := if isStencil then stencilLoadOp (_info att)
                                  else loadOp (_info att) in
                   Ok (mvkMTLLoadActionFromVkAttachmentLoadOp loadOp_)) ;;
  let mtlLA :=
    if isMemorylessAttachment && MTLLoadAction_eqb mtlLA MTLLoadActionLoad
    then MTLLoadActionDontCare else mtlLA in
  mtlSA <- (if deferredStoreActions (_device rp) then Ok MTLStoreActionUnknown
            else if isStencilFormat attachment_ && negb isStencil
                    && negb (isDepthFormat attachment_)
            then Ok MTLStoreActionDontCare
            else getMTLStoreAction rp att subpass isRenderingEntireAttachment
                   isMemorylessAttachment hasResolveAttachment
                   canResolveFormat isStencil false) ;;
  Ok ({| loadAction := mtlLA; storeAction := mtlSA |},
      MTLLoadAction_eqb mtlLA MTLLoadActionClear).

(** One turn of the loop of [validateFormat] over the subpasses of the render
    pass: the attachment as updated so far and the configuration result. *)
Definition validateSubpass (st : MVKRenderPassAttachment * Z)
           (subPass : MVKRenderSubpass) : MVKRenderPassAttachment * Z :=
  let '(att, result) := st in
  let reqCaps :=
    getRequiredFormatCapabilitiesForAttachmentAt subPass (_attachmentIndex att) in
  if anyCaps reqCaps then
    let spIdx := _subpassIndex subPass in
    let '(firstMasks, lastMasks) :=
      if isMultiview subPass then
        let viewMask_ := _viewMask subPass in
        let lastMasks :=
          map (fun mask => Z.land mask (not32 viewMask_)) (_lastUseViewMasks att)
          ++ [viewMask_] in
        let viewMask' :=
          fold_left (fun vm mask => Z.land vm (not32 mask))
                    (_firstUseViewMasks att) viewMask_ in
        (_firstUseViewMasks att ++ [viewMask'], lastMasks)
      else (_firstUseViewMasks att, _lastUseViewMasks att) in
    let availCaps := getCapabilities (getMTLPixelFormat (format (_info att))) in
    let availCaps :=
      {| capsRead := capsRead availCaps; capsColorAtt := capsColorAtt availCaps;
         capsResolve := true; capsDSAtt := capsDSAtt availCaps |} in
    ({| _info := _info att;
        _attachmentIndex := _attachmentIndex att;
        _firstUseSubpassIdx := Z.min spIdx (_firstUseSubpassIdx att);
        _lastUseSubpassIdx := Z.max spIdx (_lastUseSubpassIdx att);
        _firstUseViewMasks := firstMasks;
        _lastUseViewMasks := lastMasks |},
     if mvkAreAllFlagsEnabled availCaps reqCaps then result
     else VK_ERROR_FORMAT_NOT_SUPPORTED)
  else (att, result).

(** [validateFormat] on an attachment of a render pass whose subpasses are
    [subpasses] and whose configuration result so far is [result].  The two
    [reserve] calls change no element and are left out. *)
Definition validateFormat (subpasses : list MVKRenderSubpass)
           (att : MVKRenderPassAttachment) (result : Z)
  : MVKRenderPassAttachment * Z :=
  let result :=
    if isSupportedOrSubstitutable (format (_info att)) then result
    else VK_ERROR_FORMAT_NOT_SUPPORTED in
  let att :=
    {| _info := _info att;
       _attachmentIndex := _attachmentIndex att;
       _firstUseSubpassIdx := kMVKUndefinedLargeUInt32;
       _lastUseSubpassIdx := 0;
       _firstUseViewMasks := _firstUseViewMasks att;
       _lastUseViewMasks := _lastUseViewMasks att |} in
  fold_left validateSubpass subpasses (att, result).

(** The constructor from [VkAttachmentDescription2]; [index] is
    [_renderPass->_attachments.size()] at the time of the call. *)
Definition MVKRenderPassAttachment_new (subpasses : list MVKRenderSubpass)
           (index : Z) (pCreateInfo : VkAttachmentDescription2) (result : Z)
  : MVKRenderPassAttachment * Z :=
  validateFormat subpasses
    {| _info := pCreateInfo;
       _attachmentIndex := index;
       _firstUseSubpassIdx := 0;
       _lastUseSubpassIdx := 0;
       _firstUseViewMasks := [];
       _lastUseViewMasks := [] |}
    result.

(** *** MVKRenderPass *)

Definition MVKRenderPass_isMultiview (rp : MVKRenderPass) : Res bool :=
  sp <- at_ (_subpasses rp) 0 ;; Ok (isMultiview sp).

Definition addSubpass (subpasses : list MVKRenderSubpass)
           (pCreateInfo : VkSubpassDescription2) : list MVKRenderSubpass :=
  subpasses
  ++ [MVKRenderSubpass_new (u32 (Z.of_nat (length subpasses))) pCreateInfo].

Definition addAttachment (subpasses : list MVKRenderSubpass)
           (st : list MVKRenderPassAttachment * Z)
           (pCreateInfo : VkAttachmentDescription2)
  : list MVKRenderPassAttachment * Z :=
  let '(attachments, result) := st in
  let '(att, result') :=
    MVKRenderPassAttachment_new subpasses
      (u32 (Z.of_nat (length attachments))) pCreateInfo result in
  (attachments ++ [att], result').

(** The constructor from [VkRenderPassCreateInfo2]: subpasses first, then the
    attachments, each validated against the finished list of subpasses. *)
Definition MVKRenderPass_new (device : MVKDevice)
           (pCreateInfo : VkRenderPassCreateInfo2) : MVKRenderPass :=
  let subpasses := fold_left addSubpass (pSubpasses pCreateInfo) [] in
  let '(attachments, result) :=
    fold_left (addAttachment subpasses) (pAttachments pCreateInfo)
              ([], VK_SUCCESS) in
  {| _device := device;
     _subpasses := subpasses;
     _attachments := attachments;
     _configurationResult := result |}.

End RenderPass.

(** ** The groups of all Metal passes of a subpass *)

(** [f p], [f (p + 1)], ... for [n] pass indices. *)
Fixpoint forEachPass {A : Type} (f : Z -> Res A) (n : nat) (p : Z) : Res (list A) :=
  match n with
  | O => Ok []
  | S n' => a <- f p ;; l <- forEachPass f n' (p + 1) ;; Ok (a :: l)
  end.

(** [getViewMaskGroupForMetalPass(p)] for every
    [p < getMultiviewMetalPassCount()]. *)
Definition viewMaskGroups (NDEBUG : bool) (rp : MVKRenderPass)
           (sp : MVKRenderSubpass) : Res (list Z) :=
  n <- getMultiviewMetalPassCount rp sp ;;
  forEachPass (getViewMaskGroupForMetalPass NDEBUG rp sp) (Z.to_nat n) 0.

Fixpoint pairwiseDisjoint (l : list Z) : bool :=
  match l with
  | [] => true
  | g :: l' => forallb (fun h => Z.land g h =? 0) l' && pairwiseDisjoint l'
  end.

Definition unionOf (l : list Z) : Z := fold_right Z.lor 0 l.

(** A value of [uint32_t]. *)
Definition word32 (x : Z) : Prop := 0 <= x < modulus.

(** The shift counts for which [1 << e] is defined. *)
Definition shiftable (e : Z) : bool := (0 <=? e) && (e <? 32).

(** The subpasses of a render pass that reference attachment [rpAttIdx]. *)
Definition references (rpAttIdx : Z) (sp : MVKRenderSubpass) : bool :=
  anyCaps (getRequiredFormatCapabilitiesForAttachmentAt sp rpAttIdx).

(** The clumps of a view mask in the order [getNextViewMaskGroup] finds them:
    what the loops over the Metal passes of a subpass walk through when
    instancing is available. *)
Fixpoint clumpsOf (fuel : nat) (mask : Z) : list ViewMaskGroup :=
  match fuel with
  | O => []
  | S fuel' =>
      if mask =? 0 then []
      else match getNextViewMaskGroup mask with
           | Ok g => g :: clumpsOf fuel' (restMask g)
           | Fail _ => []
           end
  end.

(** The views of a list of clumps. *)
Definition totalViews (l : list ViewMaskGroup) : Z :=
  fold_right (fun g n => viewCount g + n) 0 l.

(** The multiview subpasses of a render pass that reference attachment
    [rpAttIdx], in the order of the render pass: the subpasses for which
    [validateFormat] pushes a first-use and a last-use view mask. *)
Definition multiviewUsers (rpAttIdx : Z) (subpasses : list MVKRenderSubpass)
  : list MVKRenderSubpass :=
  filter (fun sp => references rpAttIdx sp && isMultiview sp) subpasses.

(** Of the view masks [masks] of successive users of an attachment: the views
    of user [k] that no earlier user has, and the views of user [k] that no
    later user has. *)
Definition introducedAt (masks : list Z) (k : nat) : Z :=
  Z.land (nth k masks 0) (not32 (unionOf (firstn k masks))).

Definition retiredAt (masks : list Z) (k : nat) : Z :=
  Z.land (nth k masks 0) (not32 (unionOf (skipn (S k) masks))).

(** ** Concrete render passes *)

Module Examples.

(** Modelled from the spec: [mvkMTLLoadActionFromVkAttachmentLoadOp] is
    defined in mvk_datatypes.mm; the declared load-op (Load, Clear or
    DontCare) is honoured. *)
Definition loadActionFromLoadOp (op : VkAttachmentLoadOp) : MTLLoadAction :=
  match op with
  | VK_ATTACHMENT_LOAD_OP_LOAD => MTLLoadActionLoad
  | VK_ATTACHMENT_LOAD_OP_CLEAR => MTLLoadActionClear
  | VK_ATTACHMENT_LOAD_OP_DONT_CARE => MTLLoadActionDontCare
  end.

(** Modelled from the spec: [mvkMTLStoreActionFromVkAttachmentStoreOp] is
    defined in mvk_datatypes.mm; the declared store-op (Store or DontCare),
    composed with resolve if a resolve target is present and capable. *)
Definition storeActionFromStoreOp (op : VkAttachmentStoreOp)
           (hasResolveAttachment canResolveFormat : bool) : MTLStoreAction :=
  match op with
  | VK_ATTACHMENT_STORE_OP_STORE =>
      if hasResolveAttachment && canResolveFormat
      then MTLStoreActionStoreAndMultisampleResolve else MTLStoreActionStore
  | VK_ATTACHMENT_STORE_OP_DONT_CARE =>
      if hasResolveAttachment && canResolveFormat
      then MTLStoreActionMultisampleResolve else MTLStoreActionDontCare
  end.

Definition allCaps : MVKMTLFmtCaps :=
  {| capsRead := true; capsColorAtt := true;
     capsResolve := true; capsDSAtt := true |}.

(** A render pass built on a pixel-format service that supports every
    format with every capability. *)
Definition newRenderPass : MVKDevice -> VkRenderPassCreateInfo2 -> MVKRenderPass :=
  MVKRenderPass_new 4294967295 (fun _ => true) (fun f => f) (fun _ => allCaps).

Definition unrolledDevice : MVKDevice :=
  {| canUseInstancingForMultiview := false;
     combinedStoreResolveAction := true;
     deferredStoreActions := false |}.

Definition instancingDevice : MVKDevice :=
  {| canUseInstancingForMultiview := true;
     combinedStoreResolveAction := true;
     deferredStoreActions := false |}.

Definition colorRef (i : Z) : VkAttachmentReference2 :=
  {| attachment := i; layout := 2; aspectMask := 1 |}.

Definition subpassInfo (mask : Z) (colors : list VkAttachmentReference2)
  : VkSubpassDescription2 :=
  {| viewMask := mask;
     pInputAttachments := [];
     pColorAttachments := colors;
     pResolveAttachments := None;
     pDepthStencilAttachment := None;
     pDepthStencilResolveAttachment := None;
     pPreserveAttachments := [] |}.

(** A colour attachment declared with load-op Clear and store-op DontCare. *)
Definition clearedAttachment : VkAttachmentDescription2 :=
  {| format := 37; samples := 1;
     loadOp := VK_ATTACHMENT_LOAD_OP_CLEAR;
     storeOp := VK_ATTACHMENT_STORE_OP_DONT_CARE;
     stencilLoadOp := VK_ATTACHMENT_LOAD_OP_DONT_CARE;
     stencilStoreOp := VK_ATTACHMENT_STORE_OP_DONT_CARE;
     initialLayout := 0; finalLayout := 2 |}.

Definition renderPassOf (device : MVKDevice)
           (subpasses : list VkSubpassDescription2) : MVKRenderPass :=
  newRenderPass device
    {| pAttachments := [clearedAttachment]; pSubpasses := subpasses |}.

Definition subpassAt (rp : MVKRenderPass) (i : nat) : MVKRenderSubpass :=
  nth i (_subpasses rp) (MVKRenderSubpass_new 0 (subpassInfo 0 [])).

Definition attachmentAt (rp : MVKRenderPass) (i : nat) : MVKRenderPassAttachment :=
  nth i (_attachments rp)
      {| _info := clearedAttachment; _attachmentIndex := 0;
         _firstUseSubpassIdx := 0; _lastUseSubpassIdx := 0;
         _firstUseViewMasks := []; _lastUseViewMasks := [] |}.

(** One subpass with view mask [0b1011] rendering to attachment 0. *)
Definition views1011 (device : MVKDevice) : MVKRenderPass :=
  renderPassOf device [subpassInfo 11 [colorRef 0]].

(** Two subpasses rendering to attachment 0, not multiview. *)
Definition twoSubpasses : MVKRenderPass :=
  renderPassOf instancingDevice
    [subpassInfo 0 [colorRef 0]; subpassInfo 0 [colorRef 0]].

(** Two multiview subpasses rendering to attachment 0: the first with view 0,
    the second with views 0 and 1. *)
Definition growingViews : MVKRenderPass :=
  renderPassOf instancingDevice
    [subpassInfo 1 [colorRef 0]; subpassInfo 3 [colorRef 0]].

(** Two multiview subpasses with view 0; only the second renders to
    attachment 0. *)
Definition lateAttachment : MVKRenderPass :=
  renderPassOf instancingDevice
    [subpassInfo 1 []; subpassInfo 1 [colorRef 0]].

Definition privateTexture : MVKImageView :=
  {| storageModeMemoryless := false;
     isDepthFormat := false; isStencilFormat := false |}.

Definition memorylessTexture : MVKImageView :=
  {| storageModeMemoryless := true;
     isDepthFormat := false; isStencilFormat := false |}.

End Examples.

(** ** Further queries over the passes of a subpass *)

(** [getViewCountInMetalPass(q)] for the passes [q = 0 .. passIdx]. *)
Definition viewCountsUpTo (NDEBUG : bool) (rp : MVKRenderPass)
           (sp : MVKRenderSubpass) (passIdx : Z) : Res (list Z) :=
  forEachPass (getViewCountInMetalPass NDEBUG rp sp) (S (Z.to_nat passIdx)) 0.

Definition sumOf (l : list Z) : Z := fold_right Z.add 0 l.

(** View [i] lies in the run of [count] views that starts at [first]. *)
Definition inRun (first count i : Z) : bool := (first <=? i) && (i <? first + count).

(** ** Lookups in a render pass *)

(** [MVKRenderPass::getSubpass]: the address of [_subpasses[subpassIndex]],
    read here as the subpass found there. *)
Definition getSubpass (rp : MVKRenderPass) (subpassIndex : Z) : Res MVKRenderSubpass :=
  at_ (_subpasses rp) subpassIndex.

(** ** What validation asks of a format *)

(** What subpass [s] needs of the format of attachment [att] is there, the
    resolve capability left aside: [validateFormat] adds that one to the
    available capabilities before it compares. *)
Definition capabilitiesSuffice (getMTLPixelFormat : Z -> Z)
           (getCapabilities : Z -> MVKMTLFmtCaps)
           (att : MVKRenderPassAttachment) (s : MVKRenderSubpass) : Prop :=
  let req := getRequiredFormatCapabilitiesForAttachmentAt s (_attachmentIndex att) in
  let avail := getCapabilities (getMTLPixelFormat (format (_info att))) in
  (capsRead req = true -> capsRead avail = true)
  /\ (capsColorAtt req = true -> capsColorAtt avail = true)
  /\ (capsDSAtt req = true -> capsDSAtt avail = true).

(** ** Further concrete inputs *)

Module MoreExamples.
Import Examples.

(** An attachment as its constructor hands it to [validateFormat]. *)
Definition freshAttachment (index : Z) : MVKRenderPassAttachment :=
  {| _info := clearedAttachment; _attachmentIndex := index;
     _firstUseSubpassIdx := 0; _lastUseSubpassIdx := 0;
     _firstUseViewMasks := []; _lastUseViewMasks := [] |}.

(** [validateFormat] on the pixel-format service of [newRenderPass]. *)
Definition validated (subpasses : list MVKRenderSubpass)
           (att : MVKRenderPassAttachment) : MVKRenderPassAttachment :=
  fst (validateFormat 4294967295 (fun _ => true) (fun f => f) (fun _ => allCaps)
         subpasses att VK_SUCCESS).

Definition twoSubpassesInfo : VkRenderPassCreateInfo2 :=
  {| pAttachments := [clearedAttachment];
     pSubpasses := [subpassInfo 0 [colorRef 0]; subpassInfo 0 [colorRef 0]] |}.

End MoreExamples.

(** ** Explicit clears *)

(** [VkImageAspectFlagBits] of the Vulkan headers. *)
Definition VK_IMAGE_ASPECT_COLOR_BIT : Z := 1.
Definition VK_IMAGE_ASPECT_DEPTH_BIT : Z := 2.
Definition VK_IMAGE_ASPECT_STENCIL_BIT : Z := 4.

Record VkRect2D : Type := {
  offsetX : Z;
  offsetY : Z;
  extentWidth : Z;
  extentHeight : Z
}.

Record VkClearRect : Type := {
  rect : VkRect2D;
  baseArrayLayer : Z;
  layerCount : Z
}.

(** What [populateMultiviewClearRects] reads of the command encoder: the
    subpass being encoded, the index of the Metal pass within it, and the
    render area that [clipToRenderArea] returns for the largest rectangle. *)
Record MVKCommandEncoder : Type := {
  encoderSubpass : MVKRenderSubpass;
  multiviewPassIndex : Z;
  clippedRenderArea : VkRect2D
}.

(** The [do { ... } while (clearMask)] loop of
    [MVKRenderPassAttachment::populateMultiviewClearRects]. *)
Fixpoint clearRectLoop (fuel : nat) (renderArea : VkRect2D) (clearMask : Z)
         (clearRects : list VkClearRect) : Res (list VkClearRect) :=
  match fuel with
  | O => Fail NoFuel
  | S fuel' =>
      g <- getNextViewMaskGroup clearMask ;;
      let clearRects' :=
        clearRects ++ [{| rect := renderArea; baseArrayLayer := startView g;
                          layerCount := viewCount g |}] in
      if restMask g =? 0 then Ok clearRects'
      else clearRectLoop fuel' renderArea (restMask g) clearRects'
  end.

(** [MVKRenderPassAttachment::populateMultiviewClearRects]; the result is the
    vector [clearRects] after the call. *)
Definition populateMultiviewClearRects (NDEBUG : bool) (rp : MVKRenderPass)
           (att : MVKRenderPassAttachment) (clearRects : list VkClearRect)
           (cmdEncoder : MVKCommandEncoder) : Res (list VkClearRect) :=
  let subpass := encoderSubpass cmdEncoder in
  group <- getViewMaskGroupForMetalPass NDEBUG rp subpass
             (multiviewPassIndex cmdEncoder) ;;
  firstUse <- at_ (_firstUseViewMasks att) (_subpassIndex subpass) ;;
  let clearMask := Z.land group firstUse in
  if clearMask =? 0 then Ok clearRects
  else clearRectLoop 33 (clippedRenderArea cmdEncoder) clearMask clearRects.

(** View [i] lies in the layers a clear rectangle covers. *)
Definition coversView (r : VkClearRect) (i : Z) : bool :=
  inRun (baseArrayLayer r) (layerCount r) i.

Section ClearAttachments.

(** [VkClearValue] is passed through. *)
Variable VkClearValue : Type.

(** The pixel-format service. *)
Variable getMTLPixelFormat : Z -> Z.
Variable pixFmts_isDepthFormat : Z -> bool.
Variable pixFmts_isStencilFormat : Z -> bool.

Record VkClearAttachment : Type := {
  clearAspectMask : Z;
  colorAttachment : Z;
  clearValue : VkClearValue
}.

(** The loop of [populateClearAttachments] over the colour attachments, from
    slot [caIdx] on; [colors] are the slots still to visit. *)
Fixpoint clearColorAttachments (rp : MVKRenderPass) (sp : MVKRenderSubpass)
         (clearValues : list VkClearValue)
         (colors : list VkAttachmentReference2) (caIdx : Z)
         (clearAtts : list VkClearAttachment) : Res (list VkClearAttachment) :=
  match colors with
  | [] => Ok clearAtts
  | ca :: colors' =>
      let attIdx := attachment ca in
      clearAtts' <-
        (if negb (attIdx =? VK_ATTACHMENT_UNUSED) then
           att <- at_ (_attachments rp) attIdx ;;
           should <- shouldClearAttachment att sp false ;;
           if should then
             v <- at_ clearValues attIdx ;;
             Ok (clearAtts
                 ++ [{| clearAspectMask := VK_IMAGE_ASPECT_COLOR_BIT;
                        colorAttachment := caIdx; clearValue := v |}])
           else Ok clearAtts
         else Ok clearAtts) ;;
      clearColorAttachments rp sp clearValues colors' (caIdx + 1) clearAtts'
  end.

(** [MVKRenderSubpass::populateClearAttachments]; the result is the vector
    [clearAtts] after the call.  [mvkEnableFlags] ors the flag in. *)
Definition populateClearAttachments (rp : MVKRenderPass) (sp : MVKRenderSubpass)
           (clearAtts : list VkClearAttachment) (clearValues : list VkClearValue)
  : Res (list VkClearAttachment) :=
  clearAtts <- clearColorAttachments rp sp clearValues (_colorAttachments sp) 0
                 clearAtts ;;
  let attIdx := attachment (_depthStencilAttachment sp) in
  if negb (attIdx =? VK_ATTACHMENT_UNUSED) then
    dsFormat <- getDepthStencilFormat rp sp ;;
    let mtlDSFmt := getMTLPixelFormat dsFormat in
    rpAtt <- at_ (_attachments rp) attIdx ;;
    depth <- shouldClearAttachment rpAtt sp false ;;
    let aspectMask :=
      if depth && pixFmts_isDepthFormat mtlDSFmt
      then Z.lor 0 VK_IMAGE_ASPECT_DEPTH_BIT else 0 in
    stencil <- shouldClearAttachment rpAtt sp true ;;
    let aspectMask :=
      if stencil && pixFmts_isStencilFormat mtlDSFmt
      then Z.lor aspectMask VK_IMAGE_ASPECT_STENCIL_BIT else aspectMask in
    if negb (aspectMask =? 0) then
      v <- at_ clearValues attIdx ;;
      Ok (clearAtts ++ [{| clearAspectMask := aspectMask; colorAttachment := 0;
                           clearValue := v |}])
    else Ok clearAtts
  else Ok clearAtts.

(** What stands behind a clear request [e] for one of the colour slots
    [colors], the first of which has index [caIdx]. *)
Definition colourRequest (rp : MVKRenderPass) (sp : MVKRenderSubpass)
           (clearValues : list VkClearValue)
           (colors : list VkAttachmentReference2) (caIdx : Z)
           (e : VkClearAttachment) : Prop :=
  clearAspectMask e = VK_IMAGE_ASPECT_COLOR_BIT
  /\ exists (k : nat) ca att,
       colorAttachment e = caIdx + Z.of_nat k
       /\ nth_error colors k = Some ca
       /\ attachment ca <> VK_ATTACHMENT_UNUSED
       /\ at_ (_attachments rp) (attachment ca) = Ok att
       /\ at_ clearValues (attachment ca) = Ok (clearValue e)
       /\ shouldClearAttachment att sp false = Ok true
       /\ loadOp (_info att) = VK_ATTACHMENT_LOAD_OP_CLEAR.

End ClearAttachments.

Arguments clearAspectMask {VkClearValue} _.
Arguments colorAttachment {VkClearValue} _.
Arguments clearValue {VkClearValue} _.

(** ** Deferred store actions *)





(** * SPIRVReflection.h *)

Module SPIRVReflection.
Import UInt32.
Local Open Scope string_scope.
Local Open Scope Z_scope.

(** The values of [spv::ExecutionMode] that [getTessReflectionData] asks for,
    and [ExecutionModeMax], the initial value of the reflected modes. *)
Inductive ExecutionMode : Type :=
| ExecutionModeSpacingEqual
| ExecutionModeSpacingFractionalEven
| ExecutionModeSpacingFractionalOdd
| ExecutionModeVertexOrderCw
| ExecutionModeVertexOrderCcw
| ExecutionModePointMode
| ExecutionModeTriangles
| ExecutionModeQuads
| ExecutionModeIsolines
| ExecutionModeOutputVertices
| ExecutionModeMax.

(** A compiled [CompilerReflection], as far as it is read: the execution-mode
    bitset through its [get], and the arguments of the modes. *)
Record CompilerReflection : Type := {
  get_execution_mode_bitset : ExecutionMode -> bool;
  get_execution_mode_argument : ExecutionMode -> Z
}.

Record SPIRVTessReflectionData : Type := {
  partitionMode : ExecutionMode;
  windingOrder : ExecutionMode;
  pointMode : bool;
  patchKind : ExecutionMode;
  numControlPoints : Z
}.

(** A default-constructed [SPIRVTessReflectionData]. *)
Definition SPIRVTessReflectionData_new : SPIRVTessReflectionData :=
  {| partitionMode := ExecutionModeMax; windingOrder := ExecutionModeMax;
     pointMode := false; patchKind := ExecutionModeMax; numControlPoints := 0 |}.

Definition noPatchInputMode : String.string :=
  String.append
    "Neither tessellation shader specifies a patch input mode "
    "(Triangles, Quads, or Isolines).".

Definition noWindingOrder : String.string :=
  String.append
    "Neither tessellation shader specifies a winding order mode "
    "(VertexOrderCw or VertexOrderCcw).".

Definition noPartitionMode : String.string :=
  String.append
    "Neither tessellation shader specifies a partition mode "
    "(SpacingEqual, SpacingFractionalOdd, or SpacingFractionalEven).".

Definition noOutputVertices : String.string :=
  String.append
    "Neither tessellation shader specifies "
    "the number of output control points.".

(** The patch kind lines 125 to 137 settle on, if any. *)
Definition reflectedPatchKind (tescModes teseModes : ExecutionMode -> bool)
  : option ExecutionMode :=
  if tescModes ExecutionModeTriangles then Some ExecutionModeTriangles
  else if tescModes ExecutionModeQuads then Some ExecutionModeQuads
  else if tescModes ExecutionModeIsolines then Some ExecutionModeIsolines
  else if teseModes ExecutionModeTriangles then Some ExecutionModeTriangles
  else if teseModes ExecutionModeQuads then Some ExecutionModeQuads
  else if teseModes ExecutionModeIsolines then Some ExecutionModeIsolines
  else None.

(** The winding order lines 142 to 150 settle on, if any. *)
Definition reflectedWindingOrder (tescModes teseModes : ExecutionMode -> bool)
  : option ExecutionMode :=
  if tescModes ExecutionModeVertexOrderCw then Some ExecutionModeVertexOrderCw
  else if tescModes ExecutionModeVertexOrderCcw
  then Some ExecutionModeVertexOrderCcw
  else if teseModes ExecutionModeVertexOrderCw
  then Some ExecutionModeVertexOrderCw
  else if teseModes ExecutionModeVertexOrderCcw
  then Some ExecutionModeVertexOrderCcw
  else None.

(** The partition mode lines 157 to 169 settle on, if any. *)
Definition reflectedPartitionMode (tescModes teseModes : ExecutionMode -> bool)
  : option ExecutionMode :=
  if tescModes ExecutionModeSpacingEqual then Some ExecutionModeSpacingEqual
  else if tescModes ExecutionModeSpacingFractionalEven
  then Some ExecutionModeSpacingFractionalEven
  else if tescModes ExecutionModeSpacingFractionalOdd
  then Some ExecutionModeSpacingFractionalOdd
  else if teseModes ExecutionModeSpacingEqual
  then Some ExecutionModeSpacingEqual
  else if teseModes ExecutionModeSpacingFractionalEven
  then Some ExecutionModeSpacingFractionalEven
  else if teseModes ExecutionModeSpacingFractionalOdd
  then Some ExecutionModeSpacingFractionalOdd
  else None.

(** The number of control points lines 174 to 178 settle on, if any. *)
Definition reflectedControlPoints (tescReflect teseReflect : CompilerReflection)
  : option Z :=
  if get_execution_mode_bitset tescReflect ExecutionModeOutputVertices
  then Some (get_execution_mode_argument tescReflect
               ExecutionModeOutputVertices)
  else if get_execution_mode_bitset teseReflect ExecutionModeOutputVertices
  then Some (get_execution_mode_argument teseReflect
               ExecutionModeOutputVertices)
  else None.

(** [getTessReflectionData] from the two compiled reflections on: the value
    returned, [reflectData] and [errorLog] after the call.  A [CompilerError]
    thrown while the shaders are parsed and compiled is not in this model. *)
Definition getTessReflectionData (tescReflect teseReflect : CompilerReflection)
           (reflectData : SPIRVTessReflectionData) (errorLog : String.string)
  : bool * SPIRVTessReflectionData * String.string :=
  let tescModes := get_execution_mode_bitset tescReflect in
  let teseModes := get_execution_mode_bitset teseReflect in
  match reflectedPatchKind tescModes teseModes with
  | None => (false, reflectData, noPatchInputMode)
  | Some kind =>
  let reflectData :=
    {| partitionMode := partitionMode reflectData;
       windingOrder := windingOrder reflectData;
       pointMode := pointMode reflectData;
       patchKind := kind;
       numControlPoints := numControlPoints reflectData |} in
  match reflectedWindingOrder tescModes teseModes with
  | None => (false, reflectData, noWindingOrder)
  | Some winding =>
  let reflectData :=
    {| partitionMode := partitionMode reflectData;
       windingOrder := winding;
       pointMode := tescModes ExecutionModePointMode
                    || teseModes ExecutionModePointMode;
       patchKind := patchKind reflectData;
       numControlPoints := numControlPoints reflectData |} in
  match reflectedPartitionMode tescModes teseModes with
  | None => (false, reflectData, noPartitionMode)
  | Some spacing =>
  let reflectData :=
    {| partitionMode := spacing;
       windingOrder := windingOrder reflectData;
       pointMode := pointMode reflectData;
       patchKind := patchKind reflectData;
       numControlPoints := numControlPoints reflectData |} in
  match reflectedControlPoints tescReflect teseReflect with
  | None => (false, reflectData, noOutputVertices)
  | Some points =>
      (true,
       {| partitionMode := partitionMode reflectData;
          windingOrder := windingOrder reflectData;
          pointMode := pointMode reflectData;
          patchKind := patchKind reflectData;
          numControlPoints := points |},
       errorLog)
  end end end end.

Definition patchKinds : list ExecutionMode :=
  [ExecutionModeTriangles; ExecutionModeQuads; ExecutionModeIsolines].

Definition windingOrders : list ExecutionMode :=
  [ExecutionModeVertexOrderCw; ExecutionModeVertexOrderCcw].

Definition partitionModes : list ExecutionMode :=
  [ExecutionModeSpacingEqual; ExecutionModeSpacingFractionalEven;
   ExecutionModeSpacingFractionalOdd].

(** The first of the modes [ms] that the control shader specifies or, if it
    specifies none of them, the first that the evaluation shader specifies. *)
Definition firstOf (tescReflect teseReflect : CompilerReflection)
           (ms : list ExecutionMode) : option ExecutionMode :=
  match find (get_execution_mode_bitset tescReflect) ms with
  | Some m => Some m
  | None => find (get_execution_mode_bitset teseReflect) ms
  end.

(** The values of [SPIRType::BaseType] the file names, and the 64-bit ones;
    [OtherBaseType] stands for the rest of the enumeration. *)
Inductive BaseType : Type :=
| SByte | UByte | Short | UShort | Half | Int | UInt | Float
| Int64 | UInt64 | Double | Struct | OtherBaseType.

Record SPIRVShaderOutput : Type := {
  baseType : BaseType;
  vecWidth : Z;
  location : Z;
  component : Z;
  firstStructMemberAlignment : Z;
  builtin : Z;
  perPatch : bool;
  isUsed : bool
}.

Definition getShaderOutputSize (output : SPIRVShaderOutput) : Z :=
  if negb (isUsed output) then 0
  else
    let vecWidth_ := vecWidth output in
    let vecWidth_ := if vecWidth_ =? 3 then 4 else vecWidth_ in
    match baseType output with
    | SByte | UByte => u32 (1 * vecWidth_)
    | Short | UShort | Half => u32 (2 * vecWidth_)
    | _ => u32 (4 * vecWidth_)
    end.

Definition getShaderOutputAlignment (output : SPIRVShaderOutput) : Z :=
  if negb (firstStructMemberAlignment output =? 0) && isUsed output
  then firstStructMemberAlignment output
  else getShaderOutputSize output.

(** [uint32_t(-1)], the location of an output that has none. *)
Definition noLocation : Z := 4294967295.

Definition addSat (a b : Z) : Z :=
  if a =? noLocation then a else u32 (a + b).

(** The bytes one component of the base type takes in Metal. *)
Definition componentBytes (t : BaseType) : Z :=
  match t with
  | SByte | UByte => 1
  | Short | UShort | Half => 2
  | _ => 4
  end.

Definition setLocation (out : SPIRVShaderOutput) (loc : Z) : SPIRVShaderOutput :=
  {| baseType := baseType out; vecWidth := vecWidth out; location := loc;
     component := component out;
     firstStructMemberAlignment := firstStructMemberAlignment out;
     builtin := builtin out; perPatch := perPatch out; isUsed := isUsed out |}.

(** [std::stable_sort] with the comparison [a.location < b.location].  Its
    result is fixed by its contract (ascending, equal locations in their
    given order); it is written here as an insertion from the right, where
    [a] goes in front of the first output whose location is not smaller. *)
Fixpoint insertByLocation (a : SPIRVShaderOutput) (sorted : list SPIRVShaderOutput)
  : list SPIRVShaderOutput :=
  match sorted with
  | [] => [a]
  | b :: rest =>
      if location b <? location a then b :: insertByLocation a rest
      else a :: b :: rest
  end.

Fixpoint stable_sort (outputs : list SPIRVShaderOutput) : list SPIRVShaderOutput :=
  match outputs with
  | [] => []
  | a :: rest => insertByLocation a (stable_sort rest)
  end.

(** The loop that assigns locations to the outputs that have none; [loc] is
    the location of the output before. *)
Fixpoint assignLocations (loc : Z) (outputs : list SPIRVShaderOutput)
  : list SPIRVShaderOutput :=
  match outputs with
  | [] => []
  | out :: rest =>
      let out := if location out =? noLocation
                 then setLocation out (u32 (loc + 1)) else out in
      out :: assignLocations (location out) rest
  end.

(** The end of [getShaderOutputs]: the collected outputs are sorted by
    ascending location, then those without a location get one. *)
Definition sortAndAssignLocations (outputs : list SPIRVShaderOutput)
  : list SPIRVShaderOutput :=
  assignLocations noLocation (stable_sort outputs).

Definition hasLocation (out : SPIRVShaderOutput) : bool :=
  negb (location out =? noLocation).

(** Consecutive locations from [start] on for the outputs of the list. *)
Fixpoint renumber (start : Z) (outputs : list SPIRVShaderOutput)
  : list SPIRVShaderOutput :=
  match outputs with
  | [] => []
  | out :: rest => setLocation out start :: renumber (start + 1) rest
  end.

(** The location after the last of [outputs], 0 if there is none. *)
Definition nextLocation (outputs : list SPIRVShaderOutput) : Z :=
  match outputs with
  | [] => 0
  | _ :: _ => last (map location outputs) 0 + 1
  end.


(** A control shader that declares quads, counter-clockwise winding and four
    output vertices. *)
Definition controlShader : CompilerReflection :=
  {| get_execution_mode_bitset := fun m =>
       match m with
       | ExecutionModeQuads | ExecutionModeVertexOrderCcw
       | ExecutionModeOutputVertices => true
       | _ => false
       end;
     get_execution_mode_argument := fun _ => 4 |}.

(** An evaluation shader that declares triangles, clockwise winding, equal
    spacing and point mode. *)
Definition evaluationShader : CompilerReflection :=
  {| get_execution_mode_bitset := fun m =>
       match m with
       | ExecutionModeTriangles | ExecutionModeVertexOrderCw
       | ExecutionModeSpacingEqual | ExecutionModePointMode => true
       | _ => false
       end;
     get_execution_mode_argument := fun _ => 0 |}.


(** A used [Float] output that is not a builtin ([spv::BuiltInMax]). *)
Definition floatOutput (width loc : Z) : SPIRVShaderOutput :=
  {| baseType := Float; vecWidth := width; location := loc; component := 0;
     firstStructMemberAlignment := 0; builtin := 2147483647;
     perPatch := false; isUsed := true |}.

End SPIRVReflection.

(** * Properties *)

(** ** 32-bit words and their bits *)

Module Bits.

Lemma modulus_pow2 : modulus = 2 ^ 32.
Proof. reflexivity. Qed.

Lemma u32_word32 x : word32 (u32 x).
Proof. unfold word32, u32. apply Z.mod_pos_bound. reflexivity. Qed.

Lemma u32_small x : word32 x -> u32 x = x.
Proof. intro H. unfold u32. apply Z.mod_small. exact H. Qed.

Lemma word32_high x i : word32 x -> 32 <= i -> Z.testbit x i = false.
Proof.
  intros H Hi. rewrite <- (u32_small x H). unfold u32.
  rewrite modulus_pow2. apply Z.mod_pow2_bits_high. lia.
Qed.

Lemma high_word32 x :
  0 <= x -> (forall i, 32 <= i -> Z.testbit x i = false) -> word32 x.
Proof.
  intros Hx Hhi.
  assert (E : x mod 2 ^ 32 = x).
  { apply Z.bits_inj'. intros i Hi.
    rewrite Z.testbit_mod_pow2 by lia.
    destruct (Z.ltb_spec i 32) as [Hlt | Hge]; [reflexivity |].
    simpl. symmetry. apply Hhi. exact Hge. }
  unfold word32. rewrite modulus_pow2, <- E.
  apply Z.mod_pos_bound. reflexivity.
Qed.

Lemma shl1_bits e i :
  0 <= i -> Z.testbit (shl1 e) i = shiftable e && (e =? i).
Proof.
  intro Hi. unfold shl1. fold (shiftable e).
  destruct (shiftable e) eqn:E.
  - unfold shiftable in E. rewrite Z.shiftl_1_l.
    apply Z.pow2_bits_eqb. lia.
  - apply Z.bits_0.
Qed.

Lemma not32_bits x i :
  0 <= i -> Z.testbit (not32 x) i = (i <? 32) && negb (Z.testbit x i).
Proof.
  intro Hi. unfold not32, u32. rewrite modulus_pow2.
  rewrite Z.testbit_mod_pow2 by lia. rewrite Z.lnot_spec by exact Hi.
  reflexivity.
Qed.

Lemma land_shl1 x e :
  Z.land x (shl1 e) = if shiftable e && Z.testbit x e then shl1 e else 0.
Proof.
  apply Z.bits_inj'. intros i Hi.
  rewrite Z.land_spec, shl1_bits by exact Hi.
  destruct (shiftable e) eqn:E; simpl.
  - destruct (Z.eqb_spec e i) as [-> | Hne].
    + destruct (Z.testbit x i); simpl.
      * rewrite shl1_bits by exact Hi. rewrite E, Z.eqb_refl. reflexivity.
      * rewrite Z.bits_0. reflexivity.
    + rewrite andb_false_r.
      destruct (Z.testbit x e).
      * rewrite shl1_bits by exact Hi. rewrite E. simpl.
        symmetry. apply Z.eqb_neq. exact Hne.
      * rewrite Z.bits_0. reflexivity.
  - rewrite andb_false_r, Z.bits_0. reflexivity.
Qed.

Lemma shl1_pos e : shiftable e = true -> 0 < shl1 e.
Proof.
  intro E. unfold shl1. fold (shiftable e). rewrite E.
  rewrite Z.shiftl_1_l. unfold shiftable in E. apply Z.pow_pos_nonneg; lia.
Qed.

Lemma land_shl1_eqb x e :
  (Z.land x (shl1 e) =? 0) = negb (shiftable e && Z.testbit x e).
Proof.
  rewrite land_shl1.
  destruct (shiftable e) eqn:E; simpl; [| reflexivity].
  destruct (Z.testbit x e); simpl; [| reflexivity].
  apply Z.eqb_neq. pose proof (shl1_pos e E). lia.
Qed.

(** The bits of [x & ~(1 << e)]. *)
Lemma clear_bits x e i :
  0 <= i ->
  Z.testbit (Z.land x (not32 (shl1 e))) i
  = Z.testbit x i && (i <? 32) && negb (shiftable e && (e =? i)).
Proof.
  intro Hi. rewrite Z.land_spec, not32_bits, shl1_bits by exact Hi.
  rewrite andb_assoc. reflexivity.
Qed.

Lemma clear_word32 x e : word32 x -> word32 (Z.land x (not32 (shl1 e))).
Proof.
  intro H. apply high_word32.
  - apply Z.land_nonneg. left. apply H.
  - intros i Hi. rewrite clear_bits by lia.
    rewrite (word32_high x i H Hi). reflexivity.
Qed.

Lemma popcount_below_clear n x e :
  (n <= 32)%nat -> shiftable e = true -> Z.testbit x e = true ->
  popcount_below n (Z.land x (not32 (shl1 e)))
  = popcount_below n x - (if e <? Z.of_nat n then 1 else 0).
Proof.
  intros Hn E Hb.
  assert (He : 0 <= e < 32) by (unfold shiftable in E; lia).
  induction n as [| k IH].
  { cbn [popcount_below]. destruct (Z.ltb_spec e (Z.of_nat 0)); lia. }
  cbn [popcount_below].
  rewrite IH by lia. rewrite clear_bits by lia. rewrite E.
  replace (Z.of_nat k <? 32) with true by (symmetry; apply Z.ltb_lt; lia).
  destruct (Z.ltb_spec e (Z.of_nat k)); destruct (Z.ltb_spec e (Z.of_nat (S k)));
    try lia.
  - replace (e =? Z.of_nat k) with false by (symmetry; apply Z.eqb_neq; lia).
    cbn [andb negb]. rewrite !andb_true_r. lia.
  - replace (e =? Z.of_nat k) with true by (symmetry; apply Z.eqb_eq; lia).
    replace (Z.of_nat k) with e by lia. rewrite Hb.
    cbn [andb negb b2z]. lia.
  - replace (e =? Z.of_nat k) with false by (symmetry; apply Z.eqb_neq; lia).
    cbn [andb negb]. rewrite !andb_true_r. lia.
Qed.

Lemma popcount_below_bounds n x : 0 <= popcount_below n x <= Z.of_nat n.
Proof.
  induction n as [| k IH]; cbn [popcount_below]; [lia |].
  destruct (Z.testbit x (Z.of_nat k)); cbn [b2z]; lia.
Qed.

Lemma popcount_below_bit n x k :
  0 <= k < Z.of_nat n -> Z.testbit x k = true -> 1 <= popcount_below n x.
Proof.
  intros Hk Hb. induction n as [| m IH]; [lia |].
  cbn [popcount_below]. pose proof (popcount_below_bounds m x).
  destruct (Z.eq_dec k (Z.of_nat m)) as [-> | Hne].
  - rewrite Hb. cbn [b2z]. lia.
  - assert (1 <= popcount_below m x) by (apply IH; lia).
    destruct (Z.testbit x (Z.of_nat m)); cbn [b2z]; lia.
Qed.

(** [ffs_from n i x] finds the lowest set bit among [i, i + n). *)
Lemma ffs_from_spec n : forall i x,
  0 <= i ->
  (ffs_from n i x = 0
   /\ forall j, i <= j < i + Z.of_nat n -> Z.testbit x j = false)
  \/ (exists k, ffs_from n i x = k + 1 /\ i <= k < i + Z.of_nat n
                /\ Z.testbit x k = true
                /\ forall j, i <= j < k -> Z.testbit x j = false).
Proof.
  induction n as [| m IH]; intros i x Hi.
  - left. split; [reflexivity | intros j Hj; lia].
  - cbn [ffs_from]. destruct (Z.testbit x i) eqn:Hb.
    + right. exists i. repeat split; try lia. exact Hb.
    + destruct (IH (i + 1) x ltac:(lia)) as [[E Hlow] | [k [E [Hk [Hbk Hlow]]]]].
      * left. split; [exact E |]. intros j Hj.
        destruct (Z.eq_dec j i) as [-> | Hne]; [exact Hb | apply Hlow; lia].
      * right. exists k. repeat split; try lia; try assumption.
        intros j Hj.
        destruct (Z.eq_dec j i) as [-> | Hne]; [exact Hb | apply Hlow; lia].
Qed.

Lemma ffs_nonzero x :
  word32 x -> x <> 0 ->
  exists k, ffs x = k + 1 /\ 0 <= k < 32 /\ Z.testbit x k = true
            /\ forall j, 0 <= j < k -> Z.testbit x j = false.
Proof.
  intros Hx Hne. unfold ffs.
  destruct (ffs_from_spec 32 0 x ltac:(lia)) as [[_ Hlow] | [k [E [Hk [Hb Hlow]]]]].
  - exfalso. apply Hne. apply Z.bits_inj'. intros i Hi.
    rewrite Z.bits_0.
    destruct (Z.lt_ge_cases i 32) as [Hlt | Hge].
    + apply Hlow. change (Z.of_nat 32) with 32. lia.
    + apply word32_high; assumption.
  - exists k. change (Z.of_nat 32) with 32 in Hk. repeat split; try lia; assumption.
Qed.

Lemma popcount_nonzero x : word32 x -> x <> 0 -> 1 <= __builtin_popcount x.
Proof.
  intros Hx Hne.
  destruct (ffs_nonzero x Hx Hne) as [k [_ [Hk [Hb _]]]].
  apply (popcount_below_bit 32 x k); [change (Z.of_nat 32) with 32; lia | exact Hb].
Qed.

(** The loop of [getNextViewMaskGroup] leaves, having moved the bits it
    cleared from the mask to the group. *)
Lemma clumpLoop_spec fuel : forall vm e gm,
  word32 vm -> 0 <= e <= 32 -> (Z.to_nat (32 - e) < fuel)%nat ->
  exists vm' e' gm',
    clumpLoop fuel vm e gm = Ok (vm', e', gm')
    /\ word32 vm' /\ e <= e' <= 32
    /\ __builtin_popcount vm' + (e' - e) = __builtin_popcount vm
    /\ Z.lor vm' gm' = Z.lor vm gm
    /\ (Z.land vm gm = 0 -> Z.land vm' gm' = 0)
    /\ (word32 gm -> word32 gm')
    /\ (Z.testbit vm e = true -> e < 32 -> e < e').
Proof.
  induction fuel as [| f IH]; intros vm e gm Hvm He Hf; [lia |].
  cbn [clumpLoop]. rewrite land_shl1_eqb.
  destruct (shiftable e && Z.testbit vm e) eqn:Hc; cbn [negb].
  - apply andb_true_iff in Hc. destruct Hc as [Hs Hb].
    assert (He32 : 0 <= e < 32) by (unfold shiftable in Hs; lia).
    destruct (IH (Z.land vm (not32 (shl1 e))) (e + 1)
                 (Z.lor gm (Z.land vm (shl1 e))))
      as [vm' [e' [gm' [E [Hw [Hr [Hp [Hor [Hand [Hg _]]]]]]]]]].
    + apply clear_word32. exact Hvm.
    + lia.
    + lia.
    + exists vm', e', gm'. split; [exact E |]. split; [exact Hw |].
      split; [lia |]. split.
      { unfold __builtin_popcount in *.
        rewrite popcount_below_clear in Hp by (try assumption; lia).
        change (Z.of_nat 32) with 32 in Hp.
        replace (e <? 32) with true in Hp by (symmetry; apply Z.ltb_lt; lia).
        lia. }
      split.
      { rewrite Hor. apply Z.bits_inj'. intros i Hi.
        rewrite !Z.lor_spec, clear_bits, Z.land_spec, shl1_bits by exact Hi.
        rewrite Hs.
        destruct (Z.ltb_spec i 32) as [Hlt | Hge].
        - destruct (Z.testbit vm i), (Z.testbit gm i), (e =? i); reflexivity.
        - rewrite (word32_high vm i Hvm Hge).
          destruct (Z.testbit gm i); reflexivity. }
      split.
      { intro Hdis. apply Hand. apply Z.bits_inj'. intros i Hi.
        assert (Hdi : Z.testbit vm i && Z.testbit gm i = false).
        { rewrite <- Z.land_spec, Hdis. apply Z.bits_0. }
        rewrite Z.land_spec, Z.lor_spec, clear_bits, Z.land_spec, shl1_bits,
          Z.bits_0 by exact Hi.
        rewrite Hs.
        destruct (Z.testbit vm i), (Z.testbit gm i), (e =? i), (i <? 32);
          try reflexivity; discriminate Hdi. }
      split.
      { intro Hgw. apply Hg. apply high_word32.
        - apply Z.lor_nonneg. split; [apply Hgw |].
          apply Z.land_nonneg. left. apply Hvm.
        - intros i Hi. rewrite Z.lor_spec, Z.land_spec.
          rewrite (word32_high gm i Hgw Hi), (word32_high vm i Hvm Hi).
          reflexivity. }
      intros _ _. lia.
  - exists vm, e, gm. split; [reflexivity |]. split; [exact Hvm |].
    split; [lia |]. split; [lia |]. split; [reflexivity |].
    split; [tauto |]. split; [tauto |].
    intros Hb Hlt. exfalso.
    apply andb_false_iff in Hc. destruct Hc as [Hs | Hb'].
    + unfold shiftable in Hs. lia.
    + congruence.
Qed.

Lemma getNextViewMaskGroup_spec m :
  word32 m -> m <> 0 ->
  exists g,
    getNextViewMaskGroup m = Ok g
    /\ word32 (restMask g) /\ word32 (groupMask g)
    /\ 0 <= startView g < 32
    /\ 1 <= viewCount g <= 32
    /\ __builtin_popcount (restMask g) + viewCount g = __builtin_popcount m
    /\ Z.lor (restMask g) (groupMask g) = m
    /\ Z.land (restMask g) (groupMask g) = 0.
Proof.
  intros Hm Hne. unfold getNextViewMaskGroup.
  destruct (ffs_nonzero m Hm Hne) as [k [Ek [Hk [Hb _]]]].
  rewrite Ek. replace (k + 1 - 1) with k by lia.
  destruct (clumpLoop_spec 33 m k 0 Hm ltac:(lia) ltac:(lia))
    as [vm' [e' [gm' [E [Hw [Hr [Hp [Hor [Hand [Hg Hlt]]]]]]]]]].
  rewrite E. cbn [bind]. eexists. split; [reflexivity |]. cbn.
  specialize (Hlt Hb ltac:(lia)).
  assert (Hk32 : u32 k = k) by (apply u32_small; unfold word32, modulus; lia).
  assert (Hc32 : u32 (e' - k) = e' - k)
    by (apply u32_small; unfold word32, modulus; lia).
  rewrite Hk32, Hc32.
  split; [exact Hw |]. split; [apply Hg; unfold word32, modulus; lia |].
  split; [lia |]. split; [lia |]. split; [exact Hp |].
  split.
  - rewrite Hor. apply Z.lor_0_r.
  - apply Hand. apply Z.land_0_r.
Qed.

End Bits.

Module Clumps.
Import Bits.

Lemma popcount_zero : __builtin_popcount 0 = 0.
Proof. reflexivity. Qed.

Lemma popcount_bounds x : 0 <= __builtin_popcount x <= 32.
Proof. apply (popcount_below_bounds 32 x). Qed.

Lemma clumpsOf_nonzero fuel m :
  word32 m -> m <> 0 ->
  exists g, getNextViewMaskGroup m = Ok g
            /\ clumpsOf (S fuel) m = g :: clumpsOf fuel (restMask g).
Proof.
  intros Hm Hne.
  destruct (getNextViewMaskGroup_spec m Hm Hne) as [g [E _]].
  exists g. split; [exact E |].
  cbn [clumpsOf]. rewrite E.
  destruct (Z.eqb_spec m 0); [contradiction | reflexivity].
Qed.

(** The clumps make up the mask: their view counts add up to its population
    count, and their group masks are disjoint parts of it. *)
Lemma clumpsOf_spec fuel : forall m,
  word32 m -> (Z.to_nat (__builtin_popcount m) < fuel)%nat ->
  let l := clumpsOf fuel m in
  totalViews l = __builtin_popcount m
  /\ Z.of_nat (length l) <= __builtin_popcount m
  /\ (m <> 0 -> l <> [])
  /\ unionOf (map groupMask l) = m
  /\ pairwiseDisjoint (map groupMask l) = true
  /\ Forall (fun g => 1 <= viewCount g <= 32 /\ 0 <= startView g < 32) l.
Proof.
  induction fuel as [| f IH]; intros m Hm Hf; [lia |].
  destruct (Z.eq_dec m 0) as [-> | Hne].
  - cbn. repeat split; try reflexivity; try lia; try constructor; try congruence.
  - destruct (clumpsOf_nonzero f m Hm Hne) as [g [E El]].
    destruct (getNextViewMaskGroup_spec m Hm Hne)
      as [g' [E' [Hr [Hg [Hs [Hc [Hp [Hor Hand]]]]]]]].
    assert (g' = g) by congruence. subst g'.
    cbv zeta. rewrite El.
    pose proof (popcount_bounds (restMask g)).
    destruct (IH (restMask g) Hr ltac:(lia))
      as [It [Il [_ [Iu [Id If]]]]].
    cbn [totalViews fold_right length map unionOf pairwiseDisjoint].
    fold (totalViews (clumpsOf f (restMask g))).
    fold (unionOf (map groupMask (clumpsOf f (restMask g)))).
    split; [lia |]. split; [lia |]. split; [congruence |].
    split; [rewrite Iu, Z.lor_comm; exact Hor |].
    split.
    + rewrite Id, andb_true_r. apply forallb_forall. intros h Hh.
      apply Z.eqb_eq.
      (* [h] is part of the rest of the mask, which is disjoint from the group *)
      assert (Hsub : Z.land h (restMask g) = h).
      { rewrite <- Iu. clear - Hh.
        induction (map groupMask (clumpsOf f (restMask g))) as [| a l IHl];
          [contradiction |].
        cbn [unionOf fold_right]. fold (unionOf l).
        destruct Hh as [-> | Hin].
        - apply Z.bits_inj'. intros i Hi.
          rewrite Z.land_spec, Z.lor_spec.
          destruct (Z.testbit h i); reflexivity.
        - specialize (IHl Hin).
          apply Z.bits_inj'. intros i Hi.
          assert (Hb : Z.testbit h i && Z.testbit (unionOf l) i = Z.testbit h i)
            by (rewrite <- Z.land_spec, IHl; reflexivity).
          rewrite Z.land_spec, Z.lor_spec. revert Hb.
          destruct (Z.testbit h i), (Z.testbit a i), (Z.testbit (unionOf l) i);
            intro Hb; try reflexivity; discriminate Hb. }
      rewrite <- Hsub. rewrite Z.land_assoc, (Z.land_comm (groupMask g) h).
      rewrite <- Z.land_assoc, (Z.land_comm (groupMask g)), Hand.
      apply Z.land_0_r.
    + constructor; [lia | exact If].
Qed.

(** [getMultiviewMetalPassCount] counts the clumps. *)
Lemma countClumps_clumpsOf fuel : forall m c,
  word32 m -> (Z.to_nat (__builtin_popcount m) < fuel)%nat ->
  0 <= c -> c + __builtin_popcount m < modulus ->
  countClumps fuel m c = Ok (c + Z.of_nat (length (clumpsOf fuel m))).
Proof.
  induction fuel as [| f IH]; intros m c Hm Hf Hc Hb; [lia |].
  destruct (Z.eq_dec m 0) as [-> | Hne].
  - cbn. f_equal. lia.
  - destruct (clumpsOf_nonzero f m Hm Hne) as [g [E El]].
    destruct (getNextViewMaskGroup_spec m Hm Hne)
      as [g' [E' [Hr [Hg [Hs [Hcnt [Hp _]]]]]]].
    assert (g' = g) by congruence. subst g'.
    pose proof (popcount_bounds (restMask g)).
    rewrite El. cbn [countClumps length].
    destruct (Z.eqb_spec m 0); [contradiction |].
    rewrite E. cbn [bind].
    rewrite (u32_small (c + 1)) by (unfold word32; lia).
    rewrite IH by (try assumption; lia).
    f_equal. lia.
Qed.

(** A loop over the passes [0 .. p] that keeps one out-parameter of
    [getNextViewMaskGroup] ends with that field of clump [p]. *)
Lemma iterate_clump {A : Type} (proj : ViewMaskGroup -> A) fuel :
  forall m p x d,
    word32 m -> (Z.to_nat (__builtin_popcount m) < fuel)%nat ->
    (p < length (clumpsOf fuel m))%nat ->
    iterate (S p)
      (fun '(mask, _) => g <- getNextViewMaskGroup mask ;; Ok (restMask g, proj g))
      (m, x)
    = Ok (restMask (nth p (clumpsOf fuel m) d), proj (nth p (clumpsOf fuel m) d)).
Proof.
  induction fuel as [| f IH]; intros m p x d Hm Hf Hp; [lia |].
  destruct (Z.eq_dec m 0) as [-> | Hne]; [cbn in Hp; lia |].
  destruct (clumpsOf_nonzero f m Hm Hne) as [g [E El]].
  destruct (getNextViewMaskGroup_spec m Hm Hne)
    as [g' [E' [Hr [_ [_ [Hcnt [Hpc _]]]]]]].
  assert (g' = g) by congruence. subst g'.
  pose proof (popcount_bounds (restMask g)).
  rewrite El in *. cbn [length] in Hp.
  change (iterate (S p) ?b (m, x)) with
    (s' <- (g0 <- getNextViewMaskGroup m ;; Ok (restMask g0, proj g0)) ;;
     iterate p b s').
  rewrite E. cbn [bind].
  destruct p as [| p'].
  - reflexivity.
  - cbn [nth]. apply IH; try assumption; lia.
Qed.

(** The loop of [getViewCountUpToMetalPass] over all clumps adds up their
    view counts. *)
Lemma iterate_total fuel : forall m t,
  word32 m -> (Z.to_nat (__builtin_popcount m) < fuel)%nat ->
  0 <= t -> t + __builtin_popcount m < modulus ->
  iterate (length (clumpsOf fuel m))
    (fun '(mask, totalViewCount) =>
       g <- getNextViewMaskGroup mask ;;
       Ok (restMask g, u32 (totalViewCount + viewCount g)))
    (m, t)
  = Ok (0, t + totalViews (clumpsOf fuel m)).
Proof.
  induction fuel as [| f IH]; intros m t Hm Hf Ht Hb; [lia |].
  destruct (Z.eq_dec m 0) as [-> | Hne].
  - cbn. f_equal. f_equal. lia.
  - destruct (clumpsOf_nonzero f m Hm Hne) as [g [E El]].
    destruct (getNextViewMaskGroup_spec m Hm Hne)
      as [g' [E' [Hr [_ [_ [Hcnt [Hpc _]]]]]]].
    assert (g' = g) by congruence. subst g'.
    rewrite El. cbn [length totalViews fold_right].
    fold (totalViews (clumpsOf f (restMask g))).
    change (iterate (S ?k) ?b (m, t)) with
      (s' <- (g0 <- getNextViewMaskGroup m ;;
              Ok (restMask g0, u32 (t + viewCount g0))) ;;
       iterate k b s').
    rewrite E. cbn [bind].
    pose proof (popcount_bounds (restMask g)).
    rewrite (u32_small (t + viewCount g)) by (unfold word32; lia).
    rewrite IH by (try assumption; lia).
    f_equal. f_equal. lia.
Qed.

End Clumps.

(** ** The view-mask partitioner *)

Module Partition.
Import Bits Clumps Examples.

Lemma nonzero_eqb x : x <> 0 -> (x =? 0) = false.
Proof. intro H. apply Z.eqb_neq. exact H. Qed.

Lemma passIterations_length (n : nat) :
  (1 <= n <= 32)%nat -> passIterations (Z.of_nat n - 1) = Ok n.
Proof.
  intro Hn. unfold passIterations.
  destruct (Z.eqb_spec (Z.of_nat n - 1) 4294967295) as [E | _]; [lia |].
  f_equal. lia.
Qed.

Lemma passIterations_index (p : nat) :
  (p < 32)%nat -> passIterations (Z.of_nat p) = Ok (S p).
Proof.
  intro Hp. unfold passIterations.
  destruct (Z.eqb_spec (Z.of_nat p) 4294967295) as [E | _]; [lia |].
  f_equal. f_equal. lia.
Qed.

(** With instancing the pass count is the number of clumps of the view mask. *)
Lemma instanced_pass_count rp sp :
  word32 (_viewMask sp) ->
  canUseInstancingForMultiview (_device rp) = true ->
  getMultiviewMetalPassCount rp sp
  = Ok (Z.of_nat (length (clumpsOf 33 (_viewMask sp)))).
Proof.
  intros Hw Hi. unfold getMultiviewMetalPassCount. rewrite Hi. cbn [negb].
  destruct (Z.eqb_spec (_viewMask sp) 0) as [E | Hne].
  - rewrite E. reflexivity.
  - pose proof (popcount_bounds (_viewMask sp)).
    rewrite countClumps_clumpsOf by (try assumption; unfold modulus; lia).
    reflexivity.
Qed.

Lemma clumps_length_bounds m :
  word32 m -> m <> 0 -> (1 <= length (clumpsOf 33 m) <= 32)%nat.
Proof.
  intros Hw Hne. pose proof (popcount_bounds m).
  destruct (clumpsOf_spec 33 m Hw ltac:(lia)) as [_ [Hl [Hnil _]]].
  specialize (Hnil Hne).
  destruct (clumpsOf 33 m); [congruence | cbn [length] in *; lia].
Qed.

(** C8: for every non-zero view mask, with or without instancing,
    [getViewCountUpToMetalPass] at the last pass index
    [getMultiviewMetalPassCount() - 1] is the population count of the mask. *)
Theorem view_count_up_to_last_pass :
  forall (rp : MVKRenderPass) (sp : MVKRenderSubpass),
    word32 (_viewMask sp) -> _viewMask sp <> 0 ->
    exists passCount,
      getMultiviewMetalPassCount rp sp = Ok passCount
      /\ 1 <= passCount
      /\ getViewCountUpToMetalPass rp sp (passCount - 1)
         = Ok (__builtin_popcount (_viewMask sp)).
Proof.
  intros rp sp Hw Hne.
  pose proof (popcount_bounds (_viewMask sp)) as Hb.
  pose proof (popcount_nonzero _ Hw Hne) as Hp.
  destruct (canUseInstancingForMultiview (_device rp)) eqn:Hi.
  - pose proof (clumps_length_bounds _ Hw Hne) as Hlen.
    exists (Z.of_nat (length (clumpsOf 33 (_viewMask sp)))).
    split; [apply instanced_pass_count; assumption |]. split; [lia |].
    unfold getViewCountUpToMetalPass.
    rewrite (nonzero_eqb _ Hne), Hi. cbn [negb].
    rewrite passIterations_length by exact Hlen. cbn [bind].
    rewrite iterate_total by (try assumption; unfold modulus; lia).
    cbn [bind snd].
    destruct (clumpsOf_spec 33 (_viewMask sp) Hw ltac:(lia)) as [Ht _].
    rewrite Ht. reflexivity.
  - exists (__builtin_popcount (_viewMask sp)).
    unfold getMultiviewMetalPassCount, getViewCountUpToMetalPass.
    rewrite (nonzero_eqb _ Hne), Hi. cbn [negb].
    split; [reflexivity |]. split; [exact Hp |].
    f_equal. replace (__builtin_popcount (_viewMask sp) - 1 + 1)
      with (__builtin_popcount (_viewMask sp)) by lia.
    apply u32_small. unfold word32, modulus. lia.
Qed.

Lemma view_count_up_to_last_pass_witness :
  word32 11 /\ 11 <> 0
  /\ exists passCount,
       getMultiviewMetalPassCount (views1011 instancingDevice)
         (subpassAt (views1011 instancingDevice) 0) = Ok passCount
       /\ 1 <= passCount
       /\ getViewCountUpToMetalPass (views1011 instancingDevice)
            (subpassAt (views1011 instancingDevice) 0) (passCount - 1)
          = Ok (__builtin_popcount 11).
Proof.
  split; [unfold word32, modulus; lia |]. split; [discriminate |].
  apply (view_count_up_to_last_pass (views1011 instancingDevice)
           (subpassAt (views1011 instancingDevice) 0)).
  - unfold word32, modulus. simpl. lia.
  - simpl. discriminate.
Defined.

(** C10: a subpass whose view mask is zero answers 0 to every per-pass query,
    whatever the pass index, the partition mode and the build: the test of the
    view mask comes before the assertion and before any loop. *)
Theorem non_multiview_pass_queries_zero :
  forall (NDEBUG : bool) (rp : MVKRenderPass) (sp : MVKRenderSubpass)
         (passIdx : Z),
    _viewMask sp = 0 ->
    getViewMaskGroupForMetalPass NDEBUG rp sp passIdx = Ok 0
    /\ getFirstViewIndexInMetalPass NDEBUG rp sp passIdx = Ok 0
    /\ getViewCountInMetalPass NDEBUG rp sp passIdx = Ok 0
    /\ getViewCountUpToMetalPass rp sp passIdx = Ok 0.
Proof.
  intros NDEBUG rp sp passIdx Hz.
  unfold getViewMaskGroupForMetalPass, getFirstViewIndexInMetalPass,
    getViewCountInMetalPass, getViewCountUpToMetalPass.
  rewrite Hz. cbn [Z.eqb]. repeat split.
Qed.

Lemma non_multiview_pass_queries_zero_witness :
  _viewMask (subpassAt twoSubpasses 0) = 0
  /\ getViewMaskGroupForMetalPass false twoSubpasses (subpassAt twoSubpasses 0) 7
     = Ok 0
  /\ getFirstViewIndexInMetalPass false twoSubpasses (subpassAt twoSubpasses 0) 7
     = Ok 0
  /\ getViewCountInMetalPass false twoSubpasses (subpassAt twoSubpasses 0) 7
     = Ok 0
  /\ getViewCountUpToMetalPass twoSubpasses (subpassAt twoSubpasses 0) 7 = Ok 0.
Proof.
  split; [reflexivity |].
  apply (non_multiview_pass_queries_zero false twoSubpasses
           (subpassAt twoSubpasses 0) 7).
  reflexivity.
Defined.

(** *** With instancing: one pass per clump *)

Lemma forEachPass_nth {A : Type} (f : Z -> Res A) (d : A) :
  forall (l : list A) (p : Z),
    (forall k, (k < length l)%nat -> f (p + Z.of_nat k) = Ok (nth k l d)) ->
    forEachPass f (length l) p = Ok l.
Proof.
  induction l as [| a l IH]; intros p H; [reflexivity |].
  cbn [forEachPass length].
  pose proof (H 0%nat ltac:(cbn [length]; lia)) as H0.
  cbn [nth Z.of_nat] in H0. rewrite Z.add_0_r in H0. rewrite H0. cbn [bind].
  rewrite IH; [reflexivity |].
  intros k Hk. specialize (H (S k) ltac:(cbn [length]; lia)).
  cbn [nth] in H. rewrite <- H. f_equal. lia.
Qed.

Lemma instanced_assert NDEBUG rp sp (p : nat) :
  word32 (_viewMask sp) ->
  canUseInstancingForMultiview (_device rp) = true ->
  (p < length (clumpsOf 33 (_viewMask sp)))%nat ->
  assert_ NDEBUG (passIdxInRange rp sp (Z.of_nat p)) = Ok tt.
Proof.
  intros Hw Hi Hp. unfold assert_, passIdxInRange.
  destruct NDEBUG; [reflexivity |].
  rewrite instanced_pass_count by assumption. cbn [bind].
  replace (Z.of_nat p <? Z.of_nat (length (clumpsOf 33 (_viewMask sp))))
    with true by (symmetry; apply Z.ltb_lt; lia).
  reflexivity.
Qed.

Lemma clump_index_mask sp (p : nat) :
  word32 (_viewMask sp) ->
  (p < length (clumpsOf 33 (_viewMask sp)))%nat ->
  _viewMask sp <> 0 /\ (p < 32)%nat.
Proof.
  intros Hw Hp. split.
  - intro E. rewrite E in Hp. cbn in Hp. lia.
  - assert (_viewMask sp <> 0) as Hne
      by (intro E; rewrite E in Hp; cbn in Hp; lia).
    pose proof (clumps_length_bounds _ Hw Hne). lia.
Qed.

(** With instancing, pass [p] renders clump [p] of the view mask: its first
    view, its number of views and its bits are what the three accessors
    return. *)
Lemma instanced_pass_is_clump NDEBUG rp sp (p : nat) (d : ViewMaskGroup) :
  word32 (_viewMask sp) ->
  canUseInstancingForMultiview (_device rp) = true ->
  (p < length (clumpsOf 33 (_viewMask sp)))%nat ->
  let g := nth p (clumpsOf 33 (_viewMask sp)) d in
  getFirstViewIndexInMetalPass NDEBUG rp sp (Z.of_nat p) = Ok (startView g)
  /\ getViewCountInMetalPass NDEBUG rp sp (Z.of_nat p) = Ok (viewCount g)
  /\ getViewMaskGroupForMetalPass NDEBUG rp sp (Z.of_nat p) = Ok (groupMask g).
Proof.
  intros Hw Hi Hp g.
  destruct (clump_index_mask sp p Hw Hp) as [Hne Hp32].
  pose proof (popcount_bounds (_viewMask sp)) as Hb.
  unfold getFirstViewIndexInMetalPass, getViewCountInMetalPass,
    getViewMaskGroupForMetalPass.
  rewrite (nonzero_eqb _ Hne), Hi, (instanced_assert NDEBUG rp sp p Hw Hi Hp).
  rewrite (passIterations_index p Hp32). cbn [negb bind].
  rewrite (iterate_clump startView 33 _ p 0 d Hw ltac:(lia) Hp).
  rewrite (iterate_clump viewCount 33 _ p 0 d Hw ltac:(lia) Hp).
  rewrite (iterate_clump groupMask 33 _ p 0 d Hw ltac:(lia) Hp).
  cbn [bind snd]. repeat split.
Qed.

(** With instancing, the groups of the passes of a subpass are pairwise
    disjoint and their union is the view mask. *)
Lemma instanced_view_mask_groups_partition NDEBUG rp sp :
  word32 (_viewMask sp) ->
  canUseInstancingForMultiview (_device rp) = true ->
  exists groups,
    viewMaskGroups NDEBUG rp sp = Ok groups
    /\ pairwiseDisjoint groups = true
    /\ unionOf groups = _viewMask sp.
Proof.
  intros Hw Hi. pose proof (popcount_bounds (_viewMask sp)) as Hb.
  exists (map groupMask (clumpsOf 33 (_viewMask sp))).
  destruct (clumpsOf_spec 33 (_viewMask sp) Hw ltac:(lia))
    as [_ [_ [_ [Hu [Hd _]]]]].
  split; [| split; assumption].
  unfold viewMaskGroups. rewrite instanced_pass_count by assumption.
  cbn [bind]. rewrite Nat2Z.id.
  rewrite <- (length_map groupMask) at 1.
  apply (forEachPass_nth _ 0). intros k Hk. rewrite length_map in Hk.
  cbn [Z.add].
  destruct (instanced_pass_is_clump NDEBUG rp sp k
              {| restMask := 0; startView := 0; viewCount := 0; groupMask := 0 |}
              Hw Hi Hk) as [_ [_ Hg]].
  rewrite Hg. f_equal. symmetry.
  apply (map_nth groupMask (clumpsOf 33 (_viewMask sp))
           {| restMask := 0; startView := 0; viewCount := 0; groupMask := 0 |}).
Qed.

(** *** Without instancing: the pass of a view past the first clump *)

(** C1: without instancing and with view mask [0b1011], the groups returned
    for the three passes are all [1 << 4]: they overlap, and their union is
    not the view mask (with instancing the property holds, see
    [instanced_view_mask_groups_partition]). *)
Theorem unrolled_view_mask_groups_overlap :
  forall NDEBUG : bool,
    let rp := views1011 unrolledDevice in
    let sp := subpassAt rp 0 in
    _viewMask sp = 11
    /\ viewMaskGroups NDEBUG rp sp = Ok [16; 16; 16]
    /\ pairwiseDisjoint [16; 16; 16] = false
    /\ unionOf [16; 16; 16] <> _viewMask sp.
Proof.
  intros [|]; repeat split; try reflexivity; discriminate.
Qed.

(** C2: without instancing and with view mask [0b1011] the pass count is 3
    and every pass has one view, but [getFirstViewIndexInMetalPass] answers 4
    for each of the passes 0, 1 and 2, where views 0, 1 and 3 are expected. *)
Theorem unrolled_first_view_index_0b1011 :
  forall NDEBUG : bool,
    let rp := views1011 unrolledDevice in
    let sp := subpassAt rp 0 in
    _viewMask sp = 11
    /\ getMultiviewMetalPassCount rp sp = Ok 3
    /\ map (getViewCountInMetalPass NDEBUG rp sp) [0; 1; 2] = [Ok 1; Ok 1; Ok 1]
    /\ map (getFirstViewIndexInMetalPass NDEBUG rp sp) [0; 1; 2]
       = [Ok 4; Ok 4; Ok 4].
Proof.
  intros [|]; repeat split; reflexivity.
Qed.

End Partition.

(** ** Subpass accessors *)

Module Accessors.
Import Examples.

(** C9: for a colour-attachment index past the end of the list, or one whose
    reference is [VK_ATTACHMENT_UNUSED], [getColorAttachmentFormat] returns
    [VK_FORMAT_UNDEFINED] and [isColorAttachmentUsed] and
    [isColorAttachmentAlsoInputAttachment] return false; none of them reads
    past the end of a vector on the way. *)
Theorem color_accessors_safe_default :
  forall (rp : MVKRenderPass) (sp : MVKRenderSubpass) (colorAttIdx : Z),
    (Z.of_nat (length (_colorAttachments sp)) <= colorAttIdx
     \/ exists ca, at_ (_colorAttachments sp) colorAttIdx = Ok ca
                   /\ attachment ca = VK_ATTACHMENT_UNUSED) ->
    getColorAttachmentFormat rp sp colorAttIdx = Ok VK_FORMAT_UNDEFINED
    /\ isColorAttachmentUsed sp colorAttIdx = Ok false
    /\ isColorAttachmentAlsoInputAttachment sp colorAttIdx = Ok false.
Proof.
  intros rp sp i [Hout | [ca [Hca Hun]]];
    unfold getColorAttachmentFormat, isColorAttachmentUsed,
      isColorAttachmentAlsoInputAttachment.
  - replace (i <? Z.of_nat (length (_colorAttachments sp))) with false
      by (symmetry; apply Z.ltb_ge; lia).
    replace (Z.of_nat (length (_colorAttachments sp)) <=? i) with true
      by (symmetry; apply Z.leb_le; lia).
    repeat split.
  - rewrite Hca. cbn [bind]. rewrite Hun. cbn [Z.eqb Pos.eqb negb].
    destruct (i <? Z.of_nat (length (_colorAttachments sp)));
      destruct (Z.of_nat (length (_colorAttachments sp)) <=? i);
      repeat split.
Qed.

Lemma color_accessors_safe_default_witness :
  let rp := views1011 instancingDevice in
  let sp := subpassAt rp 0 in
  Z.of_nat (length (_colorAttachments sp)) <= 5
  /\ getColorAttachmentFormat rp sp 5 = Ok VK_FORMAT_UNDEFINED
  /\ isColorAttachmentUsed sp 5 = Ok false
  /\ isColorAttachmentAlsoInputAttachment sp 5 = Ok false.
Proof.
  cbv zeta. split; [simpl; lia |].
  apply (color_accessors_safe_default (views1011 instancingDevice)
           (subpassAt (views1011 instancingDevice) 0) 5).
  left. simpl. lia.
Defined.

End Accessors.

(** ** Views introduced and retired by the users of an attachment *)

Module ViewMasks.
Import Bits.

Lemma unionOf_app a b : unionOf (a ++ b) = Z.lor (unionOf a) (unionOf b).
Proof.
  induction a as [| x a IH]; cbn [app unionOf fold_right].
  - symmetry. apply Z.lor_0_l.
  - fold (unionOf (a ++ b)). fold (unionOf a). rewrite IH. apply Z.lor_assoc.
Qed.

Lemma unionOf_snoc a v : unionOf (a ++ [v]) = Z.lor (unionOf a) v.
Proof. rewrite unionOf_app. cbn. rewrite Z.lor_0_r. reflexivity. Qed.

Lemma unionOf_bit_in l x i :
  In x l -> Z.testbit x i = true -> Z.testbit (unionOf l) i = true.
Proof.
  induction l as [| a l IH]; [contradiction |].
  intros [-> | Hin] Hb; cbn [unionOf fold_right]; fold (unionOf l);
    rewrite Z.lor_spec.
  - rewrite Hb. reflexivity.
  - rewrite (IH Hin Hb). apply orb_true_r.
Qed.

Lemma unionOf_bit_ex l i :
  Z.testbit (unionOf l) i = true -> exists x, In x l /\ Z.testbit x i = true.
Proof.
  induction l as [| a l IH]; cbn [unionOf fold_right].
  - rewrite Z.bits_0. discriminate.
  - fold (unionOf l). rewrite Z.lor_spec. intro H.
    apply orb_true_iff in H. destruct H as [Ha | Hl].
    + exists a. split; [left; reflexivity | exact Ha].
    + destruct (IH Hl) as [x [Hin Hx]]. exists x. split; [right |]; assumption.
Qed.

(** [not32] looks at the low 32 bits only. *)
Lemma not32_low a b :
  (forall i, 0 <= i < 32 -> Z.testbit a i = Z.testbit b i) -> not32 a = not32 b.
Proof.
  intro H. apply Z.bits_inj'. intros i Hi. rewrite !not32_bits by exact Hi.
  destruct (Z.ltb_spec i 32); [| reflexivity].
  rewrite H by lia. reflexivity.
Qed.

Lemma land_not32_zero v : word32 v -> Z.land v (not32 0) = v.
Proof.
  intro Hv. apply Z.bits_inj'. intros i Hi.
  rewrite Z.land_spec, not32_bits, Z.bits_0 by exact Hi.
  destruct (Z.ltb_spec i 32).
  - cbn. apply andb_true_r.
  - rewrite (word32_high v i Hv) by lia. reflexivity.
Qed.

Lemma land_not32_lor m a v :
  Z.land m (not32 (Z.lor a v)) = Z.land (Z.land m (not32 a)) (not32 v).
Proof.
  apply Z.bits_inj'. intros i Hi.
  rewrite !Z.land_spec, !not32_bits, Z.lor_spec by exact Hi.
  destruct (Z.testbit m i), (i <? 32), (Z.testbit a i), (Z.testbit v i); reflexivity.
Qed.

(** The lambda of [validateFormat] that strips a new view mask of the views
    earlier users have. *)
Lemma strip_earlier F : forall v,
  word32 v ->
  fold_left (fun vm mask => Z.land vm (not32 mask)) F v
  = Z.land v (not32 (unionOf F)).
Proof.
  induction F as [| m F IH]; intros v Hv; cbn [fold_left unionOf fold_right].
  - symmetry. apply land_not32_zero. exact Hv.
  - fold (unionOf F). rewrite IH.
    + symmetry. apply land_not32_lor.
    + apply high_word32.
      * apply Z.land_nonneg. left. apply Hv.
      * intros i Hi. rewrite Z.land_spec, (word32_high v i Hv Hi). reflexivity.
Qed.

Lemma introducedAt_snoc_old masks v k :
  (k < length masks)%nat -> introducedAt (masks ++ [v]) k = introducedAt masks k.
Proof.
  intro Hk. unfold introducedAt.
  rewrite app_nth1 by exact Hk.
  rewrite firstn_app. replace (k - length masks)%nat with 0%nat by lia.
  cbn [firstn]. rewrite app_nil_r. reflexivity.
Qed.

Lemma introducedAt_snoc_new masks v :
  introducedAt (masks ++ [v]) (length masks) = Z.land v (not32 (unionOf masks)).
Proof.
  unfold introducedAt. rewrite app_nth2 by lia.
  rewrite Nat.sub_diag. cbn [nth].
  rewrite firstn_app, Nat.sub_diag, firstn_all. cbn [firstn].
  rewrite app_nil_r. reflexivity.
Qed.

Lemma retiredAt_snoc_old masks v k :
  (k < length masks)%nat ->
  retiredAt (masks ++ [v]) k = Z.land (retiredAt masks k) (not32 v).
Proof.
  intro Hk. unfold retiredAt.
  rewrite app_nth1 by exact Hk.
  rewrite skipn_app. replace (S k - length masks)%nat with 0%nat by lia.
  cbn [skipn]. rewrite unionOf_snoc. apply land_not32_lor.
Qed.

Lemma retiredAt_snoc_new masks v :
  word32 v -> retiredAt (masks ++ [v]) (length masks) = v.
Proof.
  intro Hv. unfold retiredAt. rewrite app_nth2 by lia.
  rewrite Nat.sub_diag. cbn [nth].
  rewrite skipn_all2 by (rewrite length_app; cbn [length]; lia).
  cbn [unionOf fold_right]. apply land_not32_zero. exact Hv.
Qed.

(** The views introduced by the users so far are the views the users have. *)
Lemma unionOf_introduced masks : forall i,
  0 <= i < 32 ->
  Z.testbit (unionOf (map (introducedAt masks) (seq 0 (length masks)))) i
  = Z.testbit (unionOf masks) i.
Proof.
  induction masks as [| v masks IH] using rev_ind; intros i Hi; [reflexivity |].
  rewrite length_app. cbn [length]. rewrite Nat.add_1_r, seq_S, map_app.
  cbn [map Nat.add]. rewrite !unionOf_snoc, !Z.lor_spec.
  rewrite introducedAt_snoc_new.
  rewrite (map_ext_in _ (introducedAt masks)).
  - rewrite IH by exact Hi. rewrite Z.land_spec, not32_bits by lia.
    replace (i <? 32) with true by (symmetry; apply Z.ltb_lt; lia).
    destruct (Z.testbit (unionOf masks) i), (Z.testbit v i); reflexivity.
  - intros k Hk. apply in_seq in Hk. apply introducedAt_snoc_old. lia.
Qed.

(** A view is introduced by user [k] exactly when user [k] has it and no
    earlier user has. *)
Lemma introducedAt_earliest masks k i :
  0 <= i < 32 ->
  (Z.testbit (introducedAt masks k) i = true
   <-> Z.testbit (nth k masks 0) i = true
       /\ forall j, (j < k)%nat -> Z.testbit (nth j masks 0) i = false).
Proof.
  intro Hi. unfold introducedAt. rewrite Z.land_spec, not32_bits by lia.
  replace (i <? 32) with true by (symmetry; apply Z.ltb_lt; lia).
  cbn [andb]. rewrite andb_true_iff, negb_true_iff. split.
  - intros [Hk Hnone]. split; [exact Hk |]. intros j Hj.
    destruct (Z.testbit (nth j masks 0) i) eqn:Hb; [| reflexivity].
    destruct (Nat.lt_ge_cases j (length masks)) as [Hlt | Hge].
    + rewrite <- Hnone. symmetry.
      apply (unionOf_bit_in _ (nth j masks 0)); [| exact Hb].
      rewrite <- (firstn_skipn k masks) at 1.
      rewrite app_nth1 by (rewrite length_firstn; lia).
      apply nth_In. rewrite length_firstn. lia.
    + rewrite nth_overflow in Hb by exact Hge. rewrite Z.bits_0 in Hb.
      discriminate Hb.
  - intros [Hk Hnone]. split; [exact Hk |].
    destruct (Z.testbit (unionOf (firstn k masks)) i) eqn:Hu; [| reflexivity].
    destruct (unionOf_bit_ex _ _ Hu) as [x [Hin Hx]].
    destruct (In_nth _ _ 0 Hin) as [j [Hj Ej]].
    rewrite length_firstn in Hj.
    rewrite <- Hx, <- Ej.
    rewrite <- (firstn_skipn k masks) in Hnone.
    specialize (Hnone j ltac:(lia)).
    rewrite app_nth1 in Hnone by (rewrite length_firstn; lia).
    exact Hnone.
Qed.

(** A view is retired by user [k] exactly when user [k] has it and no later
    user has. *)
Lemma retiredAt_latest masks k i :
  0 <= i < 32 ->
  (Z.testbit (retiredAt masks k) i = true
   <-> Z.testbit (nth k masks 0) i = true
       /\ forall j, (k < j)%nat -> Z.testbit (nth j masks 0) i = false).
Proof.
  intro Hi. unfold retiredAt. rewrite Z.land_spec, not32_bits by lia.
  replace (i <? 32) with true by (symmetry; apply Z.ltb_lt; lia).
  cbn [andb]. rewrite andb_true_iff, negb_true_iff. split.
  - intros [Hk Hnone]. split; [exact Hk |]. intros j Hj.
    destruct (Z.testbit (nth j masks 0) i) eqn:Hb; [| reflexivity].
    destruct (Nat.lt_ge_cases j (length masks)) as [Hlt | Hge].
    + rewrite <- Hnone. symmetry.
      apply (unionOf_bit_in _ (nth j masks 0)); [| exact Hb].
      replace j with (S k + (j - S k))%nat by lia.
      rewrite <- nth_skipn. apply nth_In. rewrite length_skipn. lia.
    + rewrite nth_overflow in Hb by exact Hge. rewrite Z.bits_0 in Hb.
      discriminate Hb.
  - intros [Hk Hnone]. split; [exact Hk |].
    destruct (Z.testbit (unionOf (skipn (S k) masks)) i) eqn:Hu; [| reflexivity].
    destruct (unionOf_bit_ex _ _ Hu) as [x [Hin Hx]].
    destruct (In_nth _ _ 0 Hin) as [j [Hj Ej]].
    rewrite nth_skipn in Ej.
    rewrite <- Hx, <- Ej. apply Hnone. lia.
Qed.

Lemma introducedAt_high masks k i :
  32 <= i -> Z.testbit (introducedAt masks k) i = false.
Proof.
  intro Hi. unfold introducedAt. rewrite Z.land_spec, not32_bits by lia.
  replace (i <? 32) with false by (symmetry; apply Z.ltb_ge; lia).
  apply andb_false_r.
Qed.

Lemma retiredAt_high masks k i :
  32 <= i -> Z.testbit (retiredAt masks k) i = false.
Proof.
  intro Hi. unfold retiredAt. rewrite Z.land_spec, not32_bits by lia.
  replace (i <? 32) with false by (symmetry; apply Z.ltb_ge; lia).
  apply andb_false_r.
Qed.

(** No view is introduced by two users. *)
Lemma introducedAt_disjoint masks j k :
  j <> k -> Z.land (introducedAt masks j) (introducedAt masks k) = 0.
Proof.
  intro Hne. apply Z.bits_inj'. intros i Hi.
  rewrite Z.land_spec, Z.bits_0.
  destruct (Z.lt_ge_cases i 32) as [Hlt | Hge];
    [| rewrite introducedAt_high by exact Hge; reflexivity].
  destruct (Z.testbit (introducedAt masks j) i) eqn:Hj;
    destruct (Z.testbit (introducedAt masks k) i) eqn:Hk; try reflexivity.
  apply introducedAt_earliest in Hj; [| lia].
  apply introducedAt_earliest in Hk; [| lia].
  destruct Hj as [Hj Hj'], Hk as [Hk Hk'].
  destruct (Nat.lt_total j k) as [Hlt' | [E | Hgt]]; [| contradiction |].
  - rewrite (Hk' j Hlt') in Hj. discriminate Hj.
  - rewrite (Hj' k Hgt) in Hk. discriminate Hk.
Qed.

(** No view is retired by two users. *)
Lemma retiredAt_disjoint masks j k :
  j <> k -> Z.land (retiredAt masks j) (retiredAt masks k) = 0.
Proof.
  intro Hne. apply Z.bits_inj'. intros i Hi.
  rewrite Z.land_spec, Z.bits_0.
  destruct (Z.lt_ge_cases i 32) as [Hlt | Hge];
    [| rewrite retiredAt_high by exact Hge; reflexivity].
  destruct (Z.testbit (retiredAt masks j) i) eqn:Hj;
    destruct (Z.testbit (retiredAt masks k) i) eqn:Hk; try reflexivity.
  apply retiredAt_latest in Hj; [| lia].
  apply retiredAt_latest in Hk; [| lia].
  destruct Hj as [Hj Hj'], Hk as [Hk Hk'].
  destruct (Nat.lt_total j k) as [Hlt' | [E | Hgt]]; [| contradiction |].
  - rewrite (Hj' k Hlt') in Hk. discriminate Hk.
  - rewrite (Hk' j Hgt) in Hj. discriminate Hj.
Qed.

End ViewMasks.

(** ** Attachments: first and last use, load and store actions *)

Module Attachment.
Import Bits ViewMasks Examples.

Lemma VkAttachmentLoadOp_eqb_eq a b :
  VkAttachmentLoadOp_eqb a b = true <-> a = b.
Proof. destruct a, b; cbn; split; congruence. Qed.

Lemma MTLLoadAction_eqb_eq a b : MTLLoadAction_eqb a b = true <-> a = b.
Proof. destruct a, b; cbn; split; congruence. Qed.

(** *** What [validateFormat] leaves in the attachment *)

Section Validate.

Variable kMVKUndefinedLargeUInt32 : Z.
Variable isSupportedOrSubstitutable : Z -> bool.
Variable getMTLPixelFormat : Z -> Z.
Variable getCapabilities : Z -> MVKMTLFmtCaps.

Lemma validateSubpass_index st sp :
  _attachmentIndex
    (fst (validateSubpass getMTLPixelFormat getCapabilities st sp))
  = _attachmentIndex (fst st).
Proof.
  destruct st as [att r]. unfold validateSubpass.
  destruct (anyCaps _); [| reflexivity].
  destruct (isMultiview sp); reflexivity.
Qed.

Lemma validateSubpass_first_le st sp :
  _firstUseSubpassIdx
    (fst (validateSubpass getMTLPixelFormat getCapabilities st sp))
  <= _firstUseSubpassIdx (fst st).
Proof.
  destruct st as [att r]. unfold validateSubpass.
  destruct (anyCaps _); [| cbn; lia].
  destruct (isMultiview sp); cbn; lia.
Qed.

Lemma validateSubpass_first_user st sp :
  references (_attachmentIndex (fst st)) sp = true ->
  _firstUseSubpassIdx
    (fst (validateSubpass getMTLPixelFormat getCapabilities st sp))
  <= _subpassIndex sp.
Proof.
  destruct st as [att r]. unfold validateSubpass, references. cbn [fst].
  intro Hr. rewrite Hr.
  destruct (isMultiview sp); cbn; lia.
Qed.

Lemma fold_validate_index l : forall st,
  _attachmentIndex
    (fst (fold_left (validateSubpass getMTLPixelFormat getCapabilities) l st))
  = _attachmentIndex (fst st).
Proof.
  induction l as [| s l IH]; intro st; [reflexivity |].
  cbn [fold_left]. rewrite IH. apply validateSubpass_index.
Qed.

Lemma fold_validate_first_le l : forall st,
  _firstUseSubpassIdx
    (fst (fold_left (validateSubpass getMTLPixelFormat getCapabilities) l st))
  <= _firstUseSubpassIdx (fst st).
Proof.
  induction l as [| s l IH]; intro st; [cbn; lia |].
  cbn [fold_left].
  pose proof (IH (validateSubpass getMTLPixelFormat getCapabilities st s)).
  pose proof (validateSubpass_first_le st s). lia.
Qed.

(** The first-use index is at most the index of any subpass that references
    the attachment. *)
Lemma validateFormat_first_user subpasses att result earlier :
  In earlier subpasses ->
  references (_attachmentIndex att) earlier = true ->
  _firstUseSubpassIdx
    (fst (validateFormat kMVKUndefinedLargeUInt32 isSupportedOrSubstitutable
            getMTLPixelFormat getCapabilities subpasses att result))
  <= _subpassIndex earlier.
Proof.
  unfold validateFormat.
  set (st0 := (_, _)).
  assert (Hidx : _attachmentIndex (fst st0) = _attachmentIndex att) by reflexivity.
  rewrite <- Hidx. clearbody st0. clear Hidx.
  revert st0. induction subpasses as [| s l IH]; intros st0 Hin Href;
    [contradiction |].
  cbn [fold_left]. destruct Hin as [-> | Hin].
  - pose proof (fold_validate_first_le l
                  (validateSubpass getMTLPixelFormat getCapabilities st0 earlier)).
    pose proof (validateSubpass_first_user st0 earlier Href). lia.
  - apply IH; [exact Hin |]. rewrite validateSubpass_index. exact Href.
Qed.

Lemma multiviewUsers_snoc idx l s :
  multiviewUsers idx (l ++ [s])
  = multiviewUsers idx l
    ++ (if references idx s && isMultiview s then [s] else []).
Proof. unfold multiviewUsers. rewrite filter_app. reflexivity. Qed.

(** The vectors [validateFormat] builds hold, for each multiview subpass that
    references the attachment and in the order of those subpasses, the views
    that subpass introduces and the views it retires. *)
Lemma validate_view_masks l : forall att r,
  Forall (fun sp => word32 (_viewMask sp)) l ->
  _firstUseViewMasks att = [] -> _lastUseViewMasks att = [] ->
  let att' :=
    fst (fold_left (validateSubpass getMTLPixelFormat getCapabilities) l (att, r)) in
  let masks := map _viewMask (multiviewUsers (_attachmentIndex att) l) in
  _firstUseViewMasks att' = map (introducedAt masks) (seq 0 (length masks))
  /\ _lastUseViewMasks att' = map (retiredAt masks) (seq 0 (length masks)).
Proof.
  induction l as [| s l IH] using rev_ind; intros att r Hw Hf Hl.
  - cbn. split; assumption.
  - apply Forall_app in Hw. destruct Hw as [Hwl Hws].
    inversion Hws as [| ? ? Hv _]; subst.
    specialize (IH att r Hwl Hf Hl). cbv zeta in IH. destruct IH as [IHf IHl].
    cbv zeta. rewrite fold_left_app. cbn [fold_left].
    pose proof (fold_validate_index l (att, r)) as Hidx. cbn [fst] in Hidx.
    destruct (fold_left (validateSubpass getMTLPixelFormat getCapabilities) l
                (att, r)) as [att1 r1].
    cbn [fst] in *.
    rewrite multiviewUsers_snoc.
    unfold validateSubpass. rewrite Hidx.
    change (anyCaps (getRequiredFormatCapabilitiesForAttachmentAt s
                       (_attachmentIndex att)))
      with (references (_attachmentIndex att) s).
    set (masks := map _viewMask (multiviewUsers (_attachmentIndex att) l)) in *.
    destruct (references (_attachmentIndex att) s); cbn [andb].
    + destruct (isMultiview s); cbn [fst _firstUseViewMasks _lastUseViewMasks].
      * rewrite map_app. cbn [map]. fold masks.
        rewrite length_app. cbn [length]. rewrite Nat.add_1_r, seq_S, !map_app.
        cbn [map Nat.add]. split.
        -- rewrite introducedAt_snoc_new.
           rewrite (map_ext_in _ (introducedAt masks))
             by (intros k Hk; apply in_seq in Hk;
                 apply introducedAt_snoc_old; lia).
           rewrite IHf. f_equal. f_equal.
           rewrite strip_earlier by exact Hv. f_equal.
           apply not32_low. intros i Hi. apply unionOf_introduced. exact Hi.
        -- rewrite (retiredAt_snoc_new masks _ Hv).
           rewrite IHl, map_map. f_equal.
           apply map_ext_in. intros k Hk. apply in_seq in Hk.
           symmetry. apply retiredAt_snoc_old. lia.
      * rewrite app_nil_r. fold masks. split; assumption.
    + rewrite app_nil_r. fold masks. cbn [fst]. split; assumption.
Qed.

(** After [validateFormat] on an attachment whose vectors were empty, the two
    vectors hold one mask per multiview subpass that references the
    attachment, in the order of those subpasses. *)
Lemma validateFormat_view_masks subpasses att result :
  Forall (fun sp => word32 (_viewMask sp)) subpasses ->
  _firstUseViewMasks att = [] -> _lastUseViewMasks att = [] ->
  let att' :=
    fst (validateFormat kMVKUndefinedLargeUInt32 isSupportedOrSubstitutable
           getMTLPixelFormat getCapabilities subpasses att result) in
  let masks := map _viewMask (multiviewUsers (_attachmentIndex att) subpasses) in
  _firstUseViewMasks att' = map (introducedAt masks) (seq 0 (length masks))
  /\ _lastUseViewMasks att' = map (retiredAt masks) (seq 0 (length masks)).
Proof.
  intros Hw Hf Hl. unfold validateFormat.
  apply (validate_view_masks subpasses
           {| _info := _info att;
              _attachmentIndex := _attachmentIndex att;
              _firstUseSubpassIdx := kMVKUndefinedLargeUInt32;
              _lastUseSubpassIdx := 0;
              _firstUseViewMasks := _firstUseViewMasks att;
              _lastUseViewMasks := _lastUseViewMasks att |});
    assumption.
Qed.

End Validate.

(** *** Clearing *)

(** C3, as the code has it: [shouldClearAttachment] returns true exactly when
    the declared load-op (the stencil load-op when [isStencil]) is Clear and,
    for a subpass that is not multiview, the subpass index is the cached
    first-use index, or, for a multiview subpass, the first-use view mask
    cached at its index is not zero (the subpass introduces some view; it need
    not introduce all of its views).  In a pass that is not multiview, a
    subpass that comes after one referencing the attachment never reports
    true. *)
Theorem shouldClearAttachment_first_use :
  forall (att : MVKRenderPassAttachment) (subpass : MVKRenderSubpass)
         (isStencil : bool),
    let loadOp_ := if isStencil then stencilLoadOp (_info att)
                   else loadOp (_info att) in
    (shouldClearAttachment att subpass isStencil = Ok true
     <-> (if isMultiview subpass
          then exists m, at_ (_firstUseViewMasks att) (_subpassIndex subpass) = Ok m
                         /\ m <> 0
          else _subpassIndex subpass = _firstUseSubpassIdx att)
         /\ loadOp_ = VK_ATTACHMENT_LOAD_OP_CLEAR)
    /\ (forall kMVKUndefinedLargeUInt32 isSupportedOrSubstitutable
               getMTLPixelFormat getCapabilities subpasses att0 result earlier,
          att = fst (validateFormat kMVKUndefinedLargeUInt32
                       isSupportedOrSubstitutable getMTLPixelFormat
                       getCapabilities subpasses att0 result) ->
          isMultiview subpass = false ->
          In earlier subpasses ->
          references (_attachmentIndex att0) earlier = true ->
          _subpassIndex earlier < _subpassIndex subpass ->
          shouldClearAttachment att subpass isStencil = Ok false).
Proof.
  intros att subpass isStencil loadOp_. split.
  - unfold shouldClearAttachment. fold loadOp_.
    destruct (isMultiview subpass).
    + destruct (at_ (_firstUseViewMasks att) (_subpassIndex subpass))
        as [m | f]; cbn [bind].
      * destruct (Z.eqb_spec m 0) as [-> | Hne].
        -- split; [discriminate |]. intros [[m' [E Hm']] _]. congruence.
        -- split.
           ++ intro H. split; [exists m; split; [reflexivity | exact Hne] |].
              apply VkAttachmentLoadOp_eqb_eq. congruence.
           ++ intros [_ H]. f_equal. apply VkAttachmentLoadOp_eqb_eq. exact H.
      * split; [discriminate |]. intros [[m' [E _]] _]. discriminate E.
    + destruct (Z.eqb_spec (_subpassIndex subpass) (_firstUseSubpassIdx att))
        as [E | Hne]; cbn [negb].
      * split.
        -- intro H. split; [exact E |].
           apply VkAttachmentLoadOp_eqb_eq. congruence.
        -- intros [_ H]. f_equal. apply VkAttachmentLoadOp_eqb_eq. exact H.
      * split; [discriminate | intros [E _]; contradiction].
  - intros kUndef isSupp getMTL getCaps subpasses att0 result earlier
           Hatt Hmv Hin Href Hlt.
    pose proof (validateFormat_first_user kUndef isSupp getMTL getCaps
                  subpasses att0 result earlier Hin Href) as Hle.
    rewrite <- Hatt in Hle.
    unfold shouldClearAttachment. rewrite Hmv.
    destruct (Z.eqb_spec (_subpassIndex subpass) (_firstUseSubpassIdx att));
      [lia | reflexivity].
Qed.

Lemma shouldClearAttachment_first_use_witness :
  let att := attachmentAt twoSubpasses 0 in
  (shouldClearAttachment att (subpassAt twoSubpasses 0) false = Ok true
   <-> _subpassIndex (subpassAt twoSubpasses 0) = _firstUseSubpassIdx att
       /\ loadOp (_info att) = VK_ATTACHMENT_LOAD_OP_CLEAR)
  /\ shouldClearAttachment att (subpassAt twoSubpasses 1) false = Ok false.
Proof.
  cbv zeta. split.
  - exact (proj1 (shouldClearAttachment_first_use
                    (attachmentAt twoSubpasses 0) (subpassAt twoSubpasses 0) false)).
  - apply (proj2 (shouldClearAttachment_first_use
                    (attachmentAt twoSubpasses 0) (subpassAt twoSubpasses 1) false)
             4294967295 (fun _ => true) (fun f => f) (fun _ => allCaps)
             (_subpasses twoSubpasses)
             {| _info := clearedAttachment; _attachmentIndex := 0;
                _firstUseSubpassIdx := 0; _lastUseSubpassIdx := 0;
                _firstUseViewMasks := []; _lastUseViewMasks := [] |}
             VK_SUCCESS (subpassAt twoSubpasses 0)).
    + reflexivity.
    + reflexivity.
    + left. reflexivity.
    + reflexivity.
    + vm_compute. reflexivity.
Defined.

(** C3 as stated fails on a multiview pass: the second subpass of
    [growingViews] is not the exclusive first use of the attachment (view 0
    was introduced by the first subpass), the load-op is Clear, and
    [shouldClearAttachment] reports true for it. *)
Lemma later_multiview_subpass_clears :
  let att := attachmentAt growingViews 0 in
  let subpass := subpassAt growingViews 1 in
  _firstUseViewMasks att = [1; 2]
  /\ _viewMask subpass = 3
  /\ isFirstUseOfAttachment att subpass = Ok false
  /\ loadOp (_info att) = VK_ATTACHMENT_LOAD_OP_CLEAR
  /\ shouldClearAttachment att subpass false = Ok true.
Proof. repeat split. Qed.

(** *** Store actions *)

(** C5: for a memoryless attachment [getMTLStoreAction] is DontCare without a
    resolve target and MultisampleResolve with one, whatever the declared
    store-op, the subpass and the other flags. *)
Theorem getMTLStoreAction_memoryless :
  forall (mvkMTLStoreActionFromVkAttachmentStoreOp :
            VkAttachmentStoreOp -> bool -> bool -> MTLStoreAction)
         (rp : MVKRenderPass) (att : MVKRenderPassAttachment)
         (subpass : MVKRenderSubpass)
         (isRenderingEntireAttachment hasResolveAttachment canResolveFormat
          isStencil storeOverride : bool),
    getMTLStoreAction mvkMTLStoreActionFromVkAttachmentStoreOp rp att subpass
      isRenderingEntireAttachment true hasResolveAttachment canResolveFormat
      isStencil storeOverride
    = Ok (if hasResolveAttachment then MTLStoreActionMultisampleResolve
          else MTLStoreActionDontCare).
Proof.
  intros. unfold getMTLStoreAction.
  destruct hasResolveAttachment, canResolveFormat,
    (combinedStoreResolveAction (_device rp)); reflexivity.
Qed.

(** C4, as the code has it: for an attachment that is not memoryless, when the
    store override is set, the region rendered is not the entire attachment,
    or the subpass is not the last use, [getMTLStoreAction] is Store without a
    format-capable resolve target; with one it is StoreAndMultisampleResolve
    on a device that has the combined action and MultisampleResolve on one
    that has not.  It is never DontCare, whatever the declared store-op. *)
Theorem getMTLStoreAction_must_persist :
  forall (mvkMTLStoreActionFromVkAttachmentStoreOp :
            VkAttachmentStoreOp -> bool -> bool -> MTLStoreAction)
         (rp : MVKRenderPass) (att : MVKRenderPassAttachment)
         (subpass : MVKRenderSubpass)
         (isRenderingEntireAttachment hasResolveAttachment canResolveFormat
          isStencil storeOverride : bool),
    storeOverride = true \/ isRenderingEntireAttachment = false
    \/ isLastUseOfAttachment att subpass = Ok false ->
    let action :=
      getMTLStoreAction mvkMTLStoreActionFromVkAttachmentStoreOp rp att subpass
        isRenderingEntireAttachment false hasResolveAttachment canResolveFormat
        isStencil storeOverride in
    action
    = Ok (if hasResolveAttachment && canResolveFormat
          then if combinedStoreResolveAction (_device rp)
               then MTLStoreActionStoreAndMultisampleResolve
               else MTLStoreActionMultisampleResolve
          else MTLStoreActionStore)
    /\ action <> Ok MTLStoreActionDontCare.
Proof.
  intros storeMap rp att subpass entire hasResolve canResolve isStencil
         override H action.
  assert (E : action
              = Ok (if hasResolve && canResolve
                    then if combinedStoreResolveAction (_device rp)
                         then MTLStoreActionStoreAndMultisampleResolve
                         else MTLStoreActionMultisampleResolve
                    else MTLStoreActionStore)).
  { unfold action, getMTLStoreAction.
    destruct (hasResolve && canResolve) eqn:Hr;
      destruct (combinedStoreResolveAction (_device rp)); cbn [negb andb];
      try reflexivity.
    all: destruct H as [-> | [-> | Hl]];
      [ reflexivity
      | rewrite orb_true_r; reflexivity
      | destruct (override || negb entire); [reflexivity |];
        rewrite Hl; reflexivity ]. }
  split; [exact E |]. rewrite E.
  destruct (hasResolve && canResolve), (combinedStoreResolveAction (_device rp));
    discriminate.
Qed.

Lemma getMTLStoreAction_must_persist_witness :
  let att := attachmentAt twoSubpasses 0 in
  let subpass := subpassAt twoSubpasses 0 in
  isLastUseOfAttachment att subpass = Ok false
  /\ storeOp (_info att) = VK_ATTACHMENT_STORE_OP_DONT_CARE
  /\ getMTLStoreAction storeActionFromStoreOp twoSubpasses att subpass
       true false false false false false
     = Ok MTLStoreActionStore.
Proof.
  cbv zeta. split; [reflexivity |]. split; [reflexivity |].
  apply (getMTLStoreAction_must_persist storeActionFromStoreOp twoSubpasses
           (attachmentAt twoSubpasses 0) (subpassAt twoSubpasses 0)
           true false false false false).
  right. right. reflexivity.
Defined.

(** C4 as stated fails for a memoryless attachment: the first of the two
    subpasses of [twoSubpasses] is not the last use of the attachment, and the
    store action of the memoryless attachment without resolve target is
    DontCare. *)
Lemma memoryless_not_last_use_discards :
  let att := attachmentAt twoSubpasses 0 in
  let subpass := subpassAt twoSubpasses 0 in
  isLastUseOfAttachment att subpass = Ok false
  /\ getMTLStoreAction storeActionFromStoreOp twoSubpasses att subpass
       true true false false false false
     = Ok MTLStoreActionDontCare.
Proof. repeat split. Qed.

(** *** Load actions *)

Lemma getMTLStoreAction_returns storeMap rp att subpass last
      (entire memoryless hasResolve canResolve isStencil override : bool) :
  isLastUseOfAttachment att subpass = Ok last ->
  exists action,
    getMTLStoreAction storeMap rp att subpass entire memoryless hasResolve
      canResolve isStencil override = Ok action.
Proof.
  intro Hl. unfold getMTLStoreAction. rewrite Hl.
  destruct (hasResolve && canResolve && negb (combinedStoreResolveAction (_device rp)));
    [eexists; reflexivity |].
  destruct memoryless; [eexists; reflexivity |].
  destruct (override || negb entire); cbn [bind];
    [| destruct (negb last)]; eexists; reflexivity.
Qed.

(** C6: [populateMTLRenderPassAttachmentDescriptor] chooses Load when the load
    override is set, the region rendered is not the entire attachment, or the
    subpass is not the first use of the attachment, and otherwise the action
    the declared load-op (the stencil load-op when [isStencil]) maps to; on a
    memoryless attachment a Load so chosen becomes DontCare and a Clear stays;
    the function returns true exactly when the action written is Clear. *)
Theorem populate_load_action :
  forall (MVK_APPLE_SILICON : bool)
         (mvkMTLLoadActionFromVkAttachmentLoadOp :
            VkAttachmentLoadOp -> MTLLoadAction)
         (mvkMTLStoreActionFromVkAttachmentStoreOp :
            VkAttachmentStoreOp -> bool -> bool -> MTLStoreAction)
         (rp : MVKRenderPass) (att : MVKRenderPassAttachment)
         (subpass : MVKRenderSubpass) (attachment_ : MVKImageView)
         (isRenderingEntireAttachment hasResolveAttachment canResolveFormat
          isStencil loadOverride last : bool),
    isLastUseOfAttachment att subpass = Ok last ->
    let isMemorylessAttachment :=
      MVK_APPLE_SILICON && storageModeMemoryless attachment_ in
    let declared :=
      mvkMTLLoadActionFromVkAttachmentLoadOp
        (if isStencil then stencilLoadOp (_info att) else loadOp (_info att)) in
    let run :=
      populateMTLRenderPassAttachmentDescriptor MVK_APPLE_SILICON
        mvkMTLLoadActionFromVkAttachmentLoadOp
        mvkMTLStoreActionFromVkAttachmentStoreOp rp att subpass attachment_
        isRenderingEntireAttachment hasResolveAttachment canResolveFormat
        isStencil loadOverride in
    (loadOverride = true \/ isRenderingEntireAttachment = false
     \/ isFirstUseOfAttachment att subpass = Ok false ->
     exists desc,
       run = Ok (desc, false)
       /\ loadAction desc = (if isMemorylessAttachment then MTLLoadActionDontCare
                             else MTLLoadActionLoad))
    /\ (loadOverride = false -> isRenderingEntireAttachment = true ->
        isFirstUseOfAttachment att subpass = Ok true ->
        exists desc,
          run = Ok (desc, MTLLoadAction_eqb declared MTLLoadActionClear)
          /\ loadAction desc
             = (if isMemorylessAttachment
                   && MTLLoadAction_eqb declared MTLLoadActionLoad
                then MTLLoadActionDontCare else declared))
    /\ (forall desc didClear,
          run = Ok (desc, didClear) ->
          (didClear = true <-> loadAction desc = MTLLoadActionClear)).
Proof.
  intros silicon loadMap storeMap rp att subpass view entire hasResolve
         canResolve isStencil loadOverride last Hlast memoryless declared run.
  (* the store action written next to the load action *)
  assert (Hstore : exists action,
             (if deferredStoreActions (_device rp) then Ok MTLStoreActionUnknown
              else if isStencilFormat view && negb isStencil
                      && negb (isDepthFormat view)
              then Ok MTLStoreActionDontCare
              else getMTLStoreAction storeMap rp att subpass entire memoryless
                     hasResolve canResolve isStencil false) = Ok action).
  { destruct (deferredStoreActions (_device rp)); [eexists; reflexivity |].
    destruct (isStencilFormat view && negb isStencil && negb (isDepthFormat view));
      [eexists; reflexivity |].
    apply (getMTLStoreAction_returns storeMap rp att subpass last). exact Hlast. }
  destruct Hstore as [action Hstore].
  assert (Hload : forall chosen,
             (if loadOverride || negb entire then Ok MTLLoadActionLoad
              else first <- isFirstUseOfAttachment att subpass ;;
                   if negb first then Ok MTLLoadActionLoad else Ok declared)
             = Ok chosen ->
             let written :=
               if memoryless && MTLLoadAction_eqb chosen MTLLoadActionLoad
               then MTLLoadActionDontCare else chosen in
             run = Ok ({| loadAction := written; storeAction := action |},
                       MTLLoadAction_eqb written MTLLoadActionClear)).
  { intros chosen Hc written. unfold run, populateMTLRenderPassAttachmentDescriptor.
    fold memoryless. fold declared. rewrite Hc. cbn [bind].
    fold written. rewrite Hstore. reflexivity. }
  split; [| split].
  - intro H.
    specialize (Hload MTLLoadActionLoad).
    cbv zeta in Hload. cbn [MTLLoadAction_eqb] in Hload.
    rewrite andb_true_r in Hload.
    exists {| loadAction := if memoryless then MTLLoadActionDontCare
                            else MTLLoadActionLoad;
              storeAction := action |}.
    split.
    + rewrite Hload.
      * destruct memoryless; reflexivity.
      * destruct H as [-> | [-> | Hf]];
          [ reflexivity | rewrite orb_true_r; reflexivity |].
        rewrite Hf. destruct (loadOverride || negb entire); reflexivity.
    + cbn [loadAction]. reflexivity.
  - intros Ho He Hf.
    specialize (Hload declared). cbv zeta in Hload.
    exists {| loadAction :=
                if memoryless && MTLLoadAction_eqb declared MTLLoadActionLoad
                then MTLLoadActionDontCare else declared;
              storeAction := action |}.
    split.
    + rewrite Hload.
      * f_equal. f_equal.
        destruct memoryless, declared; reflexivity.
      * rewrite Ho, He, Hf. reflexivity.
    + cbn [loadAction]. reflexivity.
  - intros desc didClear Hrun.
    assert (Hex : exists chosen,
               (if loadOverride || negb entire then Ok MTLLoadActionLoad
                else first <- isFirstUseOfAttachment att subpass ;;
                     if negb first then Ok MTLLoadActionLoad else Ok declared)
               = Ok chosen).
    { unfold run, populateMTLRenderPassAttachmentDescriptor in Hrun.
      fold declared in Hrun.
      destruct (if loadOverride || negb entire then Ok MTLLoadActionLoad
                else first <- isFirstUseOfAttachment att subpass ;;
                     if negb first then Ok MTLLoadActionLoad else Ok declared)
        as [chosen | f]; [eexists; reflexivity | discriminate Hrun]. }
    destruct Hex as [chosen Hc].
    rewrite (Hload chosen Hc) in Hrun. injection Hrun as <- <-.
    cbn [loadAction]. apply MTLLoadAction_eqb_eq.
Qed.

Lemma populate_load_action_witness :
  let att := attachmentAt twoSubpasses 0 in
  let subpass := subpassAt twoSubpasses 0 in
  isLastUseOfAttachment att subpass = Ok false
  /\ isFirstUseOfAttachment att subpass = Ok true
  /\ exists desc,
       populateMTLRenderPassAttachmentDescriptor true loadActionFromLoadOp
         storeActionFromStoreOp twoSubpasses att subpass memorylessTexture
         true false false false false
       = Ok (desc, true)
       /\ loadAction desc = MTLLoadActionClear.
Proof.
  cbv zeta. split; [reflexivity |]. split; [reflexivity |].
  apply (proj1 (proj2 (populate_load_action true loadActionFromLoadOp
                         storeActionFromStoreOp twoSubpasses
                         (attachmentAt twoSubpasses 0) (subpassAt twoSubpasses 0)
                         memorylessTexture true false false false false false
                         eq_refl)));
    reflexivity.
Defined.

(** *** First-use and last-use view masks *)

(** C7: in the multiview pass [lateAttachment] the first subpass does not
    reference attachment 0 and the second does, with view 0.  [validateFormat]
    pushes one mask, for the second subpass, so the vectors have a single
    entry: at the index of the first subpass, which does not reference the
    attachment, they hold view 0, and at the index of the second subpass, the
    earliest and latest to use view 0, there is no entry to read. *)
Theorem late_attachment_view_masks_misplaced :
  let att := attachmentAt lateAttachment 0 in
  let first := subpassAt lateAttachment 0 in
  let second := subpassAt lateAttachment 1 in
  isMultiview first = true /\ isMultiview second = true
  /\ references (_attachmentIndex att) first = false
  /\ references (_attachmentIndex att) second = true
  /\ _firstUseViewMasks att = [1] /\ _lastUseViewMasks att = [1]
  /\ at_ (_firstUseViewMasks att) (_subpassIndex first) = Ok 1
  /\ at_ (_lastUseViewMasks att) (_subpassIndex first) = Ok 1
  /\ at_ (_firstUseViewMasks att) (_subpassIndex second) = Fail OutOfRange
  /\ at_ (_lastUseViewMasks att) (_subpassIndex second) = Fail OutOfRange
  /\ isFirstUseOfAttachment att second = Fail OutOfRange
  /\ isLastUseOfAttachment att second = Fail OutOfRange.
Proof. repeat split. Qed.

End Attachment.

(** ** Passes and runs of views *)

Module Runs.
Import Bits Clumps Partition Examples.

(** Case analysis on every comparison of integers in the goal. *)
Ltac cmp_cases :=
  repeat match goal with
         | |- context [?a <=? ?b] => destruct (Z.leb_spec a b)
         | |- context [?a <? ?b] => destruct (Z.ltb_spec a b)
         | |- context [?a =? ?b] => destruct (Z.eqb_spec a b)
         end;
  try lia.

(** What the loop of [getNextViewMaskGroup] has done when it leaves: the bits
    [e .. e' - 1] were set in the mask and have moved to the group, and bit
    [e'] is not set. *)
Lemma clumpLoop_run fuel : forall vm e gm vm' e' gm',
  word32 vm -> 0 <= e ->
  clumpLoop fuel vm e gm = Ok (vm', e', gm') ->
  e <= e'
  /\ (forall i, 0 <= i -> Z.testbit gm' i = Z.testbit gm i || inRun e (e' - e) i && Z.testbit vm i)
  /\ (forall i, e <= i < e' -> Z.testbit vm i = true)
  /\ (e' < 32 -> Z.testbit vm e' = false).
Proof.
  induction fuel as [| f IH]; intros vm e gm vm' e' gm' Hvm He E;
    [discriminate E |].
  cbn [clumpLoop] in E. rewrite land_shl1_eqb in E.
  destruct (shiftable e && Z.testbit vm e) eqn:Hc; cbn [negb] in E.
  - apply andb_true_iff in Hc. destruct Hc as [Hs Hb].
    assert (He32 : 0 <= e < 32) by (unfold shiftable in Hs; lia).
    apply IH in E; [| apply clear_word32; exact Hvm | lia].
    destruct E as [Hle [Hg [Hrun Hend]]].
    split; [lia |]. split; [| split].
    + intros i Hi. rewrite (Hg i Hi).
      rewrite Z.lor_spec, Z.land_spec, shl1_bits, clear_bits by exact Hi.
      rewrite Hs. unfold inRun.
      assert (Hhigh : 32 <= i -> Z.testbit vm i = false)
        by (apply word32_high; exact Hvm).
      destruct (Z.testbit vm i) eqn:Hv; destruct (Z.testbit gm i);
        cmp_cases; try reflexivity;
        try (subst; congruence);
        try (specialize (Hhigh ltac:(lia)); discriminate Hhigh).
    + intros i Hi. destruct (Z.eq_dec i e) as [-> | Hne]; [exact Hb |].
      specialize (Hrun i ltac:(lia)). rewrite clear_bits in Hrun by lia.
      apply andb_true_iff in Hrun. destruct Hrun as [Hrun _].
      apply andb_true_iff in Hrun. apply Hrun.
    + intro Hlt. specialize (Hend Hlt). rewrite clear_bits in Hend by lia.
      rewrite Hs in Hend.
      replace (e' <? 32) with true in Hend by (symmetry; apply Z.ltb_lt; lia).
      replace (e =? e') with false in Hend by (symmetry; apply Z.eqb_neq; lia).
      cbn [andb negb] in Hend. rewrite !andb_true_r in Hend. exact Hend.
  - injection E as <- <- <-. split; [lia |]. split; [| split].
    + intros i Hi. unfold inRun.
      replace (i <? e + (e - e)) with (i <? e) by (f_equal; lia).
      destruct (Z.leb_spec e i); destruct (Z.ltb_spec i e); try lia;
        cbn [andb]; rewrite orb_false_r; reflexivity.
    + intros i Hi. lia.
    + intro Hlt. apply andb_false_iff in Hc. destruct Hc as [Hs | Hb];
        [unfold shiftable in Hs; lia | exact Hb].
Qed.

(** The clump [getNextViewMaskGroup] cuts off a non-zero mask is the lowest
    maximal run of set bits: it starts at the lowest set bit, all of its bits
    are set in the mask, and the bit above it is not. *)
Lemma getNextViewMaskGroup_run m g :
  word32 m -> m <> 0 -> getNextViewMaskGroup m = Ok g ->
  0 <= startView g /\ 1 <= viewCount g /\ startView g + viewCount g <= 32
  /\ (forall i, 0 <= i ->
        Z.testbit (groupMask g) i = inRun (startView g) (viewCount g) i)
  /\ (forall i, 0 <= i < startView g -> Z.testbit m i = false)
  /\ (forall i, 0 <= i -> inRun (startView g) (viewCount g) i = true ->
        Z.testbit m i = true)
  /\ (startView g + viewCount g < 32 ->
      Z.testbit m (startView g + viewCount g) = false).
Proof.
  intros Hm Hne E. unfold getNextViewMaskGroup in E.
  destruct (ffs_nonzero m Hm Hne) as [k [Ek [Hk [Hb Hlow]]]].
  rewrite Ek in E. replace (k + 1 - 1) with k in E by lia.
  destruct (clumpLoop_spec 33 m k 0 Hm ltac:(lia) ltac:(lia))
    as [vm' [e' [gm' [E' [_ [Hr [_ [_ [_ [_ Hlt]]]]]]]]]].
  rewrite E' in E. cbn [bind] in E. injection E as <-.
  cbn [startView viewCount groupMask].
  specialize (Hlt Hb ltac:(lia)).
  rewrite (u32_small k) by (unfold word32, modulus; lia).
  rewrite (u32_small (e' - k)) by (unfold word32, modulus; lia).
  destruct (clumpLoop_run 33 m k 0 vm' e' gm' Hm ltac:(lia) E')
    as [_ [Hg [Hrun Hend]]].
  replace (k + (e' - k)) with e' by lia.
  split; [lia |]. split; [lia |]. split; [lia |]. split; [| split; [| split]].
  - intros i Hi. rewrite (Hg i Hi), Z.bits_0. cbn [orb].
    destruct (inRun k (e' - k) i) eqn:Hin; [| reflexivity].
    cbn [andb]. apply Hrun. unfold inRun in Hin. lia.
  - exact Hlow.
  - intros i Hi Hin. apply Hrun. unfold inRun in Hin. lia.
  - exact Hend.
Qed.

(** Every clump of a mask is a run of views of the mask. *)
Lemma clumpsOf_runs fuel : forall m,
  word32 m -> (Z.to_nat (__builtin_popcount m) < fuel)%nat ->
  Forall (fun g =>
            0 <= startView g /\ 1 <= viewCount g
            /\ startView g + viewCount g <= 32
            /\ (forall i, 0 <= i ->
                  Z.testbit (groupMask g) i = inRun (startView g) (viewCount g) i)
            /\ (forall i, 0 <= i -> Z.testbit (groupMask g) i = true ->
                  Z.testbit m i = true))
         (clumpsOf fuel m).
Proof.
  induction fuel as [| f IH]; intros m Hm Hf; [lia |].
  destruct (Z.eq_dec m 0) as [-> | Hne]; [constructor |].
  destruct (clumpsOf_nonzero f m Hm Hne) as [g [E El]].
  destruct (getNextViewMaskGroup_spec m Hm Hne)
    as [g' [E' [Hr [_ [_ [Hc [Hp [Hor _]]]]]]]].
  assert (g' = g) by congruence. subst g'.
  pose proof (popcount_bounds (restMask g)).
  rewrite El. constructor.
  - destruct (getNextViewMaskGroup_run m g Hm Hne E)
      as [H0 [H1 [H2 [Hg [_ [Hin _]]]]]].
    repeat split; try assumption; try lia.
    intros i Hi Hb. apply Hin; [exact Hi |]. rewrite <- Hg by exact Hi. exact Hb.
  - specialize (IH (restMask g) Hr ltac:(lia)).
    eapply Forall_impl; [| exact IH].
    intros h [H0 [H1 [H2 [Hg Hsub]]]].
    repeat split; try assumption.
    intros i Hi Hb. rewrite <- Hor, Z.lor_spec, (Hsub i Hi Hb). reflexivity.
Qed.

(** The loop of [getViewCountUpToMetalPass] over the passes [0 .. p] adds up
    the view counts of the clumps [0 .. p]. *)
Lemma iterate_total_prefix fuel : forall m (p : nat) t d,
  word32 m -> (Z.to_nat (__builtin_popcount m) < fuel)%nat ->
  (p < length (clumpsOf fuel m))%nat ->
  0 <= t -> t + __builtin_popcount m < modulus ->
  iterate (S p)
    (fun '(mask, totalViewCount) =>
       g <- getNextViewMaskGroup mask ;;
       Ok (restMask g, u32 (totalViewCount + viewCount g)))
    (m, t)
  = Ok (restMask (nth p (clumpsOf fuel m) d),
        t + sumOf (map viewCount (firstn (S p) (clumpsOf fuel m)))).
Proof.
  induction fuel as [| f IH]; intros m p t d Hm Hf Hp Ht Hb; [lia |].
  destruct (Z.eq_dec m 0) as [-> | Hne]; [cbn in Hp; lia |].
  destruct (clumpsOf_nonzero f m Hm Hne) as [g [E El]].
  destruct (getNextViewMaskGroup_spec m Hm Hne)
    as [g' [E' [Hr [_ [_ [Hcnt [Hpc _]]]]]]].
  assert (g' = g) by congruence. subst g'.
  pose proof (popcount_bounds (restMask g)).
  rewrite El in *. cbn [length] in Hp.
  change (iterate (S p) ?b (m, t)) with
    (s' <- (g0 <- getNextViewMaskGroup m ;;
            Ok (restMask g0, u32 (t + viewCount g0))) ;;
     iterate p b s').
  rewrite E. cbn [bind].
  rewrite (u32_small (t + viewCount g)) by (unfold word32; lia).
  cbn [firstn map sumOf fold_right].
  destruct p as [| p'].
  - cbn. f_equal. f_equal. lia.
  - cbn [nth]. rewrite (IH (restMask g) p' (t + viewCount g) d)
      by (try assumption; lia).
    f_equal. f_equal. unfold sumOf. lia.
Qed.

(** [skipViews] with fewer passes to skip than views in the clump: it steps
    over [p] views and leaves with [passIdx] wrapped around. *)
Lemma skipViews_within (p : nat) : forall fuel c s,
  (p < fuel)%nat -> Z.of_nat p < c -> c <= 32 -> 0 <= s -> s + c <= 32 ->
  skipViews fuel (Z.of_nat p) c s
  = Ok (4294967295, c - Z.of_nat p, s + Z.of_nat p).
Proof.
  induction p as [| p IH]; intros fuel c s Hf Hc Hc32 Hs Hsc;
    (destruct fuel as [| fuel]; [lia |]); cbn [skipViews].
  - cbn. f_equal. f_equal; [f_equal |]; lia.
  - replace (0 <? Z.of_nat (S p)) with true by (symmetry; apply Z.ltb_lt; lia).
    replace (0 <? c) with true by (symmetry; apply Z.ltb_lt; lia).
    rewrite (u32_small (Z.of_nat (S p) - 1)) by (unfold word32, modulus; lia).
    rewrite (u32_small (c - 1)) by (unfold word32, modulus; lia).
    rewrite (u32_small (s + 1)) by (unfold word32, modulus; lia).
    replace (Z.of_nat (S p) - 1) with (Z.of_nat p) by lia.
    rewrite IH by lia. f_equal. f_equal; [f_equal |]; lia.
Qed.

End Runs.

Module PartitionExtra.
Import Bits Clumps Partition Examples Runs.

(** X1: with instancing, the view-mask groups of the Metal passes of a subpass
    are pairwise disjoint and their union is the view mask of the subpass:
    every view is rendered by exactly one pass. *)
Theorem instanced_passes_partition_views :
  forall NDEBUG rp sp,
    word32 (_viewMask sp) ->
    canUseInstancingForMultiview (_device rp) = true ->
    exists groups,
      viewMaskGroups NDEBUG rp sp = Ok groups
      /\ pairwiseDisjoint groups = true
      /\ unionOf groups = _viewMask sp.
Proof.
  intros NDEBUG rp sp Hw Hi.
  exact (instanced_view_mask_groups_partition NDEBUG rp sp Hw Hi).
Qed.

Lemma instanced_passes_partition_views_witness :
  word32 11
  /\ exists groups,
       viewMaskGroups false (views1011 instancingDevice)
         (subpassAt (views1011 instancingDevice) 0) = Ok groups
       /\ pairwiseDisjoint groups = true
       /\ unionOf groups = 11.
Proof.
  split; [unfold word32, modulus; lia |].
  apply (instanced_passes_partition_views false (views1011 instancingDevice)
           (subpassAt (views1011 instancingDevice) 0)).
  - unfold word32, modulus. simpl. lia.
  - reflexivity.
Defined.

Lemma pass_index_clump rp sp n passIdx :
  word32 (_viewMask sp) ->
  canUseInstancingForMultiview (_device rp) = true ->
  getMultiviewMetalPassCount rp sp = Ok n ->
  0 <= passIdx < n ->
  exists p : nat,
    passIdx = Z.of_nat p /\ (p < length (clumpsOf 33 (_viewMask sp)))%nat.
Proof.
  intros Hw Hi Hn Hp. rewrite instanced_pass_count in Hn by assumption.
  assert (En : n = Z.of_nat (length (clumpsOf 33 (_viewMask sp)))) by congruence.
  exists (Z.to_nat passIdx). split; lia.
Qed.

(** X2: with instancing, a pass renders a run of consecutive views of the
    mask. *)
Theorem instanced_pass_is_contiguous_run :
  forall (NDEBUG : bool) (rp : MVKRenderPass) (sp : MVKRenderSubpass)
         (n passIdx : Z),
    word32 (_viewMask sp) ->
    canUseInstancingForMultiview (_device rp) = true ->
    getMultiviewMetalPassCount rp sp = Ok n ->
    0 <= passIdx < n ->
    exists first count group,
      getFirstViewIndexInMetalPass NDEBUG rp sp passIdx = Ok first
      /\ getViewCountInMetalPass NDEBUG rp sp passIdx = Ok count
      /\ getViewMaskGroupForMetalPass NDEBUG rp sp passIdx = Ok group
      /\ 0 <= first /\ 1 <= count /\ first + count <= 32
      /\ (forall i, 0 <= i -> Z.testbit group i = inRun first count i)
      /\ (forall i, 0 <= i -> Z.testbit group i = true ->
            Z.testbit (_viewMask sp) i = true).
Proof.
  intros NDEBUG rp sp n passIdx Hw Hi Hn Hp.
  destruct (pass_index_clump rp sp n passIdx Hw Hi Hn Hp) as [p [-> Hlen]].
  pose proof (popcount_bounds (_viewMask sp)) as Hb.
  set (d := {| restMask := 0; startView := 0; viewCount := 0; groupMask := 0 |}).
  destruct (instanced_pass_is_clump NDEBUG rp sp p d Hw Hi Hlen) as [Hf [Hc Hg]].
  pose proof (clumpsOf_runs 33 (_viewMask sp) Hw ltac:(lia)) as Hruns.
  rewrite Forall_forall in Hruns.
  specialize (Hruns (nth p (clumpsOf 33 (_viewMask sp)) d) (nth_In _ d Hlen)).
  destruct Hruns as [H0 [H1 [H2 [Hbits Hsub]]]].
  exists (startView (nth p (clumpsOf 33 (_viewMask sp)) d)),
    (viewCount (nth p (clumpsOf 33 (_viewMask sp)) d)),
    (groupMask (nth p (clumpsOf 33 (_viewMask sp)) d)).
  repeat split; assumption.
Qed.

Lemma instanced_pass_is_contiguous_run_witness :
  let rp := views1011 instancingDevice in
  let sp := subpassAt rp 0 in
  exists first count group,
    getFirstViewIndexInMetalPass false rp sp 1 = Ok first
    /\ getViewCountInMetalPass false rp sp 1 = Ok count
    /\ getViewMaskGroupForMetalPass false rp sp 1 = Ok group
    /\ 0 <= first /\ 1 <= count /\ first + count <= 32
    /\ (forall i, 0 <= i -> Z.testbit group i = inRun first count i)
    /\ (forall i, 0 <= i -> Z.testbit group i = true ->
          Z.testbit (_viewMask sp) i = true).
Proof.
  cbv zeta.
  apply (instanced_pass_is_contiguous_run false (views1011 instancingDevice)
           (subpassAt (views1011 instancingDevice) 0) 2 1).
  - unfold word32, modulus. simpl. lia.
  - reflexivity.
  - reflexivity.
  - lia.
Defined.

Lemma sumOf_repeat_one (n : nat) : sumOf (repeat 1 n) = Z.of_nat n.
Proof.
  induction n as [| n IH]; [reflexivity |].
  cbn [repeat sumOf fold_right]. fold (sumOf (repeat 1 n)). lia.
Qed.

(** X3: in both modes, the cumulative view count of a pass is the sum of the
    view counts of the passes up to and including it. *)
Theorem view_count_up_to_is_sum :
  forall (NDEBUG : bool) (rp : MVKRenderPass) (sp : MVKRenderSubpass)
         (n passIdx : Z),
    word32 (_viewMask sp) ->
    getMultiviewMetalPassCount rp sp = Ok n ->
    0 <= passIdx < n ->
    exists counts,
      viewCountsUpTo NDEBUG rp sp passIdx = Ok counts
      /\ getViewCountUpToMetalPass rp sp passIdx = Ok (sumOf counts).
Proof.
  intros NDEBUG rp sp n passIdx Hw Hn Hp.
  pose proof (popcount_bounds (_viewMask sp)) as Hb.
  assert (Hne : _viewMask sp <> 0).
  { intro E. unfold getMultiviewMetalPassCount in Hn. rewrite E in Hn.
    cbn in Hn. injection Hn as <-. lia. }
  destruct (canUseInstancingForMultiview (_device rp)) eqn:Hi.
  - destruct (pass_index_clump rp sp n passIdx Hw Hi Hn Hp) as [p [-> Hlen]].
    set (d := {| restMask := 0; startView := 0; viewCount := 0; groupMask := 0 |}).
    exists (map viewCount (firstn (S p) (clumpsOf 33 (_viewMask sp)))).
    split.
    + unfold viewCountsUpTo. rewrite Nat2Z.id.
      assert (Hl : length (map viewCount (firstn (S p) (clumpsOf 33 (_viewMask sp))))
                   = S p) by (rewrite length_map, length_firstn; lia).
      rewrite <- Hl at 1. apply (forEachPass_nth _ 0). intros k Hk.
      rewrite Hl in Hk. cbn [Z.add].
      destruct (instanced_pass_is_clump NDEBUG rp sp k d Hw Hi ltac:(lia))
        as [_ [Hc _]].
      rewrite Hc. f_equal.
      rewrite (nth_indep _ 0 (viewCount d))
        by (rewrite length_map, length_firstn; lia).
      rewrite map_nth. f_equal.
      rewrite <- (firstn_skipn (S p) (clumpsOf 33 (_viewMask sp))) at 1.
      apply app_nth1. rewrite length_firstn. lia.
    + unfold getViewCountUpToMetalPass.
      rewrite (nonzero_eqb _ Hne), Hi. cbn [negb].
      pose proof (clumps_length_bounds _ Hw Hne).
      rewrite (passIterations_index p) by lia. cbn [bind].
      rewrite (iterate_total_prefix 33 _ p 0 d)
        by (try assumption; unfold modulus; lia).
      reflexivity.
  - assert (En : n = __builtin_popcount (_viewMask sp)).
    { unfold getMultiviewMetalPassCount in Hn.
      rewrite (nonzero_eqb _ Hne), Hi in Hn. cbn [negb] in Hn. congruence. }
    exists (repeat 1 (S (Z.to_nat passIdx))). split.
    + unfold viewCountsUpTo.
      rewrite <- (repeat_length 1 (S (Z.to_nat passIdx))) at 1.
      apply (forEachPass_nth _ 0). intros k Hk. rewrite repeat_length in Hk.
      unfold getViewCountInMetalPass, assert_, passIdxInRange.
      rewrite (nonzero_eqb _ Hne), Hi, Hn. cbn [negb bind Z.add].
      replace (Z.of_nat k <? n) with true by (symmetry; apply Z.ltb_lt; lia).
      rewrite (nth_indep _ 0 1) by (rewrite repeat_length; exact Hk).
      rewrite nth_repeat. destruct NDEBUG; reflexivity.
    + unfold getViewCountUpToMetalPass.
      rewrite (nonzero_eqb _ Hne), Hi. cbn [negb].
      rewrite sumOf_repeat_one. f_equal.
      rewrite u32_small by (unfold word32, modulus; lia). lia.
Qed.

Lemma view_count_up_to_is_sum_witness :
  let rp := views1011 instancingDevice in
  let sp := subpassAt rp 0 in
  exists counts,
    viewCountsUpTo false rp sp 1 = Ok counts
    /\ getViewCountUpToMetalPass rp sp 1 = Ok (sumOf counts).
Proof.
  cbv zeta.
  apply (view_count_up_to_is_sum false (views1011 instancingDevice)
           (subpassAt (views1011 instancingDevice) 0) 2 1).
  - unfold word32, modulus. simpl. lia.
  - reflexivity.
  - lia.
Defined.

(** X4: the pass count lies between 0 and the number of views, is 0 only for
    a view mask of 0, and never exceeds 32. *)
Theorem pass_count_bounds :
  forall (rp : MVKRenderPass) (sp : MVKRenderSubpass),
    word32 (_viewMask sp) ->
    exists n,
      getMultiviewMetalPassCount rp sp = Ok n
      /\ 0 <= n <= __builtin_popcount (_viewMask sp)
      /\ __builtin_popcount (_viewMask sp) <= 32
      /\ (n = 0 <-> _viewMask sp = 0).
Proof.
  intros rp sp Hw. pose proof (popcount_bounds (_viewMask sp)) as Hb.
  destruct (Z.eq_dec (_viewMask sp) 0) as [E | Hne].
  - exists 0. unfold getMultiviewMetalPassCount. rewrite E. cbn.
    repeat split; lia.
  - pose proof (popcount_nonzero _ Hw Hne) as Hp.
    destruct (canUseInstancingForMultiview (_device rp)) eqn:Hi.
    + exists (Z.of_nat (length (clumpsOf 33 (_viewMask sp)))).
      pose proof (clumps_length_bounds _ Hw Hne).
      destruct (clumpsOf_spec 33 (_viewMask sp) Hw ltac:(lia)) as [_ [Hl _]].
      split; [apply instanced_pass_count; assumption |].
      repeat split; try lia; intro; try contradiction; lia.
    + exists (__builtin_popcount (_viewMask sp)).
      unfold getMultiviewMetalPassCount. rewrite (nonzero_eqb _ Hne), Hi.
      cbn [negb]. repeat split; try lia; intro; try contradiction; lia.
Qed.

Lemma pass_count_bounds_witness :
  let rp := views1011 instancingDevice in
  let sp := subpassAt rp 0 in
  exists n,
    getMultiviewMetalPassCount rp sp = Ok n
    /\ 0 <= n <= __builtin_popcount (_viewMask sp)
    /\ __builtin_popcount (_viewMask sp) <= 32
    /\ (n = 0 <-> _viewMask sp = 0).
Proof.
  cbv zeta.
  apply (pass_count_bounds (views1011 instancingDevice)
           (subpassAt (views1011 instancingDevice) 0)).
  unfold word32, modulus. simpl. lia.
Defined.

Lemma unrolledScan_single_clump fuel m g (p : nat) s0 c0 :
  word32 m -> m <> 0 ->
  getNextViewMaskGroup m = Ok g -> restMask g = 0 ->
  Z.of_nat p < viewCount g ->
  unrolledScan (S (S fuel)) m (Z.of_nat p) s0 c0 = Ok (startView g + Z.of_nat p).
Proof.
  intros Hm Hne E Hrest Hp.
  destruct (getNextViewMaskGroup_run m g Hm Hne E) as [H0 [H1 [H2 _]]].
  cbn [unrolledScan]. rewrite (nonzero_eqb _ Hne), E. cbn [bind].
  rewrite (skipViews_within p) by lia.
  cbn [bind]. rewrite Hrest. reflexivity.
Qed.

(** X5: without instancing, on a view mask that is a single run of views,
    pass [p] renders view [first + p] of the mask. *)
Theorem unrolled_single_clump :
  forall (NDEBUG : bool) (rp : MVKRenderPass) (sp : MVKRenderSubpass)
         (g : ViewMaskGroup) (passIdx : Z),
    word32 (_viewMask sp) -> _viewMask sp <> 0 ->
    canUseInstancingForMultiview (_device rp) = false ->
    getNextViewMaskGroup (_viewMask sp) = Ok g -> restMask g = 0 ->
    0 <= passIdx < viewCount g ->
    getMultiviewMetalPassCount rp sp = Ok (viewCount g)
    /\ getFirstViewIndexInMetalPass NDEBUG rp sp passIdx
       = Ok (startView g + passIdx)
    /\ getViewMaskGroupForMetalPass NDEBUG rp sp passIdx
       = Ok (2 ^ (startView g + passIdx))
    /\ Z.testbit (_viewMask sp) (startView g + passIdx) = true.
Proof.
  intros NDEBUG rp sp g passIdx Hw Hne Hi E Hrest Hp.
  destruct (getNextViewMaskGroup_run _ g Hw Hne E)
    as [H0 [H1 [H2 [_ [_ [Hin _]]]]]].
  destruct (getNextViewMaskGroup_spec _ Hw Hne)
    as [g' [E' [_ [_ [_ [_ [Hpc _]]]]]]].
  assert (g' = g) by congruence. subst g'.
  rewrite Hrest, popcount_zero in Hpc.
  assert (Hcount : getMultiviewMetalPassCount rp sp = Ok (viewCount g)).
  { unfold getMultiviewMetalPassCount. rewrite (nonzero_eqb _ Hne), Hi.
    cbn [negb]. f_equal. lia. }
  assert (Hassert : assert_ NDEBUG (passIdxInRange rp sp passIdx) = Ok tt).
  { unfold assert_, passIdxInRange. destruct NDEBUG; [reflexivity |].
    rewrite Hcount. cbn [bind].
    replace (passIdx <? viewCount g) with true
      by (symmetry; apply Z.ltb_lt; lia).
    reflexivity. }
  assert (Hfirst : getFirstViewIndexInMetalPass NDEBUG rp sp passIdx
                   = Ok (startView g + passIdx)).
  { unfold getFirstViewIndexInMetalPass.
    rewrite (nonzero_eqb _ Hne), Hassert, Hi. cbn [negb bind].
    rewrite <- (Z2Nat.id passIdx) by lia.
    apply (unrolledScan_single_clump 31 _ g); try assumption.
    rewrite Z2Nat.id by lia. lia. }
  split; [exact Hcount |]. split; [exact Hfirst |]. split.
  - unfold getViewMaskGroupForMetalPass.
    rewrite (nonzero_eqb _ Hne), Hassert, Hi, Hfirst. cbn [negb bind].
    f_equal. unfold shl1.
    replace ((0 <=? startView g + passIdx) && (startView g + passIdx <? 32))
      with true by (symmetry; apply andb_true_iff; split;
                    [apply Z.leb_le | apply Z.ltb_lt]; lia).
    apply Z.shiftl_1_l.
  - apply Hin; [lia |]. unfold inRun.
    apply andb_true_iff. split; [apply Z.leb_le | apply Z.ltb_lt]; lia.
Qed.

Lemma unrolled_single_clump_witness :
  let rp := renderPassOf unrolledDevice [subpassInfo 6 [colorRef 0]] in
  let sp := subpassAt rp 0 in
  getMultiviewMetalPassCount rp sp = Ok 2
  /\ getFirstViewIndexInMetalPass false rp sp 1 = Ok (1 + 1)
  /\ getViewMaskGroupForMetalPass false rp sp 1 = Ok (2 ^ (1 + 1))
  /\ Z.testbit (_viewMask sp) (1 + 1) = true.
Proof.
  cbv zeta.
  apply (unrolled_single_clump false
           (renderPassOf unrolledDevice [subpassInfo 6 [colorRef 0]])
           (subpassAt (renderPassOf unrolledDevice [subpassInfo 6 [colorRef 0]]) 0)
           {| restMask := 0; startView := 1; viewCount := 2; groupMask := 6 |} 1).
  - unfold word32, modulus. simpl. lia.
  - simpl. discriminate.
  - reflexivity.
  - reflexivity.
  - reflexivity.
  - simpl. lia.
Defined.

End PartitionExtra.

(** ** The life of an attachment across the subpasses *)

Module Lifecycle.
Import Bits ViewMasks Attachment Examples MoreExamples.

Section Scalar.

Variable kMVKUndefinedLargeUInt32 : Z.
Variable isSupportedOrSubstitutable : Z -> bool.
Variable getMTLPixelFormat : Z -> Z.
Variable getCapabilities : Z -> MVKMTLFmtCaps.

Lemma validateSubpass_last_ge st sp :
  _lastUseSubpassIdx (fst st)
  <= _lastUseSubpassIdx
       (fst (validateSubpass getMTLPixelFormat getCapabilities st sp)).
Proof.
  destruct st as [att r]. unfold validateSubpass.
  destruct (anyCaps _); [| cbn; lia].
  destruct (isMultiview sp); cbn; lia.
Qed.

Lemma validateSubpass_last_user st sp :
  references (_attachmentIndex (fst st)) sp = true ->
  _subpassIndex sp
  <= _lastUseSubpassIdx
       (fst (validateSubpass getMTLPixelFormat getCapabilities st sp)).
Proof.
  destruct st as [att r]. unfold validateSubpass, references. cbn [fst].
  intro Hr. rewrite Hr.
  destruct (isMultiview sp); cbn; lia.
Qed.

Lemma validateSubpass_unreferenced st sp :
  references (_attachmentIndex (fst st)) sp = false ->
  validateSubpass getMTLPixelFormat getCapabilities st sp = st.
Proof.
  destruct st as [att r]. unfold validateSubpass, references. cbn [fst].
  intro Hr. rewrite Hr. reflexivity.
Qed.

Lemma fold_validate_last_ge l : forall st,
  _lastUseSubpassIdx (fst st)
  <= _lastUseSubpassIdx
       (fst (fold_left (validateSubpass getMTLPixelFormat getCapabilities) l st)).
Proof.
  induction l as [| s l IH]; intro st; [cbn; lia |].
  cbn [fold_left].
  pose proof (IH (validateSubpass getMTLPixelFormat getCapabilities st s)).
  pose proof (validateSubpass_last_ge st s). lia.
Qed.

(** The scalar first-use and last-use indices after the loop over the
    subpasses: bounds for every subpass that references the attachment, and
    attainment by some referencing subpass unless they keep their start
    values. *)
Lemma fold_validate_range l : forall st,
  let st' := fold_left (validateSubpass getMTLPixelFormat getCapabilities) l st in
  (forall s, In s l -> references (_attachmentIndex (fst st)) s = true ->
     _firstUseSubpassIdx (fst st') <= _subpassIndex s
     <= _lastUseSubpassIdx (fst st'))
  /\ (_firstUseSubpassIdx (fst st') = _firstUseSubpassIdx (fst st)
      \/ exists s, In s l /\ references (_attachmentIndex (fst st)) s = true
                   /\ _firstUseSubpassIdx (fst st') = _subpassIndex s)
  /\ (_lastUseSubpassIdx (fst st') = _lastUseSubpassIdx (fst st)
      \/ exists s, In s l /\ references (_attachmentIndex (fst st)) s = true
                   /\ _lastUseSubpassIdx (fst st') = _subpassIndex s).
Proof.
  induction l as [| s l IH]; intro st; cbv zeta.
  - cbn. split; [intros s [] |]. split; left; reflexivity.
  - cbn [fold_left].
    set (st1 := validateSubpass getMTLPixelFormat getCapabilities st s).
    specialize (IH st1). cbv zeta in IH.
    assert (Hidx : _attachmentIndex (fst st1) = _attachmentIndex (fst st))
      by apply validateSubpass_index.
    rewrite Hidx in IH. destruct IH as [Hrange [Hfirst Hlast]].
    split; [| split].
    + intros s0 [<- | Hin] Href.
      * pose proof (fold_validate_first_le getMTLPixelFormat getCapabilities l st1).
        pose proof (fold_validate_last_ge l st1).
        pose proof (validateSubpass_first_user getMTLPixelFormat getCapabilities
                      st s Href).
        pose proof (validateSubpass_last_user st s Href).
        fold st1 in H1, H2. lia.
      * apply Hrange; assumption.
    + destruct Hfirst as [E | [s0 [Hin [Href E]]]].
      * rewrite E. destruct (references (_attachmentIndex (fst st)) s) eqn:Href.
        -- unfold st1. destruct st as [att r]. unfold validateSubpass.
           unfold references in Href. cbn [fst] in *. rewrite Href.
           destruct (Z.min_spec (_subpassIndex s) (_firstUseSubpassIdx att))
             as [[_ Em] | [_ Em]].
           ++ right. exists s. split; [left; reflexivity |].
              split; [exact Href |].
              destruct (isMultiview s); cbn; exact Em.
           ++ left. destruct (isMultiview s); cbn; exact Em.
        -- left. unfold st1. rewrite validateSubpass_unreferenced by exact Href.
           reflexivity.
      * right. exists s0. split; [right; exact Hin |]. split; assumption.
    + destruct Hlast as [E | [s0 [Hin [Href E]]]].
      * rewrite E. destruct (references (_attachmentIndex (fst st)) s) eqn:Href.
        -- unfold st1. destruct st as [att r]. unfold validateSubpass.
           unfold references in Href. cbn [fst] in *. rewrite Href.
           destruct (Z.max_spec (_subpassIndex s) (_lastUseSubpassIdx att))
             as [[_ Em] | [_ Em]].
           ++ left. destruct (isMultiview s); cbn; exact Em.
           ++ right. exists s. split; [left; reflexivity |].
              split; [exact Href |].
              destruct (isMultiview s); cbn; exact Em.
        -- left. unfold st1. rewrite validateSubpass_unreferenced by exact Href.
           reflexivity.
      * right. exists s0. split; [right; exact Hin |]. split; assumption.
Qed.

Lemma fold_validate_unreferenced l : forall st,
  (forall s, In s l -> references (_attachmentIndex (fst st)) s = false) ->
  fold_left (validateSubpass getMTLPixelFormat getCapabilities) l st = st.
Proof.
  induction l as [| s l IH]; intros st H; [reflexivity |].
  cbn [fold_left]. rewrite validateSubpass_unreferenced by (apply H; left; reflexivity).
  apply IH. intros s0 Hin. apply H. right. exact Hin.
Qed.

(** The range of subpass indices [validateFormat] records. *)
Lemma validateFormat_range :
  forall (subpasses : list MVKRenderSubpass) (att : MVKRenderPassAttachment)
         (result : Z),
    let att' :=
      fst (validateFormat kMVKUndefinedLargeUInt32 isSupportedOrSubstitutable
             getMTLPixelFormat getCapabilities subpasses att result) in
    let idx := _attachmentIndex att in
    (forall s, In s subpasses -> references idx s = true ->
       _firstUseSubpassIdx att' <= _subpassIndex s <= _lastUseSubpassIdx att')
    /\ ((forall s, In s subpasses -> references idx s = false) ->
        _firstUseSubpassIdx att' = kMVKUndefinedLargeUInt32
        /\ _lastUseSubpassIdx att' = 0
        /\ _firstUseViewMasks att' = _firstUseViewMasks att
        /\ _lastUseViewMasks att' = _lastUseViewMasks att)
    /\ ((exists s, In s subpasses /\ references idx s = true) ->
        (forall s, In s subpasses ->
           0 <= _subpassIndex s <= kMVKUndefinedLargeUInt32) ->
        exists sf sl,
          In sf subpasses /\ In sl subpasses
          /\ references idx sf = true /\ references idx sl = true
          /\ _firstUseSubpassIdx att' = _subpassIndex sf
          /\ _lastUseSubpassIdx att' = _subpassIndex sl).
Proof.
  intros subpasses att result att' idx. unfold att', validateFormat.
  set (st0 := (_, _)).
  assert (Hidx : _attachmentIndex (fst st0) = idx) by reflexivity.
  assert (Hf0 : _firstUseSubpassIdx (fst st0) = kMVKUndefinedLargeUInt32)
    by reflexivity.
  assert (Hl0 : _lastUseSubpassIdx (fst st0) = 0) by reflexivity.
  assert (Hv0 : _firstUseViewMasks (fst st0) = _firstUseViewMasks att
                /\ _lastUseViewMasks (fst st0) = _lastUseViewMasks att)
    by (split; reflexivity).
  clearbody st0.
  destruct (fold_validate_range subpasses st0) as [Hrange [Hfirst Hlast]].
  rewrite Hidx, Hf0 in *. rewrite Hl0 in Hlast.
  split; [exact Hrange |]. split.
  - intro Hnone. rewrite fold_validate_unreferenced
      by (rewrite Hidx; exact Hnone).
    rewrite Hf0, Hl0. destruct Hv0. repeat split; assumption.
  - intros [s [Hin Href]] Hbounds.
    pose proof (Hrange s Hin Href) as Hs. pose proof (Hbounds s Hin) as Hb.
    assert (Hsf : exists sf, In sf subpasses /\ references idx sf = true
                  /\ _firstUseSubpassIdx
                       (fst (fold_left
                               (validateSubpass getMTLPixelFormat getCapabilities)
                               subpasses st0)) = _subpassIndex sf).
    { destruct Hfirst as [E | H]; [| exact H].
      exists s. repeat split; try assumption. lia. }
    assert (Hsl : exists sl, In sl subpasses /\ references idx sl = true
                  /\ _lastUseSubpassIdx
                       (fst (fold_left
                               (validateSubpass getMTLPixelFormat getCapabilities)
                               subpasses st0)) = _subpassIndex sl).
    { destruct Hlast as [E | H]; [| exact H].
      exists s. repeat split; try assumption. lia. }
    destruct Hsf as [sf [? [? ?]]], Hsl as [sl [? [? ?]]].
    exists sf, sl. repeat split; assumption.
Qed.

(** X6: after [validateFormat], every subpass that references the attachment
    has its index between the first-use and the last-use index; an attachment
    no subpass references keeps the start values and its vectors; and when
    some subpass references it, the two indices are those of referencing
    subpasses. *)
Theorem validateFormat_use_range :
  forall (subpasses : list MVKRenderSubpass) (att : MVKRenderPassAttachment)
         (result : Z),
    let att' :=
      fst (validateFormat kMVKUndefinedLargeUInt32 isSupportedOrSubstitutable
             getMTLPixelFormat getCapabilities subpasses att result) in
    let idx := _attachmentIndex att in
    (forall s, In s subpasses -> references idx s = true ->
       _firstUseSubpassIdx att' <= _subpassIndex s <= _lastUseSubpassIdx att')
    /\ ((forall s, In s subpasses -> references idx s = false) ->
        _firstUseSubpassIdx att' = kMVKUndefinedLargeUInt32
        /\ _lastUseSubpassIdx att' = 0
        /\ _firstUseViewMasks att' = _firstUseViewMasks att
        /\ _lastUseViewMasks att' = _lastUseViewMasks att)
    /\ ((exists s, In s subpasses /\ references idx s = true) ->
        (forall s, In s subpasses ->
           0 <= _subpassIndex s <= kMVKUndefinedLargeUInt32) ->
        exists sf sl,
          In sf subpasses /\ In sl subpasses
          /\ references idx sf = true /\ references idx sl = true
          /\ _firstUseSubpassIdx att' = _subpassIndex sf
          /\ _lastUseSubpassIdx att' = _subpassIndex sl).
Proof.
  exact validateFormat_range.
Qed.

(** X8: in a render pass whose subpasses carry their positions as indices, a
    subpass that is not multiview is the first use of an attachment exactly
    when it references the attachment and no earlier subpass does, and, for an
    attachment that some subpass references, the last use exactly when it
    references the attachment and no later subpass does. *)
Theorem non_multiview_first_last_use :
  forall (subpasses : list MVKRenderSubpass) (att : MVKRenderPassAttachment)
         (result : Z) (i : nat) (sp : MVKRenderSubpass),
    (forall j s, nth_error subpasses j = Some s -> _subpassIndex s = Z.of_nat j) ->
    Z.of_nat (length subpasses) <= kMVKUndefinedLargeUInt32 ->
    nth_error subpasses i = Some sp ->
    isMultiview sp = false ->
    let att' :=
      fst (validateFormat kMVKUndefinedLargeUInt32 isSupportedOrSubstitutable
             getMTLPixelFormat getCapabilities subpasses att result) in
    let idx := _attachmentIndex att in
    (isFirstUseOfAttachment att' sp = Ok true
     <-> references idx sp = true
         /\ forall j s, (j < i)%nat -> nth_error subpasses j = Some s ->
                        references idx s = false)
    /\ ((exists s, In s subpasses /\ references idx s = true) ->
        (isLastUseOfAttachment att' sp = Ok true
         <-> references idx sp = true
             /\ forall j s, (i < j)%nat -> nth_error subpasses j = Some s ->
                            references idx s = false)).
Proof.
  intros subpasses att result i sp Hpos Hk Hi Hmv att' idx.
  pose proof (Hpos i sp Hi) as Hidx.
  assert (Hilt : (i < length subpasses)%nat)
    by (apply nth_error_Some; congruence).
  assert (Hbounds : forall s, In s subpasses ->
                      0 <= _subpassIndex s <= kMVKUndefinedLargeUInt32).
  { intros s Hin. destruct (In_nth_error _ _ Hin) as [j Hj].
    rewrite (Hpos j s Hj).
    assert ((j < length subpasses)%nat) by (apply nth_error_Some; congruence).
    lia. }
  destruct (validateFormat_range subpasses att result)
    as [Hrange [_ Hatt]].
  fold att' idx in Hrange, Hatt.
  unfold isFirstUseOfAttachment, isLastUseOfAttachment. rewrite Hmv.
  assert (Hsame : forall j s, nth_error subpasses j = Some s ->
                    _subpassIndex s = Z.of_nat i -> s = sp /\ j = i).
  { intros j s Hj E. rewrite (Hpos j s Hj) in E.
    assert (j = i) by lia. subst j. split; congruence. }
  split.
  - split.
    + intro H. injection H as H. apply Z.eqb_eq in H.
      assert (Hex : exists s, In s subpasses /\ references idx s = true).
      { destruct (references idx sp) eqn:Href;
          [exists sp; split; [eapply nth_error_In; exact Hi | exact Href] |].
        exfalso.
        destruct (validateFormat_range subpasses att result)
          as [_ [Hnone _]].
        fold att' idx in Hnone.
        destruct (Forall_Exists_dec (fun s => references idx s = false)
                    (fun s => bool_dec (references idx s) false) subpasses)
          as [Hall | Hsome].
        - rewrite Forall_forall in Hall. destruct (Hnone Hall) as [E _]. lia.
        - apply Exists_exists in Hsome. destruct Hsome as [s [Hin Hs]].
          apply not_false_is_true in Hs.
          pose proof (Hrange s Hin Hs). pose proof (Hbounds s Hin).
          destruct (Hatt (ex_intro _ s (conj Hin Hs)) Hbounds)
            as [sf [_ [Hinf [_ [Hreff [_ [Ef _]]]]]]].
          destruct (In_nth_error _ _ Hinf) as [j Hj].
          destruct (Hsame j sf Hj ltac:(lia)) as [-> _]. congruence. }
      destruct (Hatt Hex Hbounds) as [sf [_ [Hinf [_ [Hreff [_ [Ef _]]]]]]].
      destruct (In_nth_error _ _ Hinf) as [j Hj].
      destruct (Hsame j sf Hj ltac:(lia)) as [-> _].
      split; [exact Hreff |].
      intros j' s Hlt Hj'. destruct (references idx s) eqn:Hs; [| reflexivity].
      pose proof (Hrange s (nth_error_In _ _ Hj') Hs).
      rewrite (Hpos j' s Hj') in *. lia.
    + intros [Href Hnone]. f_equal. apply Z.eqb_eq.
      pose proof (Hrange sp (nth_error_In _ _ Hi) Href).
      destruct (Hatt (ex_intro _ sp (conj (nth_error_In _ _ Hi) Href)) Hbounds)
        as [sf [_ [Hinf [_ [Hreff [_ [Ef _]]]]]]].
      destruct (In_nth_error _ _ Hinf) as [j Hj].
      rewrite (Hpos j sf Hj) in Ef.
      destruct (Nat.lt_ge_cases j i) as [Hlt | Hge].
      * rewrite (Hnone j sf Hlt Hj) in Hreff. discriminate Hreff.
      * lia.
  - intros Hex.
    destruct (Hatt Hex Hbounds) as [_ [sl [_ [Hinl [_ [Hrefl [_ El]]]]]]].
    destruct (In_nth_error _ _ Hinl) as [j Hj].
    split.
    + intro H. injection H as H. apply Z.eqb_eq in H.
      destruct (Hsame j sl Hj ltac:(lia)) as [-> _].
      split; [exact Hrefl |].
      intros j' s Hlt Hj'. destruct (references idx s) eqn:Hs; [| reflexivity].
      pose proof (Hrange s (nth_error_In _ _ Hj') Hs).
      rewrite (Hpos j' s Hj') in *. lia.
    + intros [Href Hnone]. f_equal. apply Z.eqb_eq.
      pose proof (Hrange sp (nth_error_In _ _ Hi) Href).
      rewrite (Hpos j sl Hj) in El.
      destruct (Nat.lt_ge_cases i j) as [Hlt | Hge].
      * rewrite (Hnone j sl Hlt Hj) in Hrefl. discriminate Hrefl.
      * lia.
Qed.

End Scalar.

Section Construction.

Variable kMVKUndefinedLargeUInt32 : Z.
Variable isSupportedOrSubstitutable : Z -> bool.
Variable getMTLPixelFormat : Z -> Z.
Variable getCapabilities : Z -> MVKMTLFmtCaps.

Lemma addSubpass_fold infos : forall acc,
  let l := fold_left addSubpass infos acc in
  length l = (length acc + length infos)%nat
  /\ (forall j, (j < length acc)%nat -> nth_error l j = nth_error acc j)
  /\ (forall j info, nth_error infos j = Some info ->
        nth_error l (length acc + j)
        = Some (MVKRenderSubpass_new (u32 (Z.of_nat (length acc + j))) info)).
Proof.
  induction infos as [| info infos IH]; intro acc; cbv zeta.
  - cbn. split; [lia |]. split; [reflexivity |].
    intros j i H. destruct j; discriminate H.
  - cbn [fold_left length]. specialize (IH (addSubpass acc info)).
    cbv zeta in IH. destruct IH as [Hlen [Hold Hnew]].
    assert (Hl : length (addSubpass acc info) = S (length acc))
      by (unfold addSubpass; rewrite length_app; cbn [length]; lia).
    rewrite Hl in Hlen, Hold, Hnew.
    split; [lia |]. split.
    + intros j Hj. rewrite Hold by lia. apply nth_error_app1. exact Hj.
    + intros [| j] i Hj.
      * cbn in Hj. injection Hj as <-. rewrite Nat.add_0_r.
        rewrite Hold by lia. unfold addSubpass.
        rewrite nth_error_app2 by lia. rewrite Nat.sub_diag. reflexivity.
      * cbn in Hj. specialize (Hnew j i Hj).
        replace (length acc + S j)%nat with (S (length acc) + j)%nat by lia.
        exact Hnew.
Qed.

Lemma validateSubpass_info st sp :
  _info (fst (validateSubpass getMTLPixelFormat getCapabilities st sp))
  = _info (fst st).
Proof.
  destruct st as [att r]. unfold validateSubpass.
  destruct (anyCaps _); [| reflexivity].
  destruct (isMultiview sp); reflexivity.
Qed.

Lemma validateFormat_info_index subpasses att r :
  let att' :=
    fst (validateFormat kMVKUndefinedLargeUInt32 isSupportedOrSubstitutable
           getMTLPixelFormat getCapabilities subpasses att r) in
  _info att' = _info att /\ _attachmentIndex att' = _attachmentIndex att.
Proof.
  cbv zeta. unfold validateFormat. set (st0 := (_, _)).
  assert (H0 : _info (fst st0) = _info att
               /\ _attachmentIndex (fst st0) = _attachmentIndex att)
    by (split; reflexivity).
  clearbody st0. revert st0 H0.
  induction subpasses as [| s l IH]; intros st0 H0; [exact H0 |].
  cbn [fold_left]. apply IH.
  rewrite validateSubpass_info, (validateSubpass_index getMTLPixelFormat).
  exact H0.
Qed.

Lemma addAttachment_fold subpasses infos : forall acc r,
  let st := fold_left (addAttachment kMVKUndefinedLargeUInt32
                         isSupportedOrSubstitutable getMTLPixelFormat
                         getCapabilities subpasses) infos (acc, r) in
  length (fst st) = (length acc + length infos)%nat
  /\ (forall j, (j < length acc)%nat -> nth_error (fst st) j = nth_error acc j)
  /\ (forall j info, nth_error infos j = Some info ->
        exists r',
          nth_error (fst st) (length acc + j)
          = Some (fst (MVKRenderPassAttachment_new kMVKUndefinedLargeUInt32
                         isSupportedOrSubstitutable getMTLPixelFormat
                         getCapabilities subpasses
                         (u32 (Z.of_nat (length acc + j))) info r'))).
Proof.
  induction infos as [| info infos IH]; intros acc r; cbv zeta.
  - cbn. split; [lia |]. split; [reflexivity |].
    intros j i H. destruct j; discriminate H.
  - cbn [fold_left].
    assert (Estep :
              addAttachment kMVKUndefinedLargeUInt32 isSupportedOrSubstitutable
                getMTLPixelFormat getCapabilities subpasses (acc, r) info
              = (acc ++ [fst (MVKRenderPassAttachment_new kMVKUndefinedLargeUInt32
                               isSupportedOrSubstitutable getMTLPixelFormat
                               getCapabilities subpasses
                               (u32 (Z.of_nat (length acc))) info r)],
                 snd (MVKRenderPassAttachment_new kMVKUndefinedLargeUInt32
                        isSupportedOrSubstitutable getMTLPixelFormat
                        getCapabilities subpasses
                        (u32 (Z.of_nat (length acc))) info r))).
    { unfold addAttachment. destruct (MVKRenderPassAttachment_new _ _ _ _ _ _ _ _).
      reflexivity. }
    rewrite Estep.
    match goal with
    | |- context [fold_left _ infos (?a, ?b)] => specialize (IH a b)
    end.
    cbv zeta in IH. destruct IH as [Hlen [Hold Hnew]].
    rewrite length_app in Hlen, Hold, Hnew. cbn [length] in Hlen, Hold, Hnew.
    cbn [length]. split; [lia |]. split.
    + intros j Hj. rewrite Hold by lia. apply nth_error_app1. exact Hj.
    + intros [| j] i Hj.
      * cbn in Hj. injection Hj as <-. rewrite Nat.add_0_r.
        exists r. rewrite Hold by lia.
        rewrite nth_error_app2 by lia. rewrite Nat.sub_diag. reflexivity.
      * cbn in Hj. destruct (Hnew j i Hj) as [r' Hr'].
        exists r'.
        replace (length acc + S j)%nat with (length acc + 1 + j)%nat by lia.
        exact Hr'.
Qed.

(** X7: the render pass built from [VkRenderPassCreateInfo2] has one subpass
    and one attachment per description, in order; each carries its position as
    its index, so [getSubpass] at a subpass's own index finds that subpass;
    each attachment keeps its description and is the result of validating a
    fresh attachment against the finished list of subpasses. *)
Theorem MVKRenderPass_new_indices :
  forall (device : MVKDevice) (pCreateInfo : VkRenderPassCreateInfo2),
    Z.of_nat (length (pSubpasses pCreateInfo)) <= modulus ->
    Z.of_nat (length (pAttachments pCreateInfo)) <= modulus ->
    let rp := MVKRenderPass_new kMVKUndefinedLargeUInt32
                isSupportedOrSubstitutable getMTLPixelFormat getCapabilities
                device pCreateInfo in
    _device rp = device
    /\ length (_subpasses rp) = length (pSubpasses pCreateInfo)
    /\ length (_attachments rp) = length (pAttachments pCreateInfo)
    /\ (forall j sp, nth_error (_subpasses rp) j = Some sp ->
          _subpassIndex sp = Z.of_nat j
          /\ getSubpass rp (_subpassIndex sp) = Ok sp
          /\ exists info, nth_error (pSubpasses pCreateInfo) j = Some info
                          /\ sp = MVKRenderSubpass_new (Z.of_nat j) info)
    /\ (forall j att, nth_error (_attachments rp) j = Some att ->
          _attachmentIndex att = Z.of_nat j
          /\ exists info r,
               nth_error (pAttachments pCreateInfo) j = Some info
               /\ _info att = info
               /\ att = fst (MVKRenderPassAttachment_new kMVKUndefinedLargeUInt32
                               isSupportedOrSubstitutable getMTLPixelFormat
                               getCapabilities (_subpasses rp) (Z.of_nat j)
                               info r)).
Proof.
  intros device ci Hs Ha rp. unfold rp, MVKRenderPass_new.
  set (subpasses := fold_left addSubpass (pSubpasses ci) []).
  destruct (addSubpass_fold (pSubpasses ci) []) as [Hlen [_ Hnew]].
  fold subpasses in Hlen, Hnew. cbn [length Nat.add] in Hlen, Hnew.
  destruct (addAttachment_fold subpasses (pAttachments ci) [] VK_SUCCESS)
    as [Halen [_ Hanew]].
  cbn [length Nat.add] in Halen, Hanew.
  destruct (fold_left _ (pAttachments ci) ([], VK_SUCCESS))
    as [attachments result].
  cbn [fst _device _subpasses _attachments] in *.
  split; [reflexivity |]. split; [exact Hlen |]. split; [exact Halen |]. split.
  - intros j sp Hj.
    assert (Hjlt : (j < length (pSubpasses ci))%nat)
      by (rewrite <- Hlen; apply nth_error_Some; congruence).
    destruct (nth_error (pSubpasses ci) j) as [info |] eqn:Ei;
      [| apply nth_error_None in Ei; lia].
    pose proof (Hnew j info Ei) as Hsp. rewrite Hj in Hsp. injection Hsp as ->.
    rewrite (u32_small (Z.of_nat j)) by (unfold word32; lia).
    split; [reflexivity |]. split.
    + unfold getSubpass, at_. cbn [_subpasses _subpassIndex MVKRenderSubpass_new].
      rewrite Nat2Z.id, Hj.
      rewrite (u32_small (Z.of_nat j)) by (unfold word32; lia). reflexivity.
    + exists info. split; reflexivity.
  - intros j att Hj.
    assert (Hjlt : (j < length (pAttachments ci))%nat)
      by (rewrite <- Halen; apply nth_error_Some; congruence).
    destruct (nth_error (pAttachments ci) j) as [info |] eqn:Ei;
      [| apply nth_error_None in Ei; lia].
    destruct (Hanew j info Ei) as [r Hr]. rewrite Hj in Hr. injection Hr as ->.
    rewrite (u32_small (Z.of_nat j)) by (unfold word32; lia).
    unfold MVKRenderPassAttachment_new.
    destruct (validateFormat_info_index subpasses
                {| _info := info; _attachmentIndex := Z.of_nat j;
                   _firstUseSubpassIdx := 0; _lastUseSubpassIdx := 0;
                   _firstUseViewMasks := []; _lastUseViewMasks := [] |} r)
      as [Hinfo Hindex].
    split; [exact Hindex |]. exists info, r.
    split; [reflexivity |]. split; [exact Hinfo | reflexivity].
Qed.

End Construction.

Lemma nth_map_seq {A : Type} (f : nat -> A) (n k : nat) (d : A) :
  (k < n)%nat -> nth k (map f (seq 0 n)) d = f k.
Proof.
  intro Hk. rewrite (nth_indep _ d (f 0%nat))
    by (rewrite length_map, length_seq; exact Hk).
  rewrite map_nth, seq_nth by exact Hk. reflexivity.
Qed.

Lemma land_not32_self v u :
  word32 v -> (Z.land v (not32 u) = v <-> Z.land v u = 0).
Proof.
  intro Hv. split; intro H; apply Z.bits_inj'; intros i Hi.
  - rewrite Z.land_spec, Z.bits_0.
    assert (Hb : Z.testbit (Z.land v (not32 u)) i = Z.testbit v i)
      by (rewrite H; reflexivity).
    rewrite Z.land_spec, not32_bits in Hb by exact Hi.
    destruct (Z.testbit v i), (Z.testbit u i), (i <? 32);
      try reflexivity; discriminate Hb.
  - assert (Hb : Z.testbit (Z.land v u) i = false)
      by (rewrite H; apply Z.bits_0).
    rewrite Z.land_spec in Hb. rewrite Z.land_spec, not32_bits by exact Hi.
    destruct (Z.ltb_spec i 32) as [Hlt | Hge].
    + destruct (Z.testbit v i), (Z.testbit u i); try reflexivity; discriminate Hb.
    + rewrite (word32_high v i Hv Hge). reflexivity.
Qed.

Section Vectors.

Variable kMVKUndefinedLargeUInt32 : Z.
Variable isSupportedOrSubstitutable : Z -> bool.
Variable getMTLPixelFormat : Z -> Z.
Variable getCapabilities : Z -> MVKMTLFmtCaps.

(** X9: the first-use view masks [validateFormat] builds for an attachment
    hold one mask per multiview subpass that references it, in order; mask
    [k] has exactly the views that the [k]-th such subpass has and no earlier
    one has, and no two masks share a view. *)
Theorem first_use_view_masks :
  forall (subpasses : list MVKRenderSubpass) (att : MVKRenderPassAttachment)
         (result : Z),
    Forall (fun sp => word32 (_viewMask sp)) subpasses ->
    _firstUseViewMasks att = [] -> _lastUseViewMasks att = [] ->
    let first :=
      _firstUseViewMasks
        (fst (validateFormat kMVKUndefinedLargeUInt32 isSupportedOrSubstitutable
                getMTLPixelFormat getCapabilities subpasses att result)) in
    let masks := map _viewMask (multiviewUsers (_attachmentIndex att) subpasses) in
    length first = length masks
    /\ (forall (k : nat) i,
          (k < length masks)%nat -> 0 <= i < 32 ->
          (Z.testbit (nth k first 0) i = true
           <-> Z.testbit (nth k masks 0) i = true
               /\ forall j, (j < k)%nat -> Z.testbit (nth j masks 0) i = false))
    /\ (forall j k : nat,
          (j < length masks)%nat -> (k < length masks)%nat -> j <> k ->
          Z.land (nth j first 0) (nth k first 0) = 0).
Proof.
  intros subpasses att result Hw Hf Hl first masks.
  destruct (validateFormat_view_masks kMVKUndefinedLargeUInt32
              isSupportedOrSubstitutable getMTLPixelFormat getCapabilities
              subpasses att result Hw Hf Hl) as [Efirst _].
  fold first masks in Efirst. rewrite Efirst.
  split; [rewrite length_map, length_seq; reflexivity |]. split.
  - intros k i Hk Hi. rewrite nth_map_seq by exact Hk.
    apply introducedAt_earliest. exact Hi.
  - intros j k Hj Hk Hne. rewrite !nth_map_seq by assumption.
    apply introducedAt_disjoint. exact Hne.
Qed.

(** X10: the last-use view masks likewise: mask [k] has exactly the views that
    the [k]-th multiview subpass referencing the attachment has and no later
    one has, and no two masks share a view. *)
Theorem last_use_view_masks :
  forall (subpasses : list MVKRenderSubpass) (att : MVKRenderPassAttachment)
         (result : Z),
    Forall (fun sp => word32 (_viewMask sp)) subpasses ->
    _firstUseViewMasks att = [] -> _lastUseViewMasks att = [] ->
    let last :=
      _lastUseViewMasks
        (fst (validateFormat kMVKUndefinedLargeUInt32 isSupportedOrSubstitutable
                getMTLPixelFormat getCapabilities subpasses att result)) in
    let masks := map _viewMask (multiviewUsers (_attachmentIndex att) subpasses) in
    length last = length masks
    /\ (forall (k : nat) i,
          (k < length masks)%nat -> 0 <= i < 32 ->
          (Z.testbit (nth k last 0) i = true
           <-> Z.testbit (nth k masks 0) i = true
               /\ forall j, (k < j)%nat -> Z.testbit (nth j masks 0) i = false))
    /\ (forall j k : nat,
          (j < length masks)%nat -> (k < length masks)%nat -> j <> k ->
          Z.land (nth j last 0) (nth k last 0) = 0).
Proof.
  intros subpasses att result Hw Hf Hl last masks.
  destruct (validateFormat_view_masks kMVKUndefinedLargeUInt32
              isSupportedOrSubstitutable getMTLPixelFormat getCapabilities
              subpasses att result Hw Hf Hl) as [_ Elast].
  fold last masks in Elast. rewrite Elast.
  split; [rewrite length_map, length_seq; reflexivity |]. split.
  - intros k i Hk Hi. rewrite nth_map_seq by exact Hk.
    apply retiredAt_latest. exact Hi.
  - intros j k Hj Hk Hne. rewrite !nth_map_seq by assumption.
    apply retiredAt_disjoint. exact Hne.
Qed.

Lemma filter_all {A : Type} (f : A -> bool) (l : list A) :
  (forall x, In x l -> f x = true) -> filter f l = l.
Proof.
  induction l as [| a l IH]; intro H; [reflexivity |].
  cbn [filter]. rewrite (H a (or_introl eq_refl)).
  f_equal. apply IH. intros x Hx. apply H. right. exact Hx.
Qed.

(** X11: in a multiview render pass all of whose subpasses reference the
    attachment and carry their positions as indices, a subpass is the first
    use of the attachment exactly when it shares no view with an earlier
    subpass, and the last use exactly when it shares no view with a later
    one. *)
Theorem multiview_first_last_use :
  forall (subpasses : list MVKRenderSubpass) (att : MVKRenderPassAttachment)
         (result : Z) (i : nat) (sp : MVKRenderSubpass),
    Forall (fun s => word32 (_viewMask s)) subpasses ->
    (forall s, In s subpasses ->
       isMultiview s = true /\ references (_attachmentIndex att) s = true) ->
    (forall j s, nth_error subpasses j = Some s -> _subpassIndex s = Z.of_nat j) ->
    _firstUseViewMasks att = [] -> _lastUseViewMasks att = [] ->
    nth_error subpasses i = Some sp ->
    let att' :=
      fst (validateFormat kMVKUndefinedLargeUInt32 isSupportedOrSubstitutable
             getMTLPixelFormat getCapabilities subpasses att result) in
    let masks := map _viewMask subpasses in
    (isFirstUseOfAttachment att' sp = Ok true
     <-> Z.land (_viewMask sp) (unionOf (firstn i masks)) = 0)
    /\ (isLastUseOfAttachment att' sp = Ok true
        <-> Z.land (_viewMask sp) (unionOf (skipn (S i) masks)) = 0).
Proof.
  intros subpasses att result i sp Hw Hall Hpos Hf Hl Hi att' masks.
  destruct (validateFormat_view_masks kMVKUndefinedLargeUInt32
              isSupportedOrSubstitutable getMTLPixelFormat getCapabilities
              subpasses att result Hw Hf Hl) as [Efirst Elast].
  assert (Eusers : multiviewUsers (_attachmentIndex att) subpasses = subpasses).
  { apply filter_all. intros s Hs. destruct (Hall s Hs) as [-> ->]. reflexivity. }
  rewrite Eusers in Efirst, Elast. fold att' masks in Efirst, Elast.
  assert (Hilt : (i < length masks)%nat).
  { unfold masks. rewrite length_map. apply nth_error_Some. congruence. }
  assert (Evm : nth i masks 0 = _viewMask sp).
  { unfold masks in *. rewrite (nth_indep _ 0 (_viewMask sp)) by exact Hilt.
    rewrite map_nth. apply f_equal. apply nth_error_nth. exact Hi. }
  assert (Hwsp : word32 (_viewMask sp)).
  { rewrite Forall_forall in Hw. apply Hw. eapply nth_error_In. exact Hi. }
  destruct (Hall sp (nth_error_In _ _ Hi)) as [Hmv _].
  unfold isFirstUseOfAttachment, isLastUseOfAttachment, at_.
  rewrite Hmv, (Hpos i sp Hi), Nat2Z.id, Efirst, Elast.
  rewrite !(nth_error_nth' _ 0) by (rewrite length_map, length_seq; exact Hilt).
  rewrite !nth_map_seq by exact Hilt. cbn [bind].
  unfold introducedAt, retiredAt. rewrite Evm.
  split; (split; intro H;
          [ injection H as H; apply Z.eqb_eq in H;
            apply (land_not32_self _ _ Hwsp); exact H
          | f_equal; apply Z.eqb_eq; apply (land_not32_self _ _ Hwsp); exact H ]).
Qed.

End Vectors.

Section Result.

Variable kMVKUndefinedLargeUInt32 : Z.
Variable isSupportedOrSubstitutable : Z -> bool.
Variable getMTLPixelFormat : Z -> Z.
Variable getCapabilities : Z -> MVKMTLFmtCaps.

Lemma allFlags_lenient (avail req : MVKMTLFmtCaps) :
  mvkAreAllFlagsEnabled
    {| capsRead := capsRead avail; capsColorAtt := capsColorAtt avail;
       capsResolve := true; capsDSAtt := capsDSAtt avail |} req = true
  <-> (capsRead req = true -> capsRead avail = true)
      /\ (capsColorAtt req = true -> capsColorAtt avail = true)
      /\ (capsDSAtt req = true -> capsDSAtt avail = true).
Proof.
  unfold mvkAreAllFlagsEnabled. cbn [capsRead capsColorAtt capsResolve capsDSAtt].
  destruct (capsRead req), (capsColorAtt req), (capsResolve req), (capsDSAtt req),
    (capsRead avail), (capsColorAtt avail), (capsDSAtt avail);
    cbn; intuition discriminate.
Qed.

Lemma not_any_suffices att s :
  anyCaps (getRequiredFormatCapabilitiesForAttachmentAt s (_attachmentIndex att))
  = false ->
  capabilitiesSuffice getMTLPixelFormat getCapabilities att s.
Proof.
  unfold anyCaps, capabilitiesSuffice. cbv zeta.
  destruct (capsRead _), (capsColorAtt _), (capsResolve _), (capsDSAtt _);
    cbn; intuition discriminate.
Qed.

Lemma validateSubpass_result att r s :
  let st' := validateSubpass getMTLPixelFormat getCapabilities (att, r) s in
  _info (fst st') = _info att
  /\ _attachmentIndex (fst st') = _attachmentIndex att
  /\ (snd st' = r \/ snd st' = VK_ERROR_FORMAT_NOT_SUPPORTED)
  /\ (snd st' = VK_SUCCESS
      <-> r = VK_SUCCESS
          /\ capabilitiesSuffice getMTLPixelFormat getCapabilities att s).
Proof.
  cbv zeta. unfold validateSubpass.
  destruct (anyCaps _) eqn:Hany.
  - assert (Hshape : forall (masks : list Z * list Z),
               let st' :=
                 (let '(firstMasks, lastMasks) := masks in
                  ({| _info := _info att;
                      _attachmentIndex := _attachmentIndex att;
                      _firstUseSubpassIdx :=
                        Z.min (_subpassIndex s) (_firstUseSubpassIdx att);
                      _lastUseSubpassIdx :=
                        Z.max (_subpassIndex s) (_lastUseSubpassIdx att);
                      _firstUseViewMasks := firstMasks;
                      _lastUseViewMasks := lastMasks |},
                   if mvkAreAllFlagsEnabled
                        {| capsRead :=
                             capsRead (getCapabilities
                                         (getMTLPixelFormat (format (_info att))));
                           capsColorAtt :=
                             capsColorAtt (getCapabilities
                                             (getMTLPixelFormat (format (_info att))));
                           capsResolve := true;
                           capsDSAtt :=
                             capsDSAtt (getCapabilities
                                          (getMTLPixelFormat (format (_info att)))) |}
                        (getRequiredFormatCapabilitiesForAttachmentAt s
                           (_attachmentIndex att))
                   then r else VK_ERROR_FORMAT_NOT_SUPPORTED)) in
               _info (fst st') = _info att
               /\ _attachmentIndex (fst st') = _attachmentIndex att
               /\ (snd st' = r \/ snd st' = VK_ERROR_FORMAT_NOT_SUPPORTED)
               /\ (snd st' = VK_SUCCESS
                   <-> r = VK_SUCCESS
                       /\ capabilitiesSuffice getMTLPixelFormat getCapabilities
                            att s)).
    { intros [fm lm]. cbv zeta. cbn [fst snd _info _attachmentIndex].
      split; [reflexivity |]. split; [reflexivity |].
      pose proof (allFlags_lenient
                    (getCapabilities (getMTLPixelFormat (format (_info att))))
                    (getRequiredFormatCapabilitiesForAttachmentAt s
                       (_attachmentIndex att))) as Hl.
      destruct (mvkAreAllFlagsEnabled _ _).
      - split; [left; reflexivity |].
        split; [intro H; split; [exact H | apply Hl; reflexivity] | tauto].
      - split; [right; reflexivity |].
        split; [discriminate |].
        intros [_ Hs]. apply Hl in Hs. discriminate Hs. }
    apply Hshape.
  - cbn [fst snd]. split; [reflexivity |]. split; [reflexivity |].
    split; [left; reflexivity |].
    split; [intro H; split; [exact H | apply not_any_suffices; exact Hany] | tauto].
Qed.

Lemma fold_validate_result l : forall att r,
  let st' := fold_left (validateSubpass getMTLPixelFormat getCapabilities) l
               (att, r) in
  (snd st' = r \/ snd st' = VK_ERROR_FORMAT_NOT_SUPPORTED)
  /\ (snd st' = VK_SUCCESS
      <-> r = VK_SUCCESS
          /\ forall s, In s l ->
               capabilitiesSuffice getMTLPixelFormat getCapabilities att s).
Proof.
  induction l as [| s l IH]; intros att r; cbv zeta.
  - cbn. split; [left; reflexivity |]. split; [intro H; split; [exact H | intros s0 []] | tauto].
  - cbn [fold_left].
    destruct (validateSubpass_result att r s) as [Hinfo [Hidx [Hone Hiff]]].
    destruct (validateSubpass getMTLPixelFormat getCapabilities (att, r) s)
      as [att1 r1]. cbn [fst snd] in *.
    destruct (IH att1 r1) as [Hone' Hiff'].
    assert (Hsame : forall s0,
               capabilitiesSuffice getMTLPixelFormat getCapabilities att1 s0
               <-> capabilitiesSuffice getMTLPixelFormat getCapabilities att s0)
      by (intro s0; unfold capabilitiesSuffice; rewrite Hinfo, Hidx; tauto).
    split.
    + destruct Hone' as [-> | ->]; [exact Hone | right; reflexivity].
    + rewrite Hiff', Hiff. split.
      * intros [[Hr Hs] Hrest]. split; [exact Hr |].
        intros s0 [<- | Hin]; [exact Hs | apply Hsame, Hrest, Hin].
      * intros [Hr Hall]. split; [split; [exact Hr | apply Hall; left; reflexivity] |].
        intros s0 Hin. apply Hsame, Hall. right. exact Hin.
Qed.

(** X12: the configuration result after [validateFormat] is success exactly
    when it was success before, the format is supported or substitutable, and
    every subpass finds the capabilities it needs, the resolve capability not
    counted; otherwise it is the result from before or
    [VK_ERROR_FORMAT_NOT_SUPPORTED]. *)
Theorem validateFormat_result :
  forall (subpasses : list MVKRenderSubpass) (att : MVKRenderPassAttachment)
         (result : Z),
    let result' :=
      snd (validateFormat kMVKUndefinedLargeUInt32 isSupportedOrSubstitutable
             getMTLPixelFormat getCapabilities subpasses att result) in
    (result' = VK_SUCCESS
     <-> result = VK_SUCCESS
         /\ isSupportedOrSubstitutable (format (_info att)) = true
         /\ forall s, In s subpasses -> capabilitiesSuffice getMTLPixelFormat getCapabilities att s)
    /\ (result' = result \/ result' = VK_ERROR_FORMAT_NOT_SUPPORTED).
Proof.
  intros subpasses att result result'. unfold result', validateFormat.
  match goal with
  | |- context [fold_left _ subpasses (?a, ?r)] =>
      destruct (fold_validate_result subpasses a r) as [Hone Hiff];
      assert (Hsame : forall s,
                 capabilitiesSuffice getMTLPixelFormat getCapabilities a s
                 <-> capabilitiesSuffice getMTLPixelFormat getCapabilities att s)
        by (intro s; unfold capabilitiesSuffice; cbn; tauto)
  end.
  split.
  - rewrite Hiff.
    destruct (isSupportedOrSubstitutable (format (_info att))).
    + split.
      * intros [Hr Hall]. split; [exact Hr |]. split; [reflexivity |].
        intros s0 Hin. apply Hsame, Hall, Hin.
      * intros [Hr [_ Hall]]. split; [exact Hr |].
        intros s0 Hin. apply Hsame, Hall, Hin.
    + split; [intros [H _]; discriminate H | intros [_ [H _]]; discriminate H].
  - destruct Hone as [-> | ->]; [| right; reflexivity].
    destruct (isSupportedOrSubstitutable (format (_info att)));
      [left | right]; reflexivity.
Qed.

End Result.

(** X13: a subpass that is the first use of an attachment is one for which
    [shouldClearAttachment] holds whenever the declared load-op is Clear. *)
Theorem first_use_should_clear :
  forall (att : MVKRenderPassAttachment) (subpass : MVKRenderSubpass)
         (isStencil : bool),
    isFirstUseOfAttachment att subpass = Ok true ->
    shouldClearAttachment att subpass isStencil
    = Ok (VkAttachmentLoadOp_eqb
            (if isStencil then stencilLoadOp (_info att) else loadOp (_info att))
            VK_ATTACHMENT_LOAD_OP_CLEAR).
Proof.
  intros att subpass isStencil.
  unfold isFirstUseOfAttachment, shouldClearAttachment.
  destruct (isMultiview subpass) eqn:Hmv.
  - destruct (at_ (_firstUseViewMasks att) (_subpassIndex subpass)) as [m | f];
      cbn [bind]; [| discriminate].
    intro H. injection H as H. apply Z.eqb_eq in H. subst m.
    unfold isMultiview in Hmv. apply negb_true_iff in Hmv. rewrite Hmv.
    reflexivity.
  - intro H. injection H as H. apply Z.eqb_eq in H.
    rewrite H, Z.eqb_refl. reflexivity.
Qed.

(** X14: [populateMTLRenderPassAttachmentDescriptor] reports a clear only when
    the load override is off, the whole attachment is rendered, the subpass is
    the first use of the attachment and the declared load-op maps to Clear. *)
Theorem clear_only_on_first_use :
  forall (MVK_APPLE_SILICON : bool)
         (mvkMTLLoadActionFromVkAttachmentLoadOp :
            VkAttachmentLoadOp -> MTLLoadAction)
         (mvkMTLStoreActionFromVkAttachmentStoreOp :
            VkAttachmentStoreOp -> bool -> bool -> MTLStoreAction)
         (rp : MVKRenderPass) (att : MVKRenderPassAttachment)
         (subpass : MVKRenderSubpass) (attachment_ : MVKImageView)
         (isRenderingEntireAttachment hasResolveAttachment canResolveFormat
          isStencil loadOverride : bool)
         (desc : MTLRenderPassAttachmentDescriptor),
    populateMTLRenderPassAttachmentDescriptor MVK_APPLE_SILICON
      mvkMTLLoadActionFromVkAttachmentLoadOp
      mvkMTLStoreActionFromVkAttachmentStoreOp rp att subpass attachment_
      isRenderingEntireAttachment hasResolveAttachment canResolveFormat
      isStencil loadOverride = Ok (desc, true) ->
    loadOverride = false /\ isRenderingEntireAttachment = true
    /\ isFirstUseOfAttachment att subpass = Ok true
    /\ mvkMTLLoadActionFromVkAttachmentLoadOp
         (if isStencil then stencilLoadOp (_info att) else loadOp (_info att))
       = MTLLoadActionClear
    /\ loadAction desc = MTLLoadActionClear.
Proof.
  intros silicon loadMap storeMap rp att subpass view entire hasResolve
         canResolve isStencil loadOverride desc H.
  unfold populateMTLRenderPassAttachmentDescriptor in H.
  match type of H with
  | bind ?m _ = _ => destruct m as [chosen | f] eqn:Echosen
  end; cbn [bind] in H; [| discriminate H].
  match type of H with
  | bind ?m _ = _ => destruct m as [action | f]
  end; cbn [bind] in H; [| discriminate H].
  injection H as <- Hclear. cbn [loadAction].
  apply MTLLoadAction_eqb_eq in Hclear.
  assert (Ec : chosen = MTLLoadActionClear).
  { destruct (silicon && storageModeMemoryless view), chosen;
      cbn in Hclear; congruence. }
  subst chosen.
  destruct loadOverride; [discriminate Echosen |].
  destruct entire; [| discriminate Echosen].
  cbn [orb negb] in Echosen.
  destruct (isFirstUseOfAttachment att subpass) as [[|] | f];
    cbn [bind negb] in Echosen; try discriminate Echosen.
  injection Echosen as Echosen.
  repeat split; assumption.
Qed.

(** *** Instances *)

Lemma positions_of_two (subpasses : list MVKRenderSubpass) :
  subpasses = _subpasses twoSubpasses \/ subpasses = _subpasses growingViews ->
  forall j s, nth_error subpasses j = Some s -> _subpassIndex s = Z.of_nat j.
Proof.
  intros [-> | ->] [| [| j]] s H; cbn in H;
    try (injection H as <-; reflexivity); destruct j; discriminate H.
Qed.

Lemma validateFormat_use_range_witness :
  let att' := validated (_subpasses twoSubpasses) (freshAttachment 0) in
  _firstUseSubpassIdx att' <= _subpassIndex (subpassAt twoSubpasses 1)
  <= _lastUseSubpassIdx att'.
Proof.
  exact (proj1 (validateFormat_use_range 4294967295 (fun _ => true) (fun f => f)
                  (fun _ => allCaps) (_subpasses twoSubpasses)
                  (freshAttachment 0) VK_SUCCESS)
           (subpassAt twoSubpasses 1) (or_intror (or_introl eq_refl)) eq_refl).
Defined.

Lemma MVKRenderPass_new_indices_witness :
  Z.of_nat (length (pSubpasses twoSubpassesInfo)) <= modulus
  /\ Z.of_nat (length (pAttachments twoSubpassesInfo)) <= modulus
  /\ length (_subpasses twoSubpasses) = 2%nat
  /\ length (_attachments twoSubpasses) = 1%nat.
Proof.
  assert (Hs : Z.of_nat (length (pSubpasses twoSubpassesInfo)) <= modulus)
    by (unfold modulus; simpl; lia).
  assert (Ha : Z.of_nat (length (pAttachments twoSubpassesInfo)) <= modulus)
    by (unfold modulus; simpl; lia).
  split; [exact Hs |]. split; [exact Ha |].
  destruct (MVKRenderPass_new_indices 4294967295 (fun _ => true) (fun f => f)
              (fun _ => allCaps) instancingDevice twoSubpassesInfo Hs Ha)
    as [_ [Hls [Hla _]]].
  split; [exact Hls | exact Hla].
Defined.

Lemma non_multiview_first_last_use_witness :
  let att' := validated (_subpasses twoSubpasses) (freshAttachment 0) in
  let sp := subpassAt twoSubpasses 1 in
  isFirstUseOfAttachment att' sp = Ok true
  <-> references 0 sp = true
      /\ forall j s, (j < 1)%nat ->
                     nth_error (_subpasses twoSubpasses) j = Some s ->
                     references 0 s = false.
Proof.
  exact (proj1 (non_multiview_first_last_use 4294967295 (fun _ => true)
                  (fun f => f) (fun _ => allCaps) (_subpasses twoSubpasses)
                  (freshAttachment 0) VK_SUCCESS 1 (subpassAt twoSubpasses 1)
                  (positions_of_two _ (or_introl eq_refl))
                  ltac:(unfold twoSubpasses; simpl; lia) eq_refl eq_refl)).
Defined.

Lemma growingViews_word32 :
  Forall (fun sp => word32 (_viewMask sp)) (_subpasses growingViews).
Proof. repeat constructor; unfold word32, modulus; simpl; lia. Qed.

Lemma first_use_view_masks_witness :
  let first :=
    _firstUseViewMasks (validated (_subpasses growingViews) (freshAttachment 0)) in
  let masks :=
    map _viewMask (multiviewUsers 0 (_subpasses growingViews)) in
  length first = length masks
  /\ Z.land (nth 0 first 0) (nth 1 first 0) = 0.
Proof.
  destruct (first_use_view_masks 4294967295 (fun _ => true) (fun f => f)
              (fun _ => allCaps) (_subpasses growingViews) (freshAttachment 0)
              VK_SUCCESS growingViews_word32 eq_refl eq_refl) as [Hlen [_ Hdis]].
  split; [exact Hlen |].
  apply (Hdis 0%nat 1%nat); [simpl; lia | simpl; lia | discriminate].
Defined.

Lemma last_use_view_masks_witness :
  let last :=
    _lastUseViewMasks (validated (_subpasses growingViews) (freshAttachment 0)) in
  let masks :=
    map _viewMask (multiviewUsers 0 (_subpasses growingViews)) in
  length last = length masks
  /\ Z.land (nth 0 last 0) (nth 1 last 0) = 0.
Proof.
  destruct (last_use_view_masks 4294967295 (fun _ => true) (fun f => f)
              (fun _ => allCaps) (_subpasses growingViews) (freshAttachment 0)
              VK_SUCCESS growingViews_word32 eq_refl eq_refl) as [Hlen [_ Hdis]].
  split; [exact Hlen |].
  apply (Hdis 0%nat 1%nat); [simpl; lia | simpl; lia | discriminate].
Defined.

Lemma multiview_first_last_use_witness :
  let att' := validated (_subpasses growingViews) (freshAttachment 0) in
  let sp := subpassAt growingViews 1 in
  (isFirstUseOfAttachment att' sp = Ok true
   <-> Z.land (_viewMask sp)
         (unionOf (firstn 1 (map _viewMask (_subpasses growingViews)))) = 0)
  /\ (isLastUseOfAttachment att' sp = Ok true
      <-> Z.land (_viewMask sp)
            (unionOf (skipn 2 (map _viewMask (_subpasses growingViews)))) = 0).
Proof.
  apply (multiview_first_last_use 4294967295 (fun _ => true) (fun f => f)
           (fun _ => allCaps) (_subpasses growingViews) (freshAttachment 0)
           VK_SUCCESS 1 (subpassAt growingViews 1) growingViews_word32).
  - intros s [<- | [<- | []]]; split; reflexivity.
  - apply positions_of_two. right. reflexivity.
  - reflexivity.
  - reflexivity.
  - reflexivity.
Defined.

Lemma first_use_should_clear_witness :
  isFirstUseOfAttachment (attachmentAt twoSubpasses 0) (subpassAt twoSubpasses 0)
  = Ok true
  /\ shouldClearAttachment (attachmentAt twoSubpasses 0)
       (subpassAt twoSubpasses 0) false = Ok true.
Proof.
  split; [reflexivity |].
  exact (first_use_should_clear (attachmentAt twoSubpasses 0)
           (subpassAt twoSubpasses 0) false eq_refl).
Defined.

Lemma clear_only_on_first_use_witness :
  isFirstUseOfAttachment (attachmentAt twoSubpasses 0) (subpassAt twoSubpasses 0)
  = Ok true
  /\ loadActionFromLoadOp (loadOp (_info (attachmentAt twoSubpasses 0)))
     = MTLLoadActionClear.
Proof.
  destruct (clear_only_on_first_use true loadActionFromLoadOp
              storeActionFromStoreOp twoSubpasses (attachmentAt twoSubpasses 0)
              (subpassAt twoSubpasses 0) privateTexture true false false false
              false
              {| loadAction := MTLLoadActionClear;
                 storeAction := MTLStoreActionStore |} eq_refl)
    as [_ [_ [Hfirst [Hmap _]]]].
  split; [exact Hfirst | exact Hmap].
Defined.

End Lifecycle.

(** ** Explicit clears: rectangles and requests *)

Module Clears.
Import UInt32 Bits Clumps Partition ViewMasks Attachment Runs.
Import Examples MoreExamples.

Lemma unionOf_bits l i :
  Z.testbit (unionOf l) i = existsb (fun x => Z.testbit x i) l.
Proof.
  induction l as [| a l IH]; cbn [unionOf fold_right existsb].
  - apply Z.bits_0.
  - fold (unionOf l). rewrite Z.lor_spec, IH. reflexivity.
Qed.

Lemma existsb_mapped {A B : Type} (f : A -> B) (p : B -> bool) (l : list A) :
  existsb p (map f l) = existsb (fun a => p (f a)) l.
Proof.
  induction l as [| a l IH]; [reflexivity |].
  cbn [map existsb]. rewrite IH. reflexivity.
Qed.

Lemma totalViews_sum l : totalViews l = sumOf (map viewCount l).
Proof.
  induction l as [| g l IH]; [reflexivity |].
  cbn [totalViews map sumOf fold_right]. fold (totalViews l).
  fold (sumOf (map viewCount l)). rewrite IH. reflexivity.
Qed.

(** The clumps of a mask cover exactly its views. *)
Lemma clumps_cover fuel m i :
  word32 m -> (Z.to_nat (__builtin_popcount m) < fuel)%nat -> 0 <= i ->
  existsb (fun g => inRun (startView g) (viewCount g) i) (clumpsOf fuel m)
  = Z.testbit m i.
Proof.
  intros Hm Hf Hi.
  destruct (clumpsOf_spec fuel m Hm Hf) as [_ [_ [_ [Hu _]]]].
  assert (Hbits : Forall (fun g => Z.testbit (groupMask g) i
                                   = inRun (startView g) (viewCount g) i)
                         (clumpsOf fuel m)).
  { eapply Forall_impl; [| exact (clumpsOf_runs fuel m Hm Hf)].
    intros g [_ [_ [_ [H _]]]]. apply H. exact Hi. }
  transitivity (Z.testbit (unionOf (map groupMask (clumpsOf fuel m))) i);
    [| rewrite Hu; reflexivity].
  rewrite unionOf_bits. clear Hu.
  induction Hbits as [| g l Hg _ IH]; [reflexivity |].
  cbn [map existsb]. rewrite IH, Hg. reflexivity.
Qed.

(** The loop of [populateMultiviewClearRects] pushes one rectangle per clump
    of the mask. *)
Lemma clearRectLoop_clumps fuel : forall area m rects,
  word32 m -> m <> 0 -> (Z.to_nat (__builtin_popcount m) < fuel)%nat ->
  clearRectLoop fuel area m rects
  = Ok (rects
        ++ map (fun g => {| rect := area; baseArrayLayer := startView g;
                            layerCount := viewCount g |})
               (clumpsOf fuel m)).
Proof.
  induction fuel as [| f IH]; intros area m rects Hm Hne Hf; [lia |].
  destruct (clumpsOf_nonzero f m Hm Hne) as [g [E El]].
  destruct (getNextViewMaskGroup_spec m Hm Hne)
    as [g' [E' [Hr [_ [_ [Hc [Hp _]]]]]]].
  assert (g' = g) by congruence. subst g'.
  pose proof (popcount_bounds (restMask g)).
  rewrite El. cbn [clearRectLoop map]. rewrite E. cbn [bind].
  destruct (Z.eqb_spec (restMask g) 0) as [E0 | Hne0].
  - rewrite E0. destruct f; reflexivity.
  - rewrite IH by (try assumption; lia).
    rewrite <- app_assoc. reflexivity.
Qed.

(** X15: the rectangles [populateMultiviewClearRects] appends cover exactly
    the views that the current Metal pass renders and that the subpass is the
    first to use; they lie on the clipped render area, each spans at least one
    layer, and together they span as many layers as there are such views. *)
Theorem multiview_clear_rects_cover :
  forall (NDEBUG : bool) (rp : MVKRenderPass) (att : MVKRenderPassAttachment)
         (clearRects : list VkClearRect) (cmdEncoder : MVKCommandEncoder)
         (group firstUse : Z),
    getViewMaskGroupForMetalPass NDEBUG rp (encoderSubpass cmdEncoder)
      (multiviewPassIndex cmdEncoder) = Ok group ->
    at_ (_firstUseViewMasks att) (_subpassIndex (encoderSubpass cmdEncoder))
    = Ok firstUse ->
    word32 firstUse ->
    exists new,
      populateMultiviewClearRects NDEBUG rp att clearRects cmdEncoder
      = Ok (clearRects ++ new)
      /\ (forall i, 0 <= i ->
            existsb (fun r => coversView r i) new
            = Z.testbit (Z.land group firstUse) i)
      /\ sumOf (map layerCount new) = __builtin_popcount (Z.land group firstUse)
      /\ Forall (fun r => rect r = clippedRenderArea cmdEncoder
                          /\ 1 <= layerCount r) new.
Proof.
  intros NDEBUG rp att clearRects enc group firstUse Hg Hf Hw.
  assert (Hm : word32 (Z.land group firstUse)).
  { apply high_word32.
    - apply Z.land_nonneg. right. apply Hw.
    - intros i Hi. rewrite Z.land_spec, (word32_high firstUse i Hw Hi).
      apply andb_false_r. }
  pose proof (popcount_bounds (Z.land group firstUse)) as Hb.
  unfold populateMultiviewClearRects. rewrite Hg, Hf. cbn [bind].
  destruct (Z.eqb_spec (Z.land group firstUse) 0) as [E | Hne].
  - exists []. rewrite app_nil_r, E. split; [reflexivity |]. split.
    + intros i Hi. rewrite Z.bits_0. reflexivity.
    + split; [reflexivity | constructor].
  - eexists. split; [apply clearRectLoop_clumps; try assumption; lia |].
    destruct (clumpsOf_spec 33 _ Hm ltac:(lia)) as [Ht _].
    pose proof (clumpsOf_runs 33 _ Hm ltac:(lia)) as Hruns.
    split; [| split].
    + intros i Hi. rewrite <- (clumps_cover 33) by (try assumption; lia).
      rewrite existsb_mapped. reflexivity.
    + rewrite <- Ht, map_map, totalViews_sum. reflexivity.
    + apply Forall_map. eapply Forall_impl; [| exact Hruns].
      intros g [_ [H1 _]]. cbn. split; [reflexivity | exact H1].
Qed.

Lemma shouldClear_declared att sp isStencil :
  shouldClearAttachment att sp isStencil = Ok true ->
  (if isStencil then stencilLoadOp (_info att) else loadOp (_info att))
  = VK_ATTACHMENT_LOAD_OP_CLEAR.
Proof.
  unfold shouldClearAttachment. intro H. apply VkAttachmentLoadOp_eqb_eq.
  destruct (isMultiview sp).
  - destruct (at_ _ _) as [m | f]; cbn [bind] in H; [| discriminate H].
    destruct (m =? 0); congruence.
  - destruct (negb _); congruence.
Qed.

Section Requests.

Variable VkClearValue : Type.
Variable getMTLPixelFormat : Z -> Z.
Variable pixFmts_isDepthFormat : Z -> bool.
Variable pixFmts_isStencilFormat : Z -> bool.

Lemma clearColorAttachments_sound rp sp clearValues colors :
  forall caIdx acc out,
    clearColorAttachments VkClearValue rp sp clearValues colors caIdx acc = Ok out ->
    exists new,
      out = acc ++ new /\ (length new <= length colors)%nat
      /\ Forall (colourRequest VkClearValue rp sp clearValues colors caIdx) new.
Proof.
  induction colors as [| ca colors IH]; intros caIdx acc out H.
  - cbn in H. injection H as <-. exists []. rewrite app_nil_r.
    split; [reflexivity |]. split; [cbn; lia | constructor].
  - cbn [clearColorAttachments] in H.
    match type of H with
    | bind ?m _ = _ => destruct m as [acc1 | f] eqn:Estep
    end; cbn [bind] in H; [| discriminate H].
    destruct (IH _ _ _ H) as [new [-> [Hlen Hall]]].
    assert (Hshift : Forall (colourRequest VkClearValue rp sp clearValues
                               (ca :: colors) caIdx) new).
    { eapply Forall_impl; [| exact Hall].
      intros e [Ha [k [ca' [att [Hi Hrest]]]]]. split; [exact Ha |].
      exists (S k), ca', att. split; [lia | exact Hrest]. }
    destruct (negb (attachment ca =? VK_ATTACHMENT_UNUSED)) eqn:Hused.
    + destruct (at_ (_attachments rp) (attachment ca)) as [att | f] eqn:Eatt;
        cbn [bind] in Estep; [| discriminate Estep].
      destruct (shouldClearAttachment att sp false) as [[|] | f] eqn:Eshould;
        cbn [bind] in Estep; try discriminate Estep.
      * destruct (at_ clearValues (attachment ca)) as [v | f] eqn:Ev;
          cbn [bind] in Estep; [| discriminate Estep].
        injection Estep as <-.
        eexists. rewrite <- app_assoc. split; [reflexivity |].
        split; [cbn [length app]; lia |].
        constructor; [| exact Hshift].
        split; [reflexivity |]. exists 0%nat, ca, att.
        cbn [colorAttachment clearValue nth_error Z.of_nat].
        apply negb_true_iff, Z.eqb_neq in Hused.
        split; [lia |]. split; [reflexivity |]. split; [exact Hused |].
        split; [exact Eatt |]. split; [exact Ev |]. split; [exact Eshould |].
        exact (shouldClear_declared att sp false Eshould).
      * injection Estep as <-. exists new. split; [reflexivity |].
        split; [cbn [length]; lia | exact Hshift].
    + injection Estep as <-. exists new. split; [reflexivity |].
      split; [cbn [length]; lia | exact Hshift].
Qed.

(** X16: what [populateClearAttachments] returns keeps the requests that were
    there and appends at most one request per colour slot and one for depth
    and stencil.  A colour request names a used colour slot whose attachment
    is declared with load-op Clear and for which [shouldClearAttachment]
    holds; the depth/stencil request comes with the aspects for which it
    holds and which the format has. *)
Theorem clear_attachments_justified :
  forall (rp : MVKRenderPass) (sp : MVKRenderSubpass)
         (clearAtts : list (VkClearAttachment VkClearValue))
         (clearValues : list VkClearValue)
         (out : list (VkClearAttachment VkClearValue)),
    populateClearAttachments VkClearValue getMTLPixelFormat
      pixFmts_isDepthFormat pixFmts_isStencilFormat rp sp clearAtts clearValues
    = Ok out ->
    exists new,
      out = clearAtts ++ new
      /\ (length new <= length (_colorAttachments sp) + 1)%nat
      /\ Forall
           (fun e =>
              (clearAspectMask e = VK_IMAGE_ASPECT_COLOR_BIT
               /\ exists ca att,
                    at_ (_colorAttachments sp) (colorAttachment e) = Ok ca
                    /\ attachment ca <> VK_ATTACHMENT_UNUSED
                    /\ at_ (_attachments rp) (attachment ca) = Ok att
                    /\ at_ clearValues (attachment ca) = Ok (clearValue e)
                    /\ shouldClearAttachment att sp false = Ok true
                    /\ loadOp (_info att) = VK_ATTACHMENT_LOAD_OP_CLEAR)
              \/ (exists att (depth stencil : bool),
                    colorAttachment e = 0
                    /\ attachment (_depthStencilAttachment sp)
                       <> VK_ATTACHMENT_UNUSED
                    /\ at_ (_attachments rp)
                         (attachment (_depthStencilAttachment sp)) = Ok att
                    /\ at_ clearValues (attachment (_depthStencilAttachment sp))
                       = Ok (clearValue e)
                    /\ clearAspectMask e
                       = (if depth then VK_IMAGE_ASPECT_DEPTH_BIT else 0)
                         + (if stencil then VK_IMAGE_ASPECT_STENCIL_BIT else 0)
                    /\ depth || stencil = true
                    /\ (depth = true ->
                        loadOp (_info att) = VK_ATTACHMENT_LOAD_OP_CLEAR
                        /\ pixFmts_isDepthFormat
                             (getMTLPixelFormat (format (_info att))) = true)
                    /\ (stencil = true ->
                        stencilLoadOp (_info att) = VK_ATTACHMENT_LOAD_OP_CLEAR
                        /\ pixFmts_isStencilFormat
                             (getMTLPixelFormat (format (_info att))) = true)))
           new.
Proof.
  intros rp sp clearAtts clearValues out H.
  unfold populateClearAttachments in H.
  destruct (clearColorAttachments _ _ _ _ _ _ _) as [acc | f] eqn:Ecol;
    cbn [bind] in H; [| discriminate H].
  destruct (clearColorAttachments_sound _ _ _ _ _ _ _ Ecol)
    as [new [-> [Hlen Hall]]].
  assert (Hcol : Forall
             (fun e =>
                (clearAspectMask e = VK_IMAGE_ASPECT_COLOR_BIT
                 /\ exists ca att,
                      at_ (_colorAttachments sp) (colorAttachment e) = Ok ca
                      /\ attachment ca <> VK_ATTACHMENT_UNUSED
                      /\ at_ (_attachments rp) (attachment ca) = Ok att
                      /\ at_ clearValues (attachment ca) = Ok (clearValue e)
                      /\ shouldClearAttachment att sp false = Ok true
                      /\ loadOp (_info att) = VK_ATTACHMENT_LOAD_OP_CLEAR))
             new).
  { eapply Forall_impl; [| exact Hall].
    intros e [Ha [k [ca [att [Hi [Hk Hrest]]]]]]. split; [exact Ha |].
    exists ca, att. split; [| exact Hrest].
    unfold at_. rewrite Hi, Z.add_0_l, Nat2Z.id, Hk. reflexivity. }
  set (Q := fun e : VkClearAttachment VkClearValue => _ \/ _).
  assert (HQ : Forall Q new)
    by (eapply Forall_impl; [| exact Hcol]; intros e He; left; exact He).
  destruct (negb (attachment (_depthStencilAttachment sp) =? VK_ATTACHMENT_UNUSED))
    eqn:Hused.
  2:{ injection H as <-. exists new. split; [reflexivity |].
      split; [lia | exact HQ]. }
  unfold getDepthStencilFormat in H.
  apply negb_true_iff in Hused. rewrite Hused in H.
  apply Z.eqb_neq in Hused.
  destruct (at_ (_attachments rp) (attachment (_depthStencilAttachment sp)))
    as [att | f] eqn:Eatt; cbn [bind] in H; [| discriminate H].
  destruct (shouldClearAttachment att sp false) as [d | f] eqn:Ed;
    cbn [bind] in H; [| discriminate H].
  destruct (shouldClearAttachment att sp true) as [st | f] eqn:Es;
    cbn [bind] in H; [| discriminate H].
  unfold getFormat in H.
  set (isD := pixFmts_isDepthFormat (getMTLPixelFormat (format (_info att)))) in *.
  set (isS := pixFmts_isStencilFormat (getMTLPixelFormat (format (_info att)))) in *.
  destruct (negb _) eqn:Hmask in H.
  2:{ injection H as <-. exists new. split; [reflexivity |].
      split; [lia | exact HQ]. }
  destruct (at_ clearValues (attachment (_depthStencilAttachment sp)))
    as [v | f] eqn:Ev; cbn [bind] in H; [| discriminate H].
  injection H as <-. eexists. rewrite <- app_assoc. split; [reflexivity |].
  split; [rewrite length_app; cbn [length]; lia |].
  apply Forall_app. split; [exact HQ |]. constructor; [| constructor].
  right. exists att, (d && isD), (st && isS).
  cbn [colorAttachment clearValue clearAspectMask].
  split; [reflexivity |]. split; [exact Hused |]. split; [reflexivity |].
  split; [reflexivity |].
  split; [destruct (d && isD), (st && isS); reflexivity |].
  split.
  { destruct (d && isD), (st && isS); try reflexivity. discriminate Hmask. }
  split; intro Hb; apply andb_true_iff in Hb; destruct Hb as [Hb1 Hb2];
    subst; (split; [| exact Hb2]).
  - exact (shouldClear_declared att sp false Ed).
  - exact (shouldClear_declared att sp true Es).
Qed.

(** X17: for a subpass that is not multiview and is not the first-use subpass
    of any attachment it renders to, [populateClearAttachments] returns the
    requests unchanged, and reads no clear value. *)
Theorem no_clear_after_first_use :
  forall (rp : MVKRenderPass) (sp : MVKRenderSubpass)
         (clearAtts : list (VkClearAttachment VkClearValue))
         (clearValues : list VkClearValue),
    isMultiview sp = false ->
    (forall ref,
       In ref (_depthStencilAttachment sp :: _colorAttachments sp) ->
       attachment ref <> VK_ATTACHMENT_UNUSED ->
       exists att,
         at_ (_attachments rp) (attachment ref) = Ok att
         /\ _firstUseSubpassIdx att <> _subpassIndex sp) ->
    populateClearAttachments VkClearValue getMTLPixelFormat
      pixFmts_isDepthFormat pixFmts_isStencilFormat rp sp clearAtts clearValues
    = Ok clearAtts.
Proof.
  intros rp sp clearAtts clearValues Hmv Hlate.
  assert (Hno : forall att isStencil,
             _firstUseSubpassIdx att <> _subpassIndex sp ->
             shouldClearAttachment att sp isStencil = Ok false).
  { intros att isStencil Hne. unfold shouldClearAttachment. rewrite Hmv.
    destruct (Z.eqb_spec (_subpassIndex sp) (_firstUseSubpassIdx att));
      [congruence | reflexivity]. }
  assert (Hcol : forall colors caIdx,
             (forall ref, In ref colors -> In ref (_colorAttachments sp)) ->
             clearColorAttachments VkClearValue rp sp clearValues colors caIdx
               clearAtts = Ok clearAtts).
  { induction colors as [| ca colors IH]; intros caIdx Hsub; [reflexivity |].
    cbn [clearColorAttachments].
    destruct (Z.eqb_spec (attachment ca) VK_ATTACHMENT_UNUSED) as [E | Hne];
      cbn [negb bind].
    - apply IH. intros ref Hin. apply Hsub. right. exact Hin.
    - destruct (Hlate ca (or_intror (Hsub ca (or_introl eq_refl))) Hne)
        as [att [Eatt Hfirst]].
      rewrite Eatt. cbn [bind]. rewrite (Hno att false Hfirst). cbn [bind].
      apply IH. intros ref Hin. apply Hsub. right. exact Hin. }
  unfold populateClearAttachments. rewrite Hcol by (intros ref Hin; exact Hin).
  cbn [bind].
  destruct (Z.eqb_spec (attachment (_depthStencilAttachment sp))
              VK_ATTACHMENT_UNUSED) as [E | Hne]; cbn [negb]; [reflexivity |].
  destruct (Hlate _ (or_introl eq_refl) Hne) as [att [Eatt Hfirst]].
  unfold getDepthStencilFormat.
  destruct (Z.eqb_spec (attachment (_depthStencilAttachment sp))
              VK_ATTACHMENT_UNUSED); [contradiction |].
  rewrite Eatt. cbn [bind]. rewrite !(Hno att _ Hfirst). cbn [bind andb].
  reflexivity.
Qed.

End Requests.

(** Instances *)

(** In [growingViews] the second subpass introduces view 1: encoding its one
    Metal pass, the attachment gets one rectangle covering layer 1. *)
Lemma multiview_clear_rects_cover_witness :
  let cmdEncoder :=
    {| encoderSubpass := subpassAt growingViews 1; multiviewPassIndex := 0;
       clippedRenderArea := {| offsetX := 0; offsetY := 0;
                               extentWidth := 64; extentHeight := 64 |} |} in
  exists new,
    populateMultiviewClearRects false growingViews (attachmentAt growingViews 0)
      [] cmdEncoder = Ok ([] ++ new)
    /\ (forall i, 0 <= i ->
        existsb (fun r => coversView r i) new = Z.testbit (Z.land 3 2) i)
    /\ sumOf (map layerCount new) = __builtin_popcount (Z.land 3 2)
    /\ Forall (fun r => rect r = clippedRenderArea cmdEncoder
                        /\ 1 <= layerCount r) new.
Proof.
  intro cmdEncoder.
  apply (multiview_clear_rects_cover false growingViews
           (attachmentAt growingViews 0) [] cmdEncoder 3 2).
  - vm_compute. reflexivity.
  - vm_compute. reflexivity.
  - unfold word32, modulus. lia.
Defined.

(** The first subpass of [twoSubpasses] requests the clear of its colour
    attachment. *)
Lemma clear_attachments_justified_witness :
  populateClearAttachments Z (fun f => f) (fun _ => false) (fun _ => false)
    twoSubpasses (subpassAt twoSubpasses 0) [] [7]
  = Ok [{| clearAspectMask := VK_IMAGE_ASPECT_COLOR_BIT; colorAttachment := 0;
           clearValue := 7 |}]
  /\ exists new : list (VkClearAttachment Z),
       [{| clearAspectMask := VK_IMAGE_ASPECT_COLOR_BIT; colorAttachment := 0;
           clearValue := 7 |}] = [] ++ new
       /\ (length new
           <= length (_colorAttachments (subpassAt twoSubpasses 0)) + 1)%nat.
Proof.
  assert (E : populateClearAttachments Z (fun f => f) (fun _ => false)
                (fun _ => false) twoSubpasses (subpassAt twoSubpasses 0) [] [7]
              = Ok [{| clearAspectMask := VK_IMAGE_ASPECT_COLOR_BIT;
                       colorAttachment := 0; clearValue := 7 |}])
    by (vm_compute; reflexivity).
  split; [exact E |].
  destruct (clear_attachments_justified Z (fun f => f) (fun _ => false)
              (fun _ => false) twoSubpasses (subpassAt twoSubpasses 0) [] [7]
              _ E) as [new [Hnew [Hlen _]]].
  exists new. split; [exact Hnew | exact Hlen].
Defined.

(** The second subpass of [twoSubpasses] requests nothing. *)
Lemma no_clear_after_first_use_witness :
  populateClearAttachments Z (fun f => f) (fun _ => false) (fun _ => false)
    twoSubpasses (subpassAt twoSubpasses 1) [] []
  = Ok [].
Proof.
  apply (no_clear_after_first_use Z (fun f => f) (fun _ => false)
           (fun _ => false) twoSubpasses (subpassAt twoSubpasses 1) [] []).
  - vm_compute. reflexivity.
  - intros ref [<- | [<- | []]] Hne.
    + exfalso. apply Hne. vm_compute. reflexivity.
    + exists (attachmentAt twoSubpasses 0).
      split; [vm_compute; reflexivity | vm_compute; discriminate].
Defined.

End Clears.

(** ** Store actions encoded late *)

Module StoreActions.
Import UInt32 Attachment Examples MoreExamples.



End StoreActions.

(** ** SPIRVReflection.h: tessellation modes *)

Module Reflection.
Import UInt32 Bits SPIRVReflection.

(** ** Tessellation reflection *)

Ltac modes r :=
  repeat match goal with
  | |- context [get_execution_mode_bitset r ?m] =>
      destruct (get_execution_mode_bitset r m)
  end.

Lemma reflectedPatchKind_firstOf tesc tese :
  reflectedPatchKind (get_execution_mode_bitset tesc)
    (get_execution_mode_bitset tese)
  = firstOf tesc tese patchKinds.
Proof.
  unfold reflectedPatchKind, firstOf, patchKinds. cbn [find].
  modes tesc; try reflexivity; modes tese; reflexivity.
Qed.

Lemma reflectedWindingOrder_firstOf tesc tese :
  reflectedWindingOrder (get_execution_mode_bitset tesc)
    (get_execution_mode_bitset tese)
  = firstOf tesc tese windingOrders.
Proof.
  unfold reflectedWindingOrder, firstOf, windingOrders. cbn [find].
  modes tesc; try reflexivity; modes tese; reflexivity.
Qed.

Lemma reflectedPartitionMode_firstOf tesc tese :
  reflectedPartitionMode (get_execution_mode_bitset tesc)
    (get_execution_mode_bitset tese)
  = firstOf tesc tese partitionModes.
Proof.
  unfold reflectedPartitionMode, firstOf, partitionModes. cbn [find].
  modes tesc; try reflexivity; modes tese; reflexivity.
Qed.



(** X20: when [getTessReflectionData] returns true, each reflected mode is the
    first of its kind that the control shader specifies and, only if it
    specifies none of that kind, the first that the evaluation shader
    specifies; the number of control points is taken the same way, point mode
    is the or of the two shaders, and the error log is as it was. *)
Theorem tess_reflection_prefers_control_shader :
  forall tescReflect teseReflect reflectData errorLog reflected errorLog',
    getTessReflectionData tescReflect teseReflect reflectData errorLog
    = (true, reflected, errorLog') ->
    firstOf tescReflect teseReflect patchKinds = Some (patchKind reflected)
    /\ firstOf tescReflect teseReflect windingOrders
       = Some (windingOrder reflected)
    /\ firstOf tescReflect teseReflect partitionModes
       = Some (partitionMode reflected)
    /\ pointMode reflected
       = get_execution_mode_bitset tescReflect ExecutionModePointMode
         || get_execution_mode_bitset teseReflect ExecutionModePointMode
    /\ numControlPoints reflected
       = (if get_execution_mode_bitset tescReflect ExecutionModeOutputVertices
          then get_execution_mode_argument tescReflect
                 ExecutionModeOutputVertices
          else get_execution_mode_argument teseReflect
                 ExecutionModeOutputVertices)
    /\ errorLog' = errorLog.
Proof.
  intros tesc tese d e d' e'. unfold getTessReflectionData. cbv zeta.
  rewrite reflectedPatchKind_firstOf, reflectedWindingOrder_firstOf,
    reflectedPartitionMode_firstOf.
  destruct (firstOf tesc tese patchKinds); [| discriminate].
  destruct (firstOf tesc tese windingOrders); [| discriminate].
  destruct (firstOf tesc tese partitionModes); [| discriminate].
  unfold reflectedControlPoints.
  destruct (get_execution_mode_bitset tesc ExecutionModeOutputVertices).
  - intro H. injection H as <- <-.
    cbn [patchKind windingOrder partitionMode pointMode numControlPoints].
    repeat split; reflexivity.
  - destruct (get_execution_mode_bitset tese ExecutionModeOutputVertices);
      [| discriminate].
    intro H. injection H as <- <-.
    cbn [patchKind windingOrder partitionMode pointMode numControlPoints].
    repeat split; reflexivity.
Qed.


(** Instances *)

(** The control shader's quads and counter-clockwise winding win over the
    evaluation shader's triangles and clockwise winding; the spacing, which
    the control shader leaves open, comes from the evaluation shader. *)
Lemma tess_reflection_prefers_control_shader_witness :
  getTessReflectionData controlShader evaluationShader
    SPIRVTessReflectionData_new noOutputVertices
  = (true,
     {| partitionMode := ExecutionModeSpacingEqual;
        windingOrder := ExecutionModeVertexOrderCcw;
        pointMode := true;
        patchKind := ExecutionModeQuads;
        numControlPoints := 4 |},
     noOutputVertices)
  /\ firstOf controlShader evaluationShader patchKinds
     = Some ExecutionModeQuads
  /\ firstOf controlShader evaluationShader partitionModes
     = Some ExecutionModeSpacingEqual.
Proof.
  assert (E : getTessReflectionData controlShader evaluationShader
                SPIRVTessReflectionData_new noOutputVertices
              = (true,
                 {| partitionMode := ExecutionModeSpacingEqual;
                    windingOrder := ExecutionModeVertexOrderCcw;
                    pointMode := true;
                    patchKind := ExecutionModeQuads;
                    numControlPoints := 4 |},
                 noOutputVertices)) by reflexivity.
  split; [exact E |].
  destruct (tess_reflection_prefers_control_shader _ _ _ _ _ _ E)
    as [Hkind [_ [Hspacing _]]].
  split; [exact Hkind | exact Hspacing].
Defined.


End Reflection.

(** ** SPIRVReflection.h: shader outputs *)

Module Outputs.
Import UInt32 Bits SPIRVReflection.

(** ** Sizes and alignments *)

(** The sizes of used outputs of one to four components. *)
Lemma output_size_cases :
  forall output,
    isUsed output = true ->
    1 <= vecWidth output <= 4 ->
    let size := getShaderOutputSize output in
    (exists k, 0 <= k <= 4 /\ size = 2 ^ k)
    /\ componentBytes (baseType output) * vecWidth output <= size
    /\ size <= componentBytes (baseType output) * 4
    /\ (vecWidth output <> 3 ->
        size = componentBytes (baseType output) * vecWidth output).
Proof.
  intros output Hused Hw. unfold getShaderOutputSize. rewrite Hused.
  cbn [negb].
  assert (Hcases : vecWidth output = 1 \/ vecWidth output = 2
                   \/ vecWidth output = 3 \/ vecWidth output = 4) by lia.
  destruct Hcases as [E | [E | [E | E]]]; rewrite E;
    destruct (baseType output); cbn;
    (split; [| split; [lia | split; [lia | intro; try reflexivity; lia]]]);
    first [ exists 0; split; [lia | reflexivity]
          | exists 1; split; [lia | reflexivity]
          | exists 2; split; [lia | reflexivity]
          | exists 3; split; [lia | reflexivity]
          | exists 4; split; [lia | reflexivity] ].
Qed.

(** X22: a used output of one to four components takes 1, 2, 4, 8 or 16
    bytes: the bytes of its components, a 3-vector counted as a 4-vector. *)
Theorem output_size_power_of_two :
  forall output,
    isUsed output = true ->
    1 <= vecWidth output <= 4 ->
    let size := getShaderOutputSize output in
    (exists k, 0 <= k <= 4 /\ size = 2 ^ k)
    /\ componentBytes (baseType output) * vecWidth output <= size
    /\ size <= componentBytes (baseType output) * 4
    /\ (vecWidth output <> 3 ->
        size = componentBytes (baseType output) * vecWidth output).
Proof.
  exact output_size_cases.
Qed.

(** X23: the alignment of an output of one to four components is zero
    exactly when the output is unused; a used output is aligned to the
    alignment of its struct if it carries one, else to its size. *)
Theorem output_alignment_zero_iff_unused :
  forall output,
    1 <= vecWidth output <= 4 ->
    (getShaderOutputAlignment output = 0 <-> isUsed output = false)
    /\ (isUsed output = true ->
        getShaderOutputAlignment output
        = if firstStructMemberAlignment output =? 0
          then getShaderOutputSize output
          else firstStructMemberAlignment output).
Proof.
  intros output Hw. unfold getShaderOutputAlignment.
  destruct (isUsed output) eqn:Hused.
  - destruct (output_size_cases output Hused Hw) as [_ [Hlow _]].
    assert (Hpos : 0 < getShaderOutputSize output).
    { cbv zeta in Hlow.
      assert (1 <= componentBytes (baseType output))
        by (destruct (baseType output); cbn; lia).
      nia. }
    destruct (Z.eqb_spec (firstStructMemberAlignment output) 0) as [E | Hne];
      cbn [negb andb].
    + split; [split; [lia | discriminate] | reflexivity].
    + split; [split; [congruence | discriminate] | reflexivity].
  - rewrite andb_false_r. unfold getShaderOutputSize. rewrite Hused.
    cbn [negb]. split; [split; reflexivity | discriminate].
Qed.

(** ** Locations *)

(** X24: stepping a location by one with [addSat] never wraps: a location
    below [uint32_t(-1)] goes up by one, and [uint32_t(-1)] stays. *)
Theorem addSat_one_saturates :
  forall a,
    word32 a ->
    addSat a 1 = Z.min (a + 1) noLocation
    /\ a <= addSat a 1 /\ word32 (addSat a 1).
Proof.
  intros a [Hlo Hhi]. unfold addSat, noLocation, word32, u32, modulus in *.
  destruct (Z.eqb_spec a 4294967295) as [-> | Hne].
  - cbn. lia.
  - rewrite Z.mod_small by lia. lia.
Qed.

(** [stable_sort] meets the contract of [std::stable_sort]: the result is a
    permutation in ascending order of location, outputs of equal location in
    the order they had. *)
Lemma insertByLocation_perm a l : Permutation (a :: l) (insertByLocation a l).
Proof.
  induction l as [| b l IH]; cbn [insertByLocation]; [apply Permutation_refl |].
  destruct (location b <? location a); [| apply Permutation_refl].
  eapply Permutation_trans; [apply perm_swap |].
  apply perm_skip. exact IH.
Qed.

Lemma stable_sort_perm l : Permutation l (stable_sort l).
Proof.
  induction l as [| a l IH]; cbn [stable_sort]; [constructor |].
  eapply Permutation_trans; [apply perm_skip; exact IH |].
  apply insertByLocation_perm.
Qed.

Lemma insertByLocation_sorted a l :
  StronglySorted (fun x y => location x <= location y) l ->
  StronglySorted (fun x y => location x <= location y) (insertByLocation a l).
Proof.
  induction 1 as [| b l Hs IH Hb]; cbn [insertByLocation].
  - repeat constructor.
  - destruct (Z.ltb_spec (location b) (location a)) as [Hlt | Hge].
    + constructor; [exact IH |].
      eapply Permutation_Forall; [apply insertByLocation_perm |].
      constructor; [lia | exact Hb].
    + constructor; [constructor; assumption |].
      constructor; [exact Hge |].
      eapply Forall_impl; [| exact Hb]. cbn. intros; lia.
Qed.

Lemma stable_sort_sorted l :
  StronglySorted (fun x y => location x <= location y) (stable_sort l).
Proof.
  induction l as [| a l IH]; cbn [stable_sort]; [constructor |].
  apply insertByLocation_sorted. exact IH.
Qed.

Lemma insertByLocation_stable k a l :
  StronglySorted (fun x y => location x <= location y) l ->
  filter (fun o => location o =? k) (insertByLocation a l)
  = filter (fun o => location o =? k) (a :: l).
Proof.
  induction 1 as [| b l Hs IH Hb]; cbn [insertByLocation]; [reflexivity |].
  destruct (Z.ltb_spec (location b) (location a)) as [Hlt | Hge];
    [| reflexivity].
  cbn [filter] in *. rewrite IH.
  destruct (Z.eqb_spec (location a) k), (Z.eqb_spec (location b) k);
    try reflexivity.
  lia.
Qed.

Lemma stable_sort_stable k l :
  filter (fun o => location o =? k) (stable_sort l)
  = filter (fun o => location o =? k) l.
Proof.
  induction l as [| a l IH]; cbn [stable_sort]; [reflexivity |].
  rewrite insertByLocation_stable by apply stable_sort_sorted.
  cbn [filter]. rewrite IH. reflexivity.
Qed.

Lemma stable_sort_Forall (P : SPIRVShaderOutput -> Prop) l :
  Forall P l -> Forall P (stable_sort l).
Proof.
  intro H. eapply Permutation_Forall; [apply stable_sort_perm | exact H].
Qed.

Lemma insertByLocation_located a located unlocated :
  location a < noLocation ->
  Forall (fun o => location o = noLocation) unlocated ->
  insertByLocation a (located ++ unlocated)
  = insertByLocation a located ++ unlocated.
Proof.
  intros Ha Hu. induction located as [| b located IH]; cbn [app insertByLocation].
  - destruct Hu as [| u unlocated Eu Hu]; [reflexivity |].
    cbn [insertByLocation].
    destruct (Z.ltb_spec (location u) (location a)); [lia | reflexivity].
  - destruct (location b <? location a); [| reflexivity].
    rewrite IH. reflexivity.
Qed.

Lemma insertByLocation_unlocated a located unlocated :
  location a = noLocation ->
  Forall (fun o => location o < noLocation) located ->
  Forall (fun o => location o = noLocation) unlocated ->
  insertByLocation a (located ++ unlocated) = located ++ a :: unlocated.
Proof.
  intros Ha Hl Hu. induction Hl as [| b located Hb Hl IH];
    cbn [app insertByLocation].
  - destruct Hu as [| u unlocated Eu Hu]; [reflexivity |].
    cbn [insertByLocation].
    destruct (Z.ltb_spec (location u) (location a)); [lia | reflexivity].
  - destruct (Z.ltb_spec (location b) (location a)); [| lia].
    rewrite IH. reflexivity.
Qed.

Lemma hasLocation_lt o :
  word32 (location o) -> hasLocation o = true -> location o < noLocation.
Proof.
  unfold word32, modulus, hasLocation, noLocation. intros [_ Hhi] H.
  apply negb_true_iff, Z.eqb_neq in H. lia.
Qed.

Lemma stable_sort_split l :
  Forall (fun o => word32 (location o)) l ->
  stable_sort l
  = stable_sort (filter hasLocation l)
    ++ filter (fun o => negb (hasLocation o)) l.
Proof.
  induction 1 as [| a l Ha Hl IH]; [reflexivity |].
  cbn [stable_sort filter]. rewrite IH.
  assert (Hu : Forall (fun o => location o = noLocation)
                 (filter (fun o => negb (hasLocation o)) l)).
  { apply Forall_forall. intros o Hin. apply filter_In in Hin.
    destruct Hin as [_ Hn]. unfold hasLocation in Hn.
    rewrite negb_involutive in Hn. apply Z.eqb_eq. exact Hn. }
  assert (Hs : Forall (fun o => location o < noLocation)
                 (stable_sort (filter hasLocation l))).
  { apply stable_sort_Forall. apply Forall_forall. intros o Hin.
    apply filter_In in Hin. destruct Hin as [Hin Hn].
    apply hasLocation_lt; [| exact Hn].
    rewrite Forall_forall in Hl. apply Hl. exact Hin. }
  destruct (hasLocation a) eqn:Hloc; cbn [negb stable_sort].
  - apply insertByLocation_located; [| exact Hu].
    apply hasLocation_lt; assumption.
  - apply insertByLocation_unlocated; [| exact Hs | exact Hu].
    unfold hasLocation in Hloc. apply negb_false_iff, Z.eqb_eq in Hloc.
    exact Hloc.
Qed.

Lemma last_cons_default {A : Type} (a : A) l d : last (a :: l) d = last l a.
Proof.
  revert a d. induction l as [| b l IH]; intros a d; [reflexivity |].
  change (last (a :: b :: l) d) with (last (b :: l) d).
  rewrite (IH b d), (IH b a). reflexivity.
Qed.

Lemma last_cons_In {A : Type} (a : A) l d : In (last (a :: l) d) (a :: l).
Proof.
  revert a. induction l as [| b l IH]; intro a; [left; reflexivity |].
  change (last (a :: b :: l) d) with (last (b :: l) d).
  right. apply IH.
Qed.

Lemma assignLocations_located loc located rest :
  Forall (fun o => location o <> noLocation) located ->
  assignLocations loc (located ++ rest)
  = located ++ assignLocations (last (map location located) loc) rest.
Proof.
  intro H. revert loc. induction H as [| a located Ha Hl IH]; intro loc;
    [reflexivity |].
  cbn [app assignLocations map].
  destruct (Z.eqb_spec (location a) noLocation); [contradiction |].
  rewrite IH, last_cons_default. reflexivity.
Qed.

Lemma assignLocations_unlocated unlocated :
  Forall (fun o => location o = noLocation) unlocated ->
  forall loc start,
    u32 (loc + 1) = start ->
    0 <= start ->
    start + Z.of_nat (length unlocated) <= noLocation ->
    assignLocations loc unlocated = renumber start unlocated.
Proof.
  induction 1 as [| a unlocated Ha Hu IH]; intros loc start Hs Hlo Hhi;
    [reflexivity |].
  cbn [assignLocations renumber].
  destruct (Z.eqb_spec (location a) noLocation); [| contradiction].
  rewrite Hs. cbn [location setLocation]. f_equal.
  cbn [length] in Hhi. unfold noLocation in Hhi.
  apply IH; [| lia | unfold noLocation; lia].
  unfold u32, modulus. apply Z.mod_small. lia.
Qed.

(** The end of [getShaderOutputs], by located and unlocated outputs. *)
Lemma sortAndAssignLocations_split :
  forall outputs,
    Forall (fun o => word32 (location o)) outputs ->
    let located := stable_sort (filter hasLocation outputs) in
    let unlocated := filter (fun o => negb (hasLocation o)) outputs in
    nextLocation located + Z.of_nat (length unlocated) <= noLocation ->
    sortAndAssignLocations outputs
    = located ++ renumber (nextLocation located) unlocated.
Proof.
  intros outputs Hw located unlocated Hfit.
  unfold sortAndAssignLocations. rewrite (stable_sort_split outputs Hw).
  fold located. fold unlocated.
  assert (Hl : Forall (fun o => 0 <= location o < noLocation) located).
  { apply stable_sort_Forall. apply Forall_forall. intros o Hin.
    apply filter_In in Hin. destruct Hin as [Hin Hn].
    rewrite Forall_forall in Hw. specialize (Hw o Hin).
    split; [apply Hw | apply hasLocation_lt; assumption]. }
  rewrite assignLocations_located
    by (eapply Forall_impl; [| exact Hl]; cbn; intros; lia).
  f_equal. apply assignLocations_unlocated.
  - apply Forall_forall. intros o Hin. apply filter_In in Hin.
    destruct Hin as [_ Hn]. unfold hasLocation in Hn.
    rewrite negb_involutive in Hn. apply Z.eqb_eq. exact Hn.
  - unfold nextLocation. destruct located as [| a located']; [reflexivity |].
    assert (Hlast : 0 <= last (map location (a :: located')) 0 < noLocation).
    { assert (Hin : In (last (map location (a :: located')) 0)
                      (map location (a :: located')))
        by apply last_cons_In.
      apply in_map_iff in Hin. destruct Hin as [o [<- Hin]].
      rewrite Forall_forall in Hl. apply Hl. exact Hin. }
    cbn [map] in *. rewrite last_cons_default in Hlast.
    rewrite !last_cons_default.
    unfold u32, modulus, noLocation in *. apply Z.mod_small. lia.
  - unfold nextLocation. destruct located as [| a located']; [lia |].
    assert (Hin : In (last (map location (a :: located')) 0)
                    (map location (a :: located')))
      by apply last_cons_In.
    apply in_map_iff in Hin. destruct Hin as [o [<- Hin]].
    rewrite Forall_forall in Hl. specialize (Hl o Hin). lia.
  - exact Hfit.
Qed.

(** X25: what the end of [getShaderOutputs] leaves: first the outputs that
    came with a location, in ascending order of location and otherwise in
    the order they were collected; then the outputs that came without one, in
    the order they were collected, numbered consecutively from one past the
    last explicit location, or from 0 if no output has one.  This holds as
    long as that numbering stays below [uint32_t(-1)]. *)
Theorem outputs_sorted_then_numbered :
  forall outputs,
    Forall (fun o => word32 (location o)) outputs ->
    let located := stable_sort (filter hasLocation outputs) in
    let unlocated := filter (fun o => negb (hasLocation o)) outputs in
    nextLocation located + Z.of_nat (length unlocated) <= noLocation ->
    sortAndAssignLocations outputs
    = located ++ renumber (nextLocation located) unlocated.
Proof.
  exact sortAndAssignLocations_split.
Qed.

Lemma renumber_locations start l :
  Forall (fun o => start <= location o < start + Z.of_nat (length l))
    (renumber start l)
  /\ StronglySorted (fun x y => location x <= location y) (renumber start l).
Proof.
  revert start. induction l as [| a l IH]; intro start; cbn [renumber length].
  - split; constructor.
  - destruct (IH (start + 1)) as [Hb Hs]. split.
    + constructor; [cbn [location setLocation]; lia |].
      eapply Forall_impl; [| exact Hb]. cbn. intros; lia.
    + constructor; [exact Hs |].
      eapply Forall_impl; [| exact Hb]. cbn [location setLocation].
      intros; lia.
Qed.

Lemma sorted_below_next l :
  StronglySorted (fun x y => location x <= location y) l ->
  Forall (fun o => location o < nextLocation l) l.
Proof.
  intro Hs. unfold nextLocation. destruct l as [| a l]; [constructor |].
  cbn [map]. rewrite last_cons_default. revert a Hs.
  induction l as [| b l IH]; intros a Hs.
  - cbn. constructor; [lia | constructor].
  - inversion Hs as [| ? ? Hs' Ha]; subst. cbn [map].
    rewrite last_cons_default. specialize (IH b Hs').
    constructor; [| exact IH].
    inversion Ha as [| ? ? Hab _]; subst.
    inversion IH as [| ? ? Hb _]; subst. lia.
Qed.

Lemma sorted_app l1 l2 :
  StronglySorted (fun x y => location x <= location y) l1 ->
  StronglySorted (fun x y => location x <= location y) l2 ->
  (forall x y, In x l1 -> In y l2 -> location x <= location y) ->
  StronglySorted (fun x y => location x <= location y) (l1 ++ l2).
Proof.
  intros H1 H2 H. induction H1 as [| a l1 Hs IH Ha]; [exact H2 |].
  cbn [app]. constructor.
  - apply IH. intros x y Hx Hy. apply H; [right |]; assumption.
  - apply Forall_app. split; [exact Ha |].
    apply Forall_forall. intros y Hy. apply H; [left; reflexivity | exact Hy].
Qed.

(** X26: under the same condition, every output leaves [getShaderOutputs]
    with a location other than [uint32_t(-1)], and the locations ascend
    along the outputs. *)
Theorem outputs_all_located_ascending :
  forall outputs,
    Forall (fun o => word32 (location o)) outputs ->
    nextLocation (stable_sort (filter hasLocation outputs))
    + Z.of_nat (length (filter (fun o => negb (hasLocation o)) outputs))
    <= noLocation ->
    Forall (fun o => hasLocation o = true) (sortAndAssignLocations outputs)
    /\ StronglySorted (fun x y => location x <= location y)
         (sortAndAssignLocations outputs).
Proof.
  intros outputs Hw Hfit.
  rewrite (sortAndAssignLocations_split outputs Hw Hfit).
  set (located := stable_sort (filter hasLocation outputs)) in *.
  set (unlocated := filter (fun o => negb (hasLocation o)) outputs) in *.
  destruct (renumber_locations (nextLocation located) unlocated) as [Hb Hs].
  assert (Hl : Forall (fun o => hasLocation o = true) located).
  { apply stable_sort_Forall. apply Forall_forall. intros o Hin.
    apply filter_In in Hin. apply Hin. }
  assert (Hsl : StronglySorted (fun x y => location x <= location y) located)
    by apply stable_sort_sorted.
  split.
  - apply Forall_app. split; [exact Hl |].
    eapply Forall_impl; [| exact Hb]. cbn. intros o Ho.
    unfold hasLocation. apply negb_true_iff, Z.eqb_neq. lia.
  - apply sorted_app; [exact Hsl | exact Hs |].
    intros x y Hx Hy.
    pose proof (sorted_below_next located Hsl) as Hn.
    rewrite Forall_forall in Hn, Hb.
    specialize (Hn x Hx). specialize (Hb y Hy). lia.
Qed.

(** Instances *)

Lemma output_size_power_of_two_witness :
  (exists k, 0 <= k <= 4 /\ getShaderOutputSize (floatOutput 3 0) = 2 ^ k)
  /\ getShaderOutputSize (floatOutput 3 0) = 16.
Proof.
  split; [| reflexivity].
  apply (output_size_power_of_two (floatOutput 3 0)); [reflexivity |].
  cbn. lia.
Defined.

Lemma output_alignment_zero_iff_unused_witness :
  getShaderOutputAlignment (floatOutput 2 0) = 0
  <-> isUsed (floatOutput 2 0) = false.
Proof.
  apply (output_alignment_zero_iff_unused (floatOutput 2 0)). cbn. lia.
Defined.

Lemma addSat_one_saturates_witness :
  addSat 4294967294 1 = Z.min (4294967294 + 1) noLocation
  /\ addSat noLocation 1 = noLocation.
Proof.
  split; [| reflexivity].
  apply (addSat_one_saturates 4294967294). unfold word32, modulus. lia.
Defined.

(** Four outputs, the first and the last without a location: the two with
    locations 2 and 0 come first, in ascending order, and the other two are
    numbered 3 and 4. *)
Lemma outputs_sorted_then_numbered_witness :
  sortAndAssignLocations
    [floatOutput 1 noLocation; floatOutput 2 2; floatOutput 3 0;
     floatOutput 4 noLocation]
  = [floatOutput 3 0; floatOutput 2 2] ++
    renumber 3 [floatOutput 1 noLocation; floatOutput 4 noLocation].
Proof.
  apply (outputs_sorted_then_numbered
           [floatOutput 1 noLocation; floatOutput 2 2; floatOutput 3 0;
            floatOutput 4 noLocation]).
  - repeat (apply Forall_cons;
            [unfold word32, modulus, noLocation; cbn; lia |]).
    apply Forall_nil.
  - vm_compute. discriminate.
Defined.

Lemma outputs_all_located_ascending_witness :
  Forall (fun o => hasLocation o = true)
    (sortAndAssignLocations
       [floatOutput 1 noLocation; floatOutput 2 2; floatOutput 3 0])
  /\ StronglySorted (fun x y => location x <= location y)
       (sortAndAssignLocations
          [floatOutput 1 noLocation; floatOutput 2 2; floatOutput 3 0]).
Proof.
  apply (outputs_all_located_ascending
           [floatOutput 1 noLocation; floatOutput 2 2; floatOutput 3 0]).
  - repeat (apply Forall_cons;
            [unfold word32, modulus, noLocation; cbn; lia |]).
    apply Forall_nil.
  - vm_compute. discriminate.
Defined.

End Outputs.
